(** * Saga orchestrator: workflow state, retries and compensations

    A shallow embedding of [firestore_repo.py] (class [FirestoreRepo]) and
    [saga_orchestrator.py] (classes [WorkflowStep] and [SagaOrchestrator]),
    followed by the properties of the orchestrator that the specification
    states.

    Python dictionaries that are merged field by field (the Firestore
    document) are finite maps from strings to values; dictionaries built
    from a literal with a fixed set of keys (step and execution results) are
    records whose optional keys are options.  Awaited calls are sequential
    (the orchestrator never runs two of them at once), so a coroutine is a
    computation in a state-and-exception monad over the [world]. *)

From stdpp Require Import gmap strings list fin_maps.
From Stdlib Require Import ZArith Lia Sorted.

Local Open Scope string_scope.
Local Open Scope Z_scope.
Local Open Scope list_scope.

(** ** Values, exceptions, results *)

(** The values this program stores in a Firestore document. *)
Inductive value : Type :=
| VNone
| VInt (z : Z)
| VStr (s : string)
| SERVER_TIMESTAMP.

#[global] Instance value_eq_dec : EqDecision value.
Proof. solve_decision. Defined.

(** A Python exception that is an instance of [Exception], as far as the
    program looks at it: [str(e)].  The errors of the Firestore client are of
    this kind. *)
Record exception : Type := Exception { str : string }.

#[global] Instance exception_eq_dec : EqDecision exception.
Proof. solve_decision. Defined.

(** An exception that is an instance of [BaseException] only
    ([asyncio.CancelledError], [KeyboardInterrupt], [SystemExit]): no
    [except Exception] clause catches it. *)
Record base_exception : Type := BaseException { class_name : string }.

#[global] Instance base_exception_eq_dec : EqDecision base_exception.
Proof. solve_decision. Defined.

Inductive outcome (A : Type) : Type :=
| Return (a : A)
| Raise (e : exception)
| Raise_base (b : base_exception).
Arguments Return {A} a.
Arguments Raise {A} e.
Arguments Raise_base {A} b.

(** [Optional[str]] as a document value. *)
Definition opt_str (o : option string) : value :=
  match o with
  | Some s => VStr s
  | None => VNone
  end.

(** The system clock, as part of what surrounds the program:
    [datetime.utcnow().isoformat()]. *)
Class Clock (Env : Type) : Type := { utcnow_isoformat : Env -> string }.

Section Saga.

(** What the steps act on (data sources, sinks, the clock), and what a step
    returns from [run()]. *)
Context {Env : Type} `{!Clock Env} {Payload : Type}.

(** The dictionary returned by [_execute_step_with_retry], and the one
    appended for a skipped step. *)
Record StepResult : Type := mkStepResult {
  sr_step : string;
  sr_status : string;
  sr_index : nat;
  sr_attempts : option nat;
  sr_result : option Payload;
  sr_error : option string
}.

(** The dictionary returned by [execute]. *)
Record ExecutionResult : Type := mkExecutionResult {
  er_status : string;
  er_message : option string;
  steps_executed : option (list StepResult);
  errors : option (list string);
  failed_step : option string;
  failed_step_index : option nat;
  created_at : option value
}.

(** Calls that leave the orchestrator, in the order they are made: to the
    steps, to the Firestore client and, of the calls to the logger, the one
    by which a run announces that a step has failed for good,
    [logger.error("step_failed_initiating_compensation", step=..., index=...,
    error=...)]; the other log lines are not kept. *)
Inductive event : Type :=
| run_called (index : nat)
| compensate_called (index : nat)
| set_called (data : gmap string value) (merge : bool)
| add_called (entry : ExecutionResult)
| step_failed_initiating_compensation (step : string) (index : nat)
    (error : option string).

(** The state of everything outside the orchestrator.  [doc] is the document
    [workflow_runs/<workflow_name>] ([None]: it does not exist), [history]
    its sub-collection.  [faults] decides the Firestore requests still to
    come: each request consumes the head, [Some e] makes it raise [e], and
    once the list is empty every request succeeds. *)
Record world : Type := World {
  env : Env;
  doc : option (gmap string value);
  history : list ExecutionResult;
  faults : list (option exception);
  log : list event
}.

Definition set_env (e : Env) (w : world) : world :=
  World e (doc w) (history w) (faults w) (log w).
Definition set_doc (d : option (gmap string value)) (w : world) : world :=
  World (env w) d (history w) (faults w) (log w).
Definition set_history (h : list ExecutionResult) (w : world) : world :=
  World (env w) (doc w) h (faults w) (log w).
Definition set_faults (f : list (option exception)) (w : world) : world :=
  World (env w) (doc w) (history w) f (log w).
Definition record (ev : event) (w : world) : world :=
  World (env w) (doc w) (history w) (faults w) (log w ++ [ev]).

(** ** Coroutines: state and exceptions *)

Definition M (A : Type) : Type := world -> outcome A * world.

Definition ret {A} (a : A) : M A := fun w => (Return a, w).
Definition raise {A} (e : exception) : M A := fun w => (Raise e, w).
Definition bind {A B} (m : M A) (k : A -> M B) : M B :=
  fun w =>
    match m w with
    | (Return a, w') => k a w'
    | (Raise e, w') => (Raise e, w')
    | (Raise_base b, w') => (Raise_base b, w')
    end.
(** [try: body  except Exception as e: handler]; what is not an
    [Exception] passes through. *)
Definition try_except {A} (body : M A) (handler : exception -> M A) : M A :=
  fun w =>
    match body w with
    | (Return a, w') => (Return a, w')
    | (Raise e, w') => handler e w'
    | (Raise_base b, w') => (Raise_base b, w')
    end.

Notation "x <- m ;; k" := (bind m (fun x => k))
  (at level 62, m at next level, right associativity).
Notation "m ;;; k" := (bind m (fun _ => k))
  (at level 62, right associativity).

(** ** The Firestore client

    The contract of [google.cloud.firestore] that the repository relies on:
    [get] reads the document, [set] replaces it or, with [merge=True],
    overwrites only the given fields, [add] appends to a collection, and any
    request may raise one of the client's errors, which are instances of
    [Exception]. *)

Definition request : M unit :=
  fun w =>
    match faults w with
    | [] => (Return tt, w)
    | None :: rest => (Return tt, set_faults rest w)
    | Some e :: rest => (Raise e, set_faults rest w)
    end.

(** [doc = self.doc_ref.get()], then [doc.exists] and [doc.to_dict()] *)
Definition doc_ref_get : M (option (gmap string value)) :=
  request ;;; (fun w => (Return (doc w), w)).

Definition merged (data : gmap string value) (old : option (gmap string value))
  : gmap string value :=
  match old with
  | Some d => data ∪ d
  | None => data
  end.

(** [self.doc_ref.set(data, merge=...)] *)
Definition doc_ref_set (data : gmap string value) (merge : bool) : M unit :=
  (fun w => (Return tt, record (set_called data merge) w)) ;;;
  request ;;;
  (fun w => (Return tt,
             set_doc (Some (if merge then merged data (doc w) else data)) w)).

(** [self.doc_ref.collection("history").add(entry)] *)
Definition history_ref_add (entry : ExecutionResult) : M unit :=
  (fun w => (Return tt, record (add_called entry) w)) ;;;
  request ;;;
  (fun w => (Return tt, set_history (history w ++ [entry]) w)).

(** ** FirestoreRepo *)

Definition _get_default_state : gmap string value :=
  <["status" := VStr "NOT_STARTED"]>
  (<["last_success_step" := VInt (-1)]>
  (<["current_step" := VNone]>
  (<["error" := VNone]>
  (<["started_at" := VNone]>
  (<["completed_at" := VNone]>
  (<["retry_count" := VInt 0]> ∅)))))).

Definition get_state : M (gmap string value) :=
  try_except
    (doc <- doc_ref_get ;;
     match doc with
     | Some state => ret state
     | None => ret _get_default_state
     end)
    (fun e => ret _get_default_state).

(** [data["updated_at"] = ...] writes into the caller's dictionary; every
    caller passes a fresh literal, so nobody else sees that. *)
Definition update_state (data : gmap string value) : M unit :=
  try_except
    (doc_ref_set (<["updated_at" := SERVER_TIMESTAMP]> data) true)
    (fun e => raise e).

Definition reset_state : M unit :=
  try_except
    (doc_ref_set _get_default_state false)
    (fun e => raise e).

(** [execution_data["created_at"] = ...] writes into the dictionary that
    [execute] goes on to return, so the updated dictionary is handed back to
    the caller; the assignment comes first in the [try] block and so is kept
    also when [add] raises. *)
Definition stamped (execution_data : ExecutionResult) : ExecutionResult :=
  mkExecutionResult (er_status execution_data) (er_message execution_data)
    (steps_executed execution_data) (errors execution_data)
    (failed_step execution_data) (failed_step_index execution_data)
    (Some SERVER_TIMESTAMP).

Definition save_execution_to_history (execution_data : ExecutionResult)
  : M ExecutionResult :=
  try_except
    (history_ref_add (stamped execution_data) ;;; ret (stamped execution_data))
    (fun e => ret (stamped execution_data)).

(** [history_ref.order_by("created_at", direction=DESCENDING).limit(limit)
    .stream()]: the entries newest first, at most [limit] of them.  The
    server stamps [created_at] when an entry is added, so the entries are
    kept here in the order of their creation times. *)
Definition history_ref_query (limit : nat) : M (list ExecutionResult) :=
  request ;;; (fun w => (Return (take limit (rev (history w))), w)).

Definition get_execution_history (limit : nat) : M (list ExecutionResult) :=
  try_except (history_ref_query limit) (fun e => ret []).

(** ** WorkflowStep *)

(** A step object: its [name] and what awaiting [run()] and [compensate()]
    does to the environment; either may return, raise an [Exception] or
    raise something that is not one (a cancelled task raises
    [asyncio.CancelledError] out of the [await]).  Every instance of
    [WorkflowStep] has both methods, so [hasattr(step, "compensate")] holds
    for each element of [steps]. *)
Record WorkflowStep : Type := {
  name : string;
  run : Env -> outcome Payload * Env;
  compensate : Env -> outcome unit * Env
}.

(** The base class: [run] raises [NotImplementedError], [compensate] only
    logs. *)
Definition base_step : WorkflowStep :=
  {| name := "base_step";
     run := fun e => (Raise (Exception "Step must implement run() method"), e);
     compensate := fun e => (Return tt, e) |}.

(** [await step.run()] and [await step.compensate()], for the step at
    position [index] of [self.steps]. *)
Definition await_run (step : WorkflowStep) (index : nat) : M Payload :=
  fun w =>
    let (r, e) := run step (env w) in
    (r, set_env e (record (run_called index) w)).

Definition await_compensate (step : WorkflowStep) (index : nat) : M unit :=
  fun w =>
    let (r, e) := compensate step (env w) in
    (r, set_env e (record (compensate_called index) w)).

Definition utcnow : M string :=
  fun w => (Return (utcnow_isoformat (env w)), w).

(** [logger.error("step_failed_initiating_compensation", ...)] *)
Definition logger_error_step_failed (step : WorkflowStep) (index : nat)
    (error : option string) : M unit :=
  fun w =>
    (Return tt,
     record (step_failed_initiating_compensation (name step) index error) w).

(** [i <= v] for an [int] on the left: a [TypeError] unless [v] is a
    number. *)
Definition int_le (i : Z) (v : value) : M bool :=
  match v with
  | VInt z => ret (i <=? z)
  | _ => raise (Exception "'<=' not supported between instances of 'int' and a non-number")
  end.

(** ** SagaOrchestrator *)

Record SagaOrchestrator : Type := {
  workflow_name : string;
  steps : list WorkflowStep;
  max_retries : Z
}.

Definition skipped (step : WorkflowStep) (index : nat) : StepResult :=
  mkStepResult (name step) "SKIPPED" index None None None.
Definition succeeded (step : WorkflowStep) (index attempt : nat)
    (result : Payload) : StepResult :=
  mkStepResult (name step) "SUCCESS" index (Some (attempt + 1)%nat)
    (Some result) None.
Definition failed (step : WorkflowStep) (index attempt : nat)
    (e : exception) : StepResult :=
  mkStepResult (name step) "FAILED" index (Some (attempt + 1)%nat)
    None (Some (str e)).
Definition retries_exceeded (step : WorkflowStep) (index : nat) : StepResult :=
  mkStepResult (name step) "FAILED" index None None (Some "Max retries exceeded").

(** The fields written before an attempt. *)
Definition attempt_fields (step : WorkflowStep) (index attempt : nat)
  : gmap string value :=
  <["current_step" := VStr (name step)]>
  (<["current_step_index" := VInt (Z.of_nat index)]>
  (<["current_step_attempt" := VInt (Z.of_nat attempt + 1)]> ∅)).

(** The body of [for attempt in range(self.max_retries)], from iteration
    [attempt] on, with [remaining] iterations to go. *)
Fixpoint attempts_from (self : SagaOrchestrator) (step : WorkflowStep)
    (index attempt remaining : nat) : M StepResult :=
  match remaining with
  | O => ret (retries_exceeded step index)
  | S remaining' =>
      try_except
        (update_state (attempt_fields step index attempt) ;;;
         result <- await_run step index ;;
         update_state (<["last_success_step" := VInt (Z.of_nat index)]> ∅) ;;;
         ret (succeeded step index attempt result))
        (fun e =>
           if decide (Z.of_nat attempt = max_retries self - 1)
           then ret (failed step index attempt e)
           else attempts_from self step index (S attempt) remaining')
  end.

Definition _execute_step_with_retry (self : SagaOrchestrator)
    (step : WorkflowStep) (index : nat) : M StepResult :=
  attempts_from self step index 0 (Z.to_nat (max_retries self)).

(** [for index in reversed(range(failed_step_index))] *)
Fixpoint _run_compensations (self : SagaOrchestrator)
    (failed_step_index : nat) : M unit :=
  match failed_step_index with
  | O => ret tt
  | S index =>
      match steps self !! index with
      | None => raise (Exception "list index out of range")
      | Some step =>
          try_except (await_compensate step index) (fun e => ret tt) ;;;
          _run_compensations self index
      end
  end.

Definition append_step (execution_result : ExecutionResult)
    (r : StepResult) : ExecutionResult :=
  mkExecutionResult (er_status execution_result) (er_message execution_result)
    ((fun l => l ++ [r]) <$> steps_executed execution_result)
    (errors execution_result) (failed_step execution_result)
    (failed_step_index execution_result) (created_at execution_result).

Definition mark_failed (execution_result : ExecutionResult)
    (step : WorkflowStep) (index : nat) : ExecutionResult :=
  mkExecutionResult "FAILED" (er_message execution_result)
    (steps_executed execution_result) (errors execution_result)
    (Some (name step)) (Some index) (created_at execution_result).

(** How the [for index, step in enumerate(self.steps)] loop is left: by
    running off its end, or by the [return] in its body. *)
Inductive loop_exit : Type :=
| Fell_through (execution_result : ExecutionResult)
| Returned (execution_result : ExecutionResult).

Fixpoint for_each_step (self : SagaOrchestrator) (last_success_step : value)
    (index : nat) (rest : list WorkflowStep)
    (execution_result : ExecutionResult) : M loop_exit :=
  match rest with
  | [] => ret (Fell_through execution_result)
  | step :: rest' =>
      skip <- int_le (Z.of_nat index) last_success_step ;;
      if (skip : bool) then
        for_each_step self last_success_step (S index) rest'
          (append_step execution_result (skipped step index))
      else
        step_result <- _execute_step_with_retry self step index ;;
        let execution_result := append_step execution_result step_result in
        if decide (sr_status step_result = "FAILED") then
          logger_error_step_failed step index (sr_error step_result) ;;;
          _run_compensations self index ;;;
          let execution_result := mark_failed execution_result step index in
          now <- utcnow ;;
          update_state
            (<["status" := VStr "FAILED"]>
            (<["error" := opt_str (sr_error step_result)]>
            (<["failed_step" := VStr (name step)]>
            (<["completed_at" := VStr now]> ∅)))) ;;;
          execution_result <- save_execution_to_history execution_result ;;
          ret (Returned execution_result)
        else
          for_each_step self last_success_step (S index) rest' execution_result
  end.

Definition already_in_progress : ExecutionResult :=
  mkExecutionResult "ALREADY_IN_PROGRESS" (Some "Workflow is already running")
    None None None None None.

Definition new_execution_result : ExecutionResult :=
  mkExecutionResult "SUCCESS" None (Some []) (Some []) None None None.

Definition execute (self : SagaOrchestrator) (retry : bool)
  : M ExecutionResult :=
  state <- get_state ;;
  if bool_decide (state !! "status" = Some (VStr "IN_PROGRESS")) && negb retry
  then ret already_in_progress
  else
    let last_success_step := default (VInt (-1)) (state !! "last_success_step") in
    let retry_count :=
      if retry then default (VInt 0) (state !! "retry_count") else VInt 0 in
    now <- utcnow ;;
    update_state
      (<["status" := VStr "IN_PROGRESS"]>
      (<["started_at" := VStr now]>
      (<["retry_count" := retry_count]>
      (<["error" := VNone]> ∅)))) ;;;
    exit <- for_each_step self last_success_step 0 (steps self)
              new_execution_result ;;
    match exit with
    | Returned execution_result => ret execution_result
    | Fell_through execution_result =>
        now <- utcnow ;;
        update_state
          (<["status" := VStr "SUCCESS"]>
          (<["completed_at" := VStr now]>
          (<["last_success_step" := VInt (Z.of_nat (length (steps self)) - 1)]> ∅))) ;;;
        save_execution_to_history execution_result
    end.

Definition get_status (self : SagaOrchestrator) : M (gmap string value) :=
  get_state.

Definition reset (self : SagaOrchestrator) : M unit :=
  reset_state.

End Saga.

(** ** Reading worlds and logs *)

Section Observations.

Context {Env : Type} {Payload : Type}.
Implicit Types (w : @world Env Payload) (evs : list (@event Payload)).

(** No Firestore request is going to fail. *)
Definition healthy w : Prop := faults w = [].

(** The exception the next Firestore request raises, if it does. *)
Definition next_fault w : option exception :=
  match faults w with
  | Some e :: _ => Some e
  | _ => None
  end.

(** A field of the stored document. *)
Definition persisted (key : string) w : option value :=
  doc w ≫= (fun d => d !! key).

(** The stored [last_success_step], read the way [execute] reads it. *)
Definition checkpoint w : Z :=
  match persisted "last_success_step" w with
  | Some (VInt z) => z
  | _ => -1
  end.

(** The steps whose [run()], respectively [compensate()], was awaited. *)
Definition runs_in evs : list nat :=
  omap (fun ev => match ev with run_called i => Some i | _ => None end) evs.
Definition compensations_in evs : list nat :=
  omap (fun ev => match ev with compensate_called i => Some i | _ => None end) evs.
(** The steps announced as failed for good. *)
Definition failures_in evs : list nat :=
  omap (fun ev =>
          match ev with
          | step_failed_initiating_compensation _ i _ => Some i
          | _ => None
          end) evs.
(** The documents written. *)
Definition writes_in evs : list (gmap string value) :=
  omap (fun ev => match ev with set_called data _ => Some data | _ => None end) evs.

(** The [last_success_step] a write carries, if it carries one. *)
Definition checkpoint_written (ev : @event Payload) : option Z :=
  match ev with
  | set_called data _ =>
      match data !! "last_success_step" with
      | Some (VInt z) => Some z
      | _ => None
      end
  | _ => None
  end.

(** Follow the stored [last_success_step] through the writes of [evs],
    starting from [c]: [Some c'] when no write lowers it and it ends at
    [c'], [None] as soon as a write is below the value it replaces. *)
Fixpoint climb (c : Z) evs : option Z :=
  match evs with
  | [] => Some c
  | ev :: evs' =>
      match checkpoint_written ev with
      | None => climb c evs'
      | Some z => if decide (c <= z) then climb z evs' else None
      end
  end.

(** The environment after [run()] has been awaited [n] times in a row, and
    what the next [run()] does then. *)
Fixpoint env_after_runs (step : @WorkflowStep Env Payload) (n : nat) (e : Env)
  : Env :=
  match n with
  | O => e
  | S n' => env_after_runs step n' (snd (run step e))
  end.
Definition nth_run (step : @WorkflowStep Env Payload) (n : nat) (e : Env)
  : outcome Payload :=
  fst (run step (env_after_runs step n e)).

(** What the awaited calls of [evs] make of the environment, each logged
    [run()] and [compensate()] being that of the step at the logged position
    of [steps]. *)
Definition replay_call (self : @SagaOrchestrator Env Payload)
    (e : Env) (ev : @event Payload) : Env :=
  match ev with
  | run_called i =>
      match steps self !! i with
      | Some step => snd (run step e)
      | None => e
      end
  | compensate_called i =>
      match steps self !! i with
      | Some step => snd (compensate step e)
      | None => e
      end
  | _ => e
  end.
Definition replay (self : @SagaOrchestrator Env Payload) evs (e : Env) : Env :=
  fold_left (replay_call self) evs e.

Definition compensate_is_catchable (step : @WorkflowStep Env Payload) : Prop :=
  forall e b, fst (compensate step e) <> Raise_base b.

(** The stored [last_success_step] is a number (or absent) and points into
    the step list. *)
Definition checkpoint_ok (self : @SagaOrchestrator Env Payload) w : Prop :=
  match persisted "last_success_step" w with
  | None => True
  | Some (VInt z) => z <= Z.of_nat (length (steps self)) - 1
  | Some _ => False
  end.

End Observations.

Section Writes.

Context {Env : Type} {Payload : Type}.

(** The world after [doc_ref.set(data, merge=True)] went through. *)
Definition written (data : gmap string value) (w : @world Env Payload)
  : @world Env Payload :=
  set_doc (Some (merged data (doc w))) (record (set_called data true) w).

(** [update_state] stamps every write. *)
Definition stamp (data : gmap string value) : gmap string value :=
  <["updated_at" := SERVER_TIMESTAMP]> data.

End Writes.

Section Calls.

Context {Env : Type} `{!Clock Env} {Payload : Type}.

(** The worlds after each of a sequence of [execute] calls on one
    orchestrator, whatever each call returns or raises. *)
Fixpoint worlds_after (self : @SagaOrchestrator Env Payload)
    (retries : list bool) (w : @world Env Payload) : list (@world Env Payload) :=
  match retries with
  | [] => []
  | retry :: retries' =>
      let w' := snd (execute self retry w) in
      w' :: worlds_after self retries' w'
  end.

(** The read that opens each of a sequence of [execute] calls is
    answered. *)
Fixpoint reads_answered (self : @SagaOrchestrator Env Payload)
    (retries : list bool) (w : @world Env Payload) : Prop :=
  match retries with
  | [] => True
  | retry :: retries' =>
      next_fault w = None
      /\ reads_answered self retries' (snd (execute self retry w))
  end.

(** What the retry loop calls in [count] attempts that do not succeed,
    the first of them being iteration [first]: before each [run()], the write
    of the attempt's fields. *)
Definition attempt_events (step : @WorkflowStep Env Payload)
    (index first count : nat) : list (@event Payload) :=
  flat_map
    (fun attempt =>
       [set_called (stamp (attempt_fields step index attempt)) true;
        run_called index])
    (seq first count).

(** Every step of [rest] (the steps from position [index] on) that lies at
    or below the checkpoint [last_success_step] has its SKIPPED entry, at
    its position, in [srs]. *)
Definition skipped_recorded (last_success_step : value) (index : nat)
    (rest : list (@WorkflowStep Env Payload))
    (srs : list (@StepResult Payload)) : Prop :=
  forall s j step,
    last_success_step = VInt s ->
    rest !! j = Some step ->
    Z.of_nat (index + j) <= s ->
    srs !! j = Some (skipped step (index + j)).

(** The fields the retry loop writes, and those the step loop writes. *)
Definition attempt_keys : list string :=
  ["current_step"; "current_step_index"; "current_step_attempt";
   "last_success_step"; "updated_at"].
Definition loop_keys : list string :=
  attempt_keys ++ ["status"; "error"; "failed_step"; "completed_at"].

(** What holds of a result [sr] of the retry loop for [step], entered in
    world [w] at iteration [attempt] with [remaining] iterations to go, of
    the world [w'] it leaves and of the calls [evs] it made. *)
Definition retry_outcome (step : @WorkflowStep Env Payload)
    (index attempt remaining : nat) (w : @world Env Payload)
    (sr : @StepResult Payload) (w' : @world Env Payload)
    (evs : list (@event Payload)) : Prop :=
  log w' = log w ++ evs
  /\ history w' = history w
  /\ sr_step sr = name step
  /\ sr_index sr = index
  /\ Forall (eq index) (runs_in evs)
  /\ compensations_in evs = []
  /\ (length (runs_in evs) <= remaining)%nat
  /\ (forall key, key ∉ attempt_keys -> persisted key w' = persisted key w)
  /\ ((sr_status sr = "SUCCESS"
       /\ persisted "last_success_step" w' = Some (VInt (Z.of_nat index))
       /\ exists a p,
            sr_attempts sr = Some a /\ sr_result sr = Some p
            /\ sr_error sr = None
            /\ (attempt < a <= attempt + remaining)%nat)
      \/ (sr_status sr = "FAILED" /\ sr_result sr = None
          /\ persisted "last_success_step" w'
             = persisted "last_success_step" w
          /\ exists msg, sr_error sr = Some msg)).

(** What holds when the retry loop lets through what [run()] raised. *)
Definition retry_aborted (step : @WorkflowStep Env Payload)
    (index attempt remaining : nat) (w w' : @world Env Payload)
    (evs : list (@event Payload)) : Prop :=
  log w' = log w ++ evs
  /\ history w' = history w
  /\ Forall (eq index) (runs_in evs)
  /\ compensations_in evs = []
  /\ (length (runs_in evs) <= remaining)%nat
  /\ (forall key, key ∉ attempt_keys -> persisted key w' = persisted key w)
  /\ persisted "last_success_step" w' = persisted "last_success_step" w.

Definition retry_result (step : @WorkflowStep Env Payload)
    (index attempt remaining : nat) (w : @world Env Payload)
    (out : outcome (@StepResult Payload)) (w' : @world Env Payload)
    (evs : list (@event Payload)) : Prop :=
  match out with
  | Return sr => retry_outcome step index attempt remaining w sr w' evs
  | Raise _ => False
  | Raise_base _ => retry_aborted step index attempt remaining w w' evs
  end.

(** The calls [evs] of a run in which the step at [k] is announced as
    failed: what came before, [evs1], holds no compensation; the announcement
    is followed by [compensate()] on the steps [k-1], [k-2], ..., [j], and
    among the calls [evs2] after these there is neither a [run()] nor a
    [compensate()]. *)
Definition swept (self : @SagaOrchestrator Env Payload) (k j : nat)
    (nm : string) (err : option string)
    (evs1 evs2 evs : list (@event Payload)) : Prop :=
  evs = evs1 ++ step_failed_initiating_compensation nm k err
                :: map compensate_called (rev (seq j (k - j))) ++ evs2
  /\ failures_in evs1 = [] /\ compensations_in evs1 = []
  /\ runs_in evs2 = [] /\ compensations_in evs2 = []
  /\ failures_in evs2 = []
  /\ (j <= k < length (steps self))%nat
  /\ (exists step, steps self !! k = Some step /\ nm = name step).

(** The write that records a step as done. *)
Definition checkpoint_event (index : nat) : @event Payload :=
  set_called (stamp (<["last_success_step" := VInt (Z.of_nat index)]> ∅)) true.

End Calls.

(** * A small workflow to run

    Steps that act on a counter of the calls made so far, with strings as
    payloads. *)

Module Demo.

#[export] Instance counter_clock : Clock nat :=
  {| utcnow_isoformat := fun _ => "2024-01-01T00:00:00" |}.

(** A step whose [run()] returns and whose [compensate()] does nothing. *)
Definition returning (n : string) : @WorkflowStep nat string :=
  {| name := n;
     run := fun e => (Return "done", S e);
     compensate := fun e => (Return tt, S e) |}.

(** A step whose [run()] and [compensate()] both raise. *)
Definition raising (n : string) : @WorkflowStep nat string :=
  {| name := n;
     run := fun e => (Raise (Exception "boom"), S e);
     compensate := fun e => (Raise (Exception "cannot undo"), S e) |}.

(** A step whose [run()] raises until [k] calls have been made. *)
Definition flaky (n : string) (k : nat) : @WorkflowStep nat string :=
  {| name := n;
     run := fun e =>
       if (e <? k)%nat then (Raise (Exception "not yet"), S e)
       else (Return "done", S e);
     compensate := fun e => (Return tt, S e) |}.

Definition abcd : @SagaOrchestrator nat string :=
  {| workflow_name := "daily_data_analysis";
     steps := [returning "A"; returning "B"; raising "C"; returning "D"];
     max_retries := 2 |}.

Definition all_good : @SagaOrchestrator nat string :=
  {| workflow_name := "daily_data_analysis";
     steps := [returning "A"; flaky "B" 2; returning "C"];
     max_retries := 3 |}.

Definition a_then_fail : @SagaOrchestrator nat string :=
  {| workflow_name := "daily_data_analysis";
     steps := [returning "A"; raising "B"];
     max_retries := 1 |}.

Definition no_steps : @SagaOrchestrator nat string :=
  {| workflow_name := "daily_data_analysis"; steps := []; max_retries := 3 |}.

(** No document yet, nothing called yet, a store that answers. *)
Definition fresh : @world nat string := World 0%nat None [] [] [].

(** A workflow whose document says it is running. *)
Definition running : @world nat string :=
  World 0%nat (Some (<["status" := VStr "IN_PROGRESS"]> ∅)) [] [] [].

(** A stored document, and a store whose next request fails. *)
Definition stored : gmap string value :=
  <["status" := VStr "FAILED"]> (<["last_success_step" := VInt 1]> ∅).
Definition readable : @world nat string := World 0%nat (Some stored) [] [] [].
Definition down : @world nat string :=
  World 0%nat (Some stored) [] [Some (Exception "unavailable")] [].


(** An orchestrator that allows no attempt at all. *)
Definition no_attempts : @SagaOrchestrator nat string :=
  {| workflow_name := "daily_data_analysis";
     steps := [returning "A"; returning "B"];
     max_retries := 0 |}.

(** A store that fails the next two requests, and one that answers the
    next request and fails the one after it. *)
Definition outage : @world nat string :=
  World 0%nat (Some stored) []
    [Some (Exception "deadline exceeded"); Some (Exception "unavailable")] [].
Definition hiccup : @world nat string :=
  World 0%nat None [] [None; Some (Exception "unavailable")] [].

(** A workflow of four steps that has run to its end. *)
Definition finished : @world nat string :=
  World 0%nat
    (Some (<["status" := VStr "SUCCESS"]> (<["last_success_step" := VInt 3]> ∅)))
    [] [] [].

(** A step whose [run()] returns and whose [compensate()] is cancelled. *)
Definition cancelled (n : string) : @WorkflowStep nat string :=
  {| name := n;
     run := fun e => (Return "done", S e);
     compensate := fun e => (Raise_base (BaseException "CancelledError"), S e) |}.


Definition undo_cancelled : @SagaOrchestrator nat string :=
  {| workflow_name := "daily_data_analysis";
     steps := [returning "A"; cancelled "B"; raising "C"];
     max_retries := 1 |}.

(** A workflow of one step, and a store that answers five requests, all
    that a run of it makes before it saves its result, and refuses the
    sixth. *)
Definition one_step : @SagaOrchestrator nat string :=
  {| workflow_name := "daily_data_analysis";
     steps := [returning "A"];
     max_retries := 1 |}.
Definition add_refused : @world nat string :=
  World 0%nat None []
    [None; None; None; None; None; Some (Exception "unavailable")] [].

(** What a call returned, or [d] if it raised. *)
Definition returned {A : Type} (d : A) (o : outcome A) : A :=
  match o with
  | Return a => a
  | Raise _ | Raise_base _ => d
  end.

(** The world a first, failed, run of [a_then_fail] leaves behind. *)
Definition after_failure : @world nat string :=
  snd (execute a_then_fail false fresh).

End Demo.

(** * Properties *)

Section Properties.

Context {Env : Type} `{!Clock Env} {Payload : Type}.
Implicit Types (w : @world Env Payload) (evs : list (@event Payload)).
Implicit Types (self : @SagaOrchestrator Env Payload).
Implicit Types (step : @WorkflowStep Env Payload).

(** ** The repository *)

Ltac unfold_repo :=
  unfold get_state, update_state, reset_state, save_execution_to_history,
    doc_ref_get, doc_ref_set, history_ref_add, request, try_except, bind,
    ret, raise in *.

Ltac case_faults w :=
  let e := fresh "e" in
  let rest := fresh "rest" in
  let Hf := fresh "Hf" in
  destruct (faults w) as [|[e|] rest] eqn:Hf.

Lemma get_state_cases w :
  exists state, get_state w = (Return state, set_faults (tail (faults w)) w)
    /\ state = match next_fault w, doc w with
               | None, Some d => d
               | _, _ => _get_default_state
               end.
Proof.
  unfold next_fault. unfold_repo. destruct w as [e d h f l]; simpl.
  destruct f as [|[x|] rest]; simpl; destruct d; eauto.
Qed.

Lemma update_state_raises data w e :
  next_fault w = Some e ->
  update_state data w =
    (Raise e,
     set_faults (tail (faults w))
       (record (set_called (<["updated_at" := SERVER_TIMESTAMP]> data) true) w)).
Proof.
  unfold next_fault. unfold_repo. destruct w as [en d h f l]; simpl.
  destruct f as [|[x|] rest]; simpl; intros [= ->]; reflexivity.
Qed.

Lemma update_state_returns data w :
  next_fault w = None ->
  update_state data w =
    (Return tt,
     set_doc (Some (merged (<["updated_at" := SERVER_TIMESTAMP]> data) (doc w)))
       (set_faults (tail (faults w))
          (record (set_called (<["updated_at" := SERVER_TIMESTAMP]> data) true) w))).
Proof.
  unfold next_fault. unfold_repo. destruct w as [en d h f l]; simpl.
  destruct f as [|[x|] rest]; simpl; intros [=]; reflexivity.
Qed.

Lemma reset_state_returned w w' :
  reset_state w = (Return tt, w') -> doc w' = Some _get_default_state.
Proof.
  unfold_repo. destruct w as [en d h f l]; simpl.
  destruct f as [|[x|] rest]; simpl; intros [= <-]; reflexivity.
Qed.

(** C8: [get_state] returns the stored document when it exists and can be
    read; it returns the default state (NOT_STARTED, last success step -1,
    retry count 0, no current step, error or timestamps) when there is no
    document and when the read raises, so it never raises itself.
    [update_state] re-raises the exception of a failed write, and the
    document stays as it was. *)
Theorem C8_get_state_defaults_update_state_raises :
  (forall w d, next_fault w = None -> doc w = Some d ->
     fst (get_state w) = Return d)
  /\ (forall w, next_fault w = None -> doc w = None ->
     fst (get_state w) = Return _get_default_state)
  /\ (forall w e, next_fault w = Some e ->
     fst (get_state w) = Return _get_default_state)
  /\ (forall w, exists state, fst (get_state w) = Return state)
  /\ (_get_default_state !! "status" = Some (VStr "NOT_STARTED")
      /\ _get_default_state !! "last_success_step" = Some (VInt (-1))
      /\ _get_default_state !! "retry_count" = Some (VInt 0)
      /\ _get_default_state !! "current_step" = Some VNone
      /\ _get_default_state !! "error" = Some VNone
      /\ _get_default_state !! "started_at" = Some VNone
      /\ _get_default_state !! "completed_at" = Some VNone)
  /\ (forall data w e, next_fault w = Some e ->
     fst (update_state data w) = Raise e
     /\ doc (snd (update_state data w)) = doc w).
Proof.
  split_and!; try reflexivity.
  - intros w d Hn Hd. destruct (get_state_cases w) as (s & -> & ->).
    rewrite Hn, Hd. reflexivity.
  - intros w Hn Hd. destruct (get_state_cases w) as (s & -> & ->).
    rewrite Hn, Hd. reflexivity.
  - intros w e Hn. destruct (get_state_cases w) as (s & -> & ->).
    rewrite Hn. reflexivity.
  - intros w. destruct (get_state_cases w) as (s & -> & _). eauto.
  - intros data w e Hn. rewrite (update_state_raises _ _ _ Hn). split; reflexivity.
Qed.

(** C9: once [reset()] has returned, the stored document is the default
    state whatever it was before, and [get_status()] right after it returns
    exactly that dictionary: NOT_STARTED, last success step -1, no current
    step, no error, retry count 0, no start or completion time. *)
Theorem C9_reset_then_get_status self w w1 :
  reset self w = (Return tt, w1) ->
  doc w1 = Some _get_default_state
  /\ fst (get_status self w1) =
       Return (<["status" := VStr "NOT_STARTED"]>
              (<["last_success_step" := VInt (-1)]>
              (<["current_step" := VNone]>
              (<["error" := VNone]>
              (<["retry_count" := VInt 0]>
              (<["started_at" := VNone]>
              (<["completed_at" := VNone]> ∅))))))).
Proof.
  intros Hreset. apply reset_state_returned in Hreset. split; [exact Hreset|].
  unfold get_status. destruct (get_state_cases w1) as (s & -> & ->).
  rewrite Hreset. simpl.
  rewrite (insert_insert_ne _ "retry_count" "started_at") by discriminate.
  rewrite (insert_insert_ne _ "retry_count" "completed_at") by discriminate.
  destruct (next_fault w1); reflexivity.
Qed.

(** ** The guard of [execute] *)

(** C5: when the state read at the start of [execute] says IN_PROGRESS and
    [retry] is false, [execute] returns the ALREADY_IN_PROGRESS result and
    has called nothing: no write, no [run()], no [compensate()]; document
    and history are as before. *)
Theorem C5_already_in_progress self w state w1 :
  get_state w = (Return state, w1) ->
  state !! "status" = Some (VStr "IN_PROGRESS") ->
  exists r w',
    execute self false w = (Return r, w')
    /\ er_status r = "ALREADY_IN_PROGRESS"
    /\ steps_executed r = None
    /\ log w' = log w
    /\ doc w' = doc w
    /\ history w' = history w
    /\ env w' = env w.
Proof.
  intros Hget Hstatus.
  exists already_in_progress, w1.
  destruct (get_state_cases w) as (s & Hs & _).
  rewrite Hget in Hs. injection Hs as <- ->.
  unfold execute, bind at 1. rewrite Hget.
  rewrite bool_decide_eq_true_2 by assumption. simpl.
  unfold ret. repeat split.
Qed.

(** ** A store that answers every request *)

Lemma update_state_healthy data w :
  healthy w -> update_state data w = (Return tt, written (stamp data) w).
Proof.
  unfold healthy. unfold_repo. destruct w as [en d h f l]; simpl.
  intros ->. reflexivity.
Qed.

Lemma get_state_healthy w :
  healthy w ->
  get_state w = (Return (default _get_default_state (doc w)), w).
Proof.
  unfold healthy. unfold_repo. destruct w as [en d h f l]; simpl.
  intros ->. destruct d; reflexivity.
Qed.

Lemma save_execution_to_history_healthy (er : @ExecutionResult Payload) w :
  healthy w ->
  save_execution_to_history er w =
    (Return (stamped er),
     set_history (history w ++ [stamped er])
       (record (add_called (stamped er)) w)).
Proof.
  unfold healthy. unfold_repo. destruct w as [en d h f l]; simpl.
  intros ->. reflexivity.
Qed.

Lemma await_run_eq step index w :
  await_run step index w =
    (fst (run step (env w)),
     set_env (snd (run step (env w))) (record (run_called index) w)).
Proof. unfold await_run. destruct (run step (env w)); reflexivity. Qed.

Lemma await_compensate_eq step index w :
  await_compensate step index w =
    (fst (compensate step (env w)),
     set_env (snd (compensate step (env w)))
       (record (compensate_called index) w)).
Proof. unfold await_compensate. destruct (compensate step (env w)); reflexivity. Qed.

Lemma persisted_written key data w :
  persisted key (written data w) =
    match data !! key with
    | Some v => Some v
    | None => persisted key w
    end.
Proof.
  unfold persisted, written, merged. simpl.
  destruct (doc w) as [d|]; simpl.
  - rewrite lookup_union. destruct (data !! key), (d !! key); reflexivity.
  - destruct (data !! key); reflexivity.
Qed.

Lemma persisted_set_env key e w : persisted key (set_env e w) = persisted key w.
Proof. reflexivity. Qed.
Lemma persisted_record key ev w : persisted key (record ev w) = persisted key w.
Proof. reflexivity. Qed.
Lemma persisted_set_history key h w :
  persisted key (set_history h w) = persisted key w.
Proof. reflexivity. Qed.

(** ** The retry loop *)

Lemma healthy_written data w : healthy w -> healthy (written data w).
Proof. exact id. Qed.
Lemma healthy_set_env e w : healthy w -> healthy (set_env e w).
Proof. exact id. Qed.
Lemma healthy_record (ev : @event Payload) w : healthy w -> healthy (record ev w).
Proof. exact id. Qed.
Lemma healthy_set_history h w : healthy w -> healthy (set_history h w).
Proof. exact id. Qed.

Lemma attempt_fields_checkpoint step index attempt :
  stamp (attempt_fields step index attempt) !! "last_success_step" = None.
Proof. reflexivity. Qed.

(** One iteration of the loop against a store that answers. *)
Lemma attempts_from_S_healthy self step index attempt remaining w :
  healthy w ->
  let w1 := written (stamp (attempt_fields step index attempt)) w in
  let w2 := set_env (snd (run step (env w))) (record (run_called index) w1) in
  attempts_from self step index attempt (S remaining) w =
    match fst (run step (env w)) with
    | Return result =>
        (Return (succeeded step index attempt result),
         written (stamp (<["last_success_step" := VInt (Z.of_nat index)]> ∅)) w2)
    | Raise e =>
        if decide (Z.of_nat attempt = max_retries self - 1)
        then (Return (failed step index attempt e), w2)
        else attempts_from self step index (S attempt) remaining w2
    | Raise_base b => (Raise_base b, w2)
    end.
Proof.
  intros Hw w1 w2. cbn [attempts_from]. unfold try_except, bind at 1.
  rewrite (update_state_healthy _ _ Hw). fold w1.
  unfold bind at 1. rewrite await_run_eq. change (env w1) with (env w).
  fold w2. destruct (fst (run step (env w))) as [result|e|b].
  - unfold bind. rewrite update_state_healthy by exact Hw. reflexivity.
  - destruct (decide _); reflexivity.
  - reflexivity.
Qed.

Lemma climb_app c evs1 evs2 :
  climb c (evs1 ++ evs2) = climb c evs1 ≫= fun c1 => climb c1 evs2.
Proof.
  revert c. induction evs1 as [|ev evs1 IH]; intros c; simpl; [reflexivity|].
  destruct (checkpoint_written ev) as [z|]; [|apply IH].
  destruct (decide (c <= z)); [apply IH|reflexivity].
Qed.

Lemma climb_le c evs c' : climb c evs = Some c' -> c <= c'.
Proof.
  revert c. induction evs as [|ev evs IH]; intros c; simpl.
  - intros [= ->]. lia.
  - destruct (checkpoint_written ev) as [z|]; [|apply IH].
    destruct (decide (c <= z)); [|discriminate].
    intros H. apply IH in H. lia.
Qed.

Lemma runs_in_app evs1 evs2 : runs_in (evs1 ++ evs2) = runs_in evs1 ++ runs_in evs2.
Proof. apply omap_app. Qed.
Lemma compensations_in_app evs1 evs2 :
  compensations_in (evs1 ++ evs2) = compensations_in evs1 ++ compensations_in evs2.
Proof. apply omap_app. Qed.

Lemma attempts_from_healthy self step index remaining : forall attempt w,
  healthy w ->
  (exists sr w' evs,
    attempts_from self step index attempt remaining w = (Return sr, w')
    /\ healthy w' /\ history w' = history w /\ log w' = log w ++ evs
    /\ sr_index sr = index /\ sr_step sr = name step
    /\ compensations_in evs = []
    /\ Forall (eq index) (runs_in evs)
    /\ ((sr_status sr = "SUCCESS"
         /\ persisted "last_success_step" w' = Some (VInt (Z.of_nat index))
         /\ (forall c, c <= Z.of_nat index -> climb c evs = Some (Z.of_nat index)))
        \/ (sr_status sr = "FAILED"
         /\ persisted "last_success_step" w' = persisted "last_success_step" w
         /\ (forall c, climb c evs = Some c))))
  \/ (exists b w' e,
        attempts_from self step index attempt remaining w = (Raise_base b, w')
        /\ healthy w' /\ history w' = history w
        /\ fst (run step e) = Raise_base b).
Proof.
  induction remaining as [|remaining IH]; intros attempt w Hw.
  - left. exists (retries_exceeded step index), w, [].
    rewrite app_nil_r. split_and!; try reflexivity; try assumption.
    + constructor.
    + right. split_and!; reflexivity.
  - rewrite attempts_from_S_healthy by assumption.
    set (fields := stamp (attempt_fields step index attempt)).
    set (w2 := set_env _ (record (run_called index) (written fields w))).
    assert (Hw2 : healthy w2) by exact Hw.
    assert (Hl2 : log w2 = log w ++ [set_called fields true; run_called index]).
    { subst w2. simpl. rewrite <- app_assoc. reflexivity. }
    assert (Hp2 : persisted "last_success_step" w2
                  = persisted "last_success_step" w).
    { subst w2. rewrite persisted_set_env, persisted_record, persisted_written.
      reflexivity. }
    destruct (fst (run step (env w))) as [result|e|b] eqn:Hrun0.
    3:{ right. exists b, w2, (env w). split_and!; try reflexivity; assumption. }
    + left. set (cp := stamp (<["last_success_step" := VInt (Z.of_nat index)]> ∅)).
      exists (succeeded step index attempt result), (written cp w2),
        [set_called fields true; run_called index; set_called cp true].
      split_and!; try reflexivity; try assumption.
      * change (log (written cp w2)) with (log w2 ++ [set_called cp true]).
        rewrite Hl2, <- app_assoc. reflexivity.
      * repeat constructor.
      * left. split_and!; [reflexivity|rewrite persisted_written; reflexivity|].
        intros c Hc. cbn [climb].
        change (checkpoint_written (set_called fields true)) with (@None Z).
        change (checkpoint_written (run_called index)) with (@None Z).
        change (checkpoint_written (set_called cp true))
          with (Some (Z.of_nat index)).
        cbn [climb]. rewrite decide_True by assumption. reflexivity.
    + destruct (decide (Z.of_nat attempt = max_retries self - 1)).
      * left. exists (failed step index attempt e), w2,
          [set_called fields true; run_called index].
        split_and!; try reflexivity; try assumption.
        -- repeat constructor.
        -- right. split_and!; try reflexivity; assumption.
      * destruct (IH (S attempt) w2 Hw2)
          as [(sr & w' & evs & -> & Hh & Hhist & Hlog & Hi & Hn & Hc & Hr & Hcase)
             |(b & w' & e' & -> & Hh & Hhist & Hb)].
        2:{ right. exists b, w', e'. split_and!; try reflexivity; assumption. }
        left.
        exists sr, w', ([set_called fields true; run_called index] ++ evs).
        split_and!; try assumption; try reflexivity.
        -- rewrite Hlog, Hl2, <- app_assoc. reflexivity.
        -- rewrite runs_in_app. apply Forall_app. split; [repeat constructor|assumption].
        -- destruct Hcase as [(Hs & Hp & Hcl)|(Hs & Hp & Hcl)]; [left|right];
             (split_and!; [assumption|congruence|]).
           ++ intros c Hle. rewrite climb_app. simpl.
              change (checkpoint_written (set_called fields true)) with (@None Z).
              simpl. apply Hcl, Hle.
           ++ intros c. rewrite climb_app. simpl.
              change (checkpoint_written (set_called fields true)) with (@None Z).
              simpl. apply Hcl.
Qed.

(** [remaining] attempts that all raise, the last of them being the last
    one allowed. *)
Lemma retry_fails self step index : forall remaining attempt w,
  healthy w ->
  (1 <= remaining)%nat ->
  Z.of_nat (attempt + remaining) = max_retries self ->
  (forall i, (i < remaining)%nat -> exists x, nth_run step i (env w) = Raise x) ->
  exists x w',
    nth_run step (remaining - 1) (env w) = Raise x
    /\ attempts_from self step index attempt remaining w
       = (Return (failed step index (attempt + remaining - 1) x), w')
    /\ healthy w' /\ history w' = history w
    /\ env w' = env_after_runs step remaining (env w)
    /\ log w' = log w ++ attempt_events step index attempt remaining
    /\ persisted "last_success_step" w' = persisted "last_success_step" w.
Proof.
  induction remaining as [|remaining IH]; intros attempt w Hw Hpos Hm Hall; [lia|].
  rewrite attempts_from_S_healthy by assumption.
  set (fields := stamp (attempt_fields step index attempt)).
  set (w2 := set_env _ (record (run_called index) (written fields w))).
  assert (Hl2 : log w2 = log w ++ [set_called fields true; run_called index]).
  { subst w2. simpl. rewrite <- app_assoc. reflexivity. }
  assert (Hp2 : persisted "last_success_step" w2
                = persisted "last_success_step" w).
  { subst w2. rewrite persisted_set_env, persisted_record, persisted_written.
    reflexivity. }
  destruct (Hall 0%nat ltac:(lia)) as [x0 Hx0].
  unfold nth_run in Hx0. simpl in Hx0. rewrite Hx0.
  destruct remaining as [|remaining].
  - rewrite decide_True by lia.
    exists x0, w2. replace (attempt + 1 - 1)%nat with attempt by lia.
    split_and!; try reflexivity; assumption.
  - rewrite decide_False by lia.
    destruct (IH (S attempt) w2) as (x & w' & Hx & Hrun & Hh & Hhist & He & Hlog & Hp).
    + exact Hw.
    + lia.
    + lia.
    + intros i Hi. apply (Hall (S i)). lia.
    + exists x, w'.
      replace (attempt + S (S remaining) - 1)%nat
        with (S attempt + S remaining - 1)%nat by lia.
      split_and!; try assumption.
      * replace (S (S remaining) - 1)%nat with (S (S remaining - 1)) by lia.
        exact Hx.
      * rewrite Hlog, Hl2, <- app_assoc. reflexivity.
      * congruence.
Qed.

(** [k] attempts that raise, none of them the last one allowed, and then
    one that returns. *)
Lemma retry_succeeds self step index p : forall k attempt remaining w,
  healthy w ->
  (k < remaining)%nat ->
  Z.of_nat (attempt + remaining) = max_retries self ->
  (forall i, (i < k)%nat -> exists x, nth_run step i (env w) = Raise x) ->
  nth_run step k (env w) = Return p ->
  exists w',
    attempts_from self step index attempt remaining w
      = (Return (succeeded step index (attempt + k) p), w')
    /\ healthy w' /\ history w' = history w
    /\ env w' = env_after_runs step (S k) (env w)
    /\ log w' = log w ++ attempt_events step index attempt (S k)
                      ++ [checkpoint_event index]
    /\ persisted "last_success_step" w' = Some (VInt (Z.of_nat index)).
Proof.
  induction k as [|k IH]; intros attempt remaining w Hw Hk Hm Hall Hp;
    (destruct remaining as [|remaining]; [lia|]);
    rewrite attempts_from_S_healthy by assumption;
    set (fields := stamp (attempt_fields step index attempt));
    set (w2 := set_env _ (record (run_called index) (written fields w)));
    assert (Hl2 : log w2 = log w ++ [set_called fields true; run_called index])
      by (subst w2; simpl; rewrite <- app_assoc; reflexivity).
  - unfold nth_run in Hp. simpl in Hp. rewrite Hp.
    eexists. replace (attempt + 0)%nat with attempt by lia.
    split_and!; try reflexivity; try assumption.
    + change (log (written ?d w2)) with (log w2 ++ [set_called d true]).
      rewrite Hl2, <- app_assoc. reflexivity.
    + rewrite persisted_written. reflexivity.
  - destruct (Hall 0%nat ltac:(lia)) as [x0 Hx0].
    unfold nth_run in Hx0. simpl in Hx0. rewrite Hx0.
    rewrite decide_False by lia.
    destruct (IH (S attempt) remaining w2) as (w' & Hrun & Hh & Hhist & He & Hlog & Hpers).
    + exact Hw.
    + lia.
    + lia.
    + intros i Hi. apply (Hall (S i)). lia.
    + exact Hp.
    + exists w'. replace (attempt + S k)%nat with (S attempt + k)%nat by lia.
      split_and!; try assumption.
      rewrite Hlog, Hl2, <- app_assoc. reflexivity.
Qed.



(** ** Compensations *)

Lemma rev_seq_S k : rev (seq 0 (S k)) = k :: rev (seq 0 k).
Proof. rewrite seq_S, rev_app_distr. reflexivity. Qed.

Lemma rev_seq_from j k :
  (j <= k)%nat -> rev (seq j (S k - j)) = k :: rev (seq j (k - j)).
Proof.
  intros Hj. replace (S k - j)%nat with (S (k - j)) by lia.
  rewrite seq_S, rev_app_distr. simpl. f_equal. lia.
Qed.

Lemma replay_app self evs1 evs2 (e : Env) :
  replay self (evs1 ++ evs2) e = replay self evs2 (replay self evs1 e).
Proof. apply fold_left_app. Qed.

Lemma replay_compensate_called self k step evs (e : Env) :
  steps self !! k = Some step ->
  replay self (compensate_called k :: evs) e
  = replay self evs (snd (compensate step e)).
Proof. intros H. unfold replay. simpl. rewrite H. reflexivity. Qed.

(** The sweep calls [compensate()] on the steps below [k], highest index
    first, and never touches the store.  An [Exception] raised by a call is
    swallowed; the sweep ends before index 0 only when a call raises
    something that is not an [Exception], which the sweep raises in turn. *)
Lemma _run_compensations_sweep self : forall k w,
  (k <= length (steps self))%nat ->
  (exists w',
    _run_compensations self k w = (Return tt, w')
    /\ log w' = log w ++ map compensate_called (rev (seq 0 k))
    /\ doc w' = doc w /\ history w' = history w /\ faults w' = faults w
    /\ env w' = replay self (map compensate_called (rev (seq 0 k))) (env w))
  \/ (exists b w' j step,
    _run_compensations self k w = (Raise_base b, w')
    /\ (j < k)%nat
    /\ log w' = log w ++ map compensate_called (rev (seq j (k - j)))
    /\ doc w' = doc w /\ history w' = history w /\ faults w' = faults w
    /\ env w' = replay self (map compensate_called (rev (seq j (k - j)))) (env w)
    /\ steps self !! j = Some step
    /\ fst (compensate step
              (replay self
                 (map compensate_called (rev (seq (S j) (k - S j)))) (env w)))
       = Raise_base b).
Proof.
  induction k as [|k IH]; intros w Hk.
  - left. exists w. simpl. rewrite app_nil_r. split_and!; reflexivity.
  - cbn [_run_compensations].
    destruct (lookup_lt_is_Some_2 (steps self) k ltac:(lia)) as [step Hstep].
    rewrite Hstep.
    unfold bind, try_except. rewrite await_compensate_eq.
    set (w1 := set_env _ (record (compensate_called k) w)).
    assert (Hl1 : log w1 = log w ++ [compensate_called k]) by reflexivity.
    assert (He1 : env w1 = snd (compensate step (env w))) by reflexivity.
    assert (Hk' : (k <= length (steps self))%nat) by lia.
    destruct (fst (compensate step (env w))) as [[]|e|b] eqn:Hc.
    3:{ right. exists b, w1, k, step. replace (S k - k)%nat with 1%nat by lia.
        replace (S k - S k)%nat with 0%nat by lia. simpl seq. simpl rev.
        simpl map at 1 2.
        split_and!; try reflexivity; try assumption; [lia|].
        rewrite He1, (replay_compensate_called _ _ step) by exact Hstep.
        reflexivity. }
    all: destruct (IH w1 Hk')
        as [(w' & Hrun & Hlog & Hdoc & Hhist & Hf & He)
           |(b & w' & j & stepj & Hrun & Hj & Hlog & Hdoc & Hhist & Hf & He & Hsj & Hb)].
    all: try (left; exists w'; rewrite rev_seq_S; simpl map;
              split_and!;
                [exact Hrun
                |rewrite Hlog, Hl1, <- app_assoc; reflexivity
                |rewrite Hdoc; reflexivity
                |rewrite Hhist; reflexivity
                |rewrite Hf; reflexivity
                |rewrite He, He1; symmetry;
                 apply replay_compensate_called, Hstep]).
    all: right; exists b, w', j, stepj;
      rewrite (rev_seq_from j k) by lia;
      change (S k - S j)%nat with (k - j)%nat;
      assert (Hrev : rev (seq (S j) (k - j)) = k :: rev (seq (S j) (k - S j)))
        by (replace (k - j)%nat with (S (k - S j)) by lia;
            rewrite seq_S, rev_app_distr; simpl; f_equal; lia);
      rewrite Hrev; simpl map;
      (split_and!;
        [exact Hrun
        |lia
        |rewrite Hlog, Hl1, <- app_assoc; reflexivity
        |rewrite Hdoc; reflexivity
        |rewrite Hhist; reflexivity
        |rewrite Hf; reflexivity
        |rewrite He, He1; symmetry; apply replay_compensate_called, Hstep
        |exact Hsj
        |]).
    all: erewrite replay_compensate_called by exact Hstep;
      rewrite <- He1; exact Hb.
Qed.


Lemma compensations_in_map_compensate_called (l : list nat) :
  compensations_in (map (@compensate_called Payload) l) = l.
Proof.
  induction l as [|i l IH]; [reflexivity|].
  change (i :: compensations_in (map (@compensate_called Payload) l) = i :: l).
  rewrite IH. reflexivity.
Qed.

Lemma runs_in_map_compensate_called (l : list nat) :
  runs_in (map (@compensate_called Payload) l) = [].
Proof. induction l as [|i l IH]; simpl; [reflexivity|]. exact IH. Qed.

(** ** Calls made whatever the store does *)

Lemma update_state_any data w :
  exists out w',
    update_state data w = (out, w')
    /\ log w' = log w ++ [set_called (stamp data) true]
    /\ env w' = env w /\ history w' = history w.
Proof.
  unfold_repo. destruct w as [en d h f l]; simpl.
  destruct f as [|[x|] rest]; simpl; eauto 10.
Qed.

Lemma save_execution_to_history_any (er : @ExecutionResult Payload) w :
  exists w',
    save_execution_to_history er w = (Return (stamped er), w')
    /\ log w' = log w ++ [add_called (stamped er)]
    /\ env w' = env w /\ doc w' = doc w.
Proof.
  unfold_repo. destruct w as [en d h f l]; simpl.
  destruct f as [|[x|] rest]; simpl; eauto 10.
Qed.

Lemma update_state_cases data w :
  update_state data w
  = (Return tt, set_faults (tail (faults w)) (written (stamp data) w))
  \/ exists e,
       update_state data w
       = (Raise e,
          set_faults (tail (faults w))
            (record (set_called (stamp data) true) w)).
Proof.
  unfold_repo. destruct w as [en d h f l]; simpl.
  destruct f as [|[x|] rest]; simpl; eauto.
Qed.

Lemma save_execution_to_history_cases (r : @ExecutionResult Payload) w :
  exists w',
    save_execution_to_history r w = (Return (stamped r), w')
    /\ log w' = log w ++ [add_called (stamped r)]
    /\ doc w' = doc w
    /\ (history w' = history w \/ history w' = history w ++ [stamped r]).
Proof.
  unfold_repo. destruct w as [en d h f l]; simpl.
  destruct f as [|[x|] f]; simpl; eauto 10.
Qed.

Lemma persisted_set_faults key f w :
  persisted key (set_faults f w) = persisted key w.
Proof. reflexivity. Qed.

Lemma persisted_written_other key data w :
  data !! key = None -> persisted key (written data w) = persisted key w.
Proof. intros H. rewrite persisted_written, H. reflexivity. Qed.

Lemma attempt_fields_other step index attempt key :
  key ∉ attempt_keys ->
  stamp (attempt_fields step index attempt) !! key = None.
Proof.
  unfold attempt_keys, stamp, attempt_fields. intros Hkey.
  rewrite !lookup_insert_ne
    by (intros <-; apply Hkey; rewrite !elem_of_cons; tauto).
  apply lookup_empty.
Qed.

Lemma checkpoint_fields_other index key :
  key ∉ attempt_keys ->
  stamp (<["last_success_step" := VInt (Z.of_nat index)]> ∅) !! key = None.
Proof.
  unfold attempt_keys, stamp. intros Hkey.
  rewrite !lookup_insert_ne
    by (intros <-; apply Hkey; rewrite !elem_of_cons; tauto).
  apply lookup_empty.
Qed.

Lemma attempts_from_S self step index attempt remaining :
  attempts_from self step index attempt (S remaining)
  = try_except
      (bind (update_state (attempt_fields step index attempt)) (fun _ =>
       bind (await_run step index) (fun result =>
       bind (update_state (<["last_success_step" := VInt (Z.of_nat index)]> ∅))
         (fun _ => ret (succeeded step index attempt result)))))
      (fun e =>
         if decide (Z.of_nat attempt = max_retries self - 1)
         then ret (failed step index attempt e)
         else attempts_from self step index (S attempt) remaining).
Proof. reflexivity. Qed.

(** The retry loop under any behaviour of the store and of the step: it
    returns a result for its step or lets through what [run()] raised that
    is not an [Exception]; it never raises an [Exception] itself. *)
Lemma attempts_from_trace self step index : forall remaining attempt w,
  exists out w' evs,
    attempts_from self step index attempt remaining w = (out, w')
    /\ retry_result step index attempt remaining w out w' evs.
Proof.
  induction remaining as [|remaining IH]; intros attempt w.
  - exists (Return (retries_exceeded step index)), w, [].
    unfold retry_result, retry_outcome.
    rewrite app_nil_r.
    split_and!; try reflexivity; try (simpl; lia); [constructor|].
    right. split_and!; try reflexivity. eauto.
  - cbn [attempts_from]. unfold try_except, bind at 1.
    assert (Hhandler : forall e evs0 w0,
      log w0 = log w ++ evs0 -> history w0 = history w ->
      Forall (eq index) (runs_in evs0) -> compensations_in evs0 = [] ->
      (length (runs_in evs0) <= 1)%nat ->
      (forall key, key ∉ attempt_keys -> persisted key w0 = persisted key w) ->
      persisted "last_success_step" w0 = persisted "last_success_step" w ->
      exists out w' evs,
        (if decide (Z.of_nat attempt = max_retries self - 1)
         then ret (failed step index attempt e)
         else attempts_from self step index (S attempt) remaining) w0
          = (out, w')
        /\ retry_result step index attempt (S remaining) w out w' evs).
    { intros e evs0 w0 Hl0 Hh0 Hf0 Hc0 Hr0 Hk0 Hp0. destruct (decide _).
      - exists (Return (failed step index attempt e)), w0, evs0.
        unfold retry_result, retry_outcome.
        split_and!; try assumption; try reflexivity; try lia.
        right. split_and!; try reflexivity; [assumption|]. eauto.
      - destruct (IH (S attempt) w0) as (out & w' & evs & -> & Hres).
        exists out, w', (evs0 ++ evs). split; [reflexivity|].
        destruct out as [sr|e'|b]; [|contradiction|].
        + destruct Hres as (Hl & Hh & Hn & Hi & Hf & Hc & Hr & Hk & Hcase).
          unfold retry_result, retry_outcome.
          split_and!; try reflexivity; try assumption.
          * rewrite Hl, Hl0, <- app_assoc. reflexivity.
          * congruence.
          * rewrite runs_in_app. apply Forall_app. split; assumption.
          * rewrite compensations_in_app, Hc0, Hc. reflexivity.
          * rewrite runs_in_app, length_app. lia.
          * intros key Hkey. rewrite (Hk key Hkey). apply Hk0, Hkey.
          * destruct Hcase as [(Hs & Hp & a & p & Ha & Hres & Herr & Hrange)
                              |(Hs & Hres & Hp & Hmsg)]; [left|right].
            -- split_and!; try assumption. exists a, p.
               split_and!; try assumption; lia.
            -- split_and!; try assumption. congruence.
        + destruct Hres as (Hl & Hh & Hf & Hc & Hr & Hk & Hp).
          unfold retry_result, retry_aborted.
          split_and!.
          * rewrite Hl, Hl0, <- app_assoc. reflexivity.
          * congruence.
          * rewrite runs_in_app. apply Forall_app. split; assumption.
          * rewrite compensations_in_app, Hc0, Hc. reflexivity.
          * rewrite runs_in_app, length_app. lia.
          * intros key Hkey. rewrite (Hk key Hkey). apply Hk0, Hkey.
          * congruence. }
    destruct (update_state_cases (attempt_fields step index attempt) w)
      as [->|[e1 ->]].
    2:{ eapply (Hhandler e1);
          [simpl; reflexivity|reflexivity|constructor|reflexivity|simpl; lia
          | |reflexivity].
        intros key Hkey. reflexivity. }
    set (w1 := set_faults _ (written _ w)).
    assert (Hk1 : forall key, key ∉ attempt_keys ->
                    persisted key w1 = persisted key w).
    { intros key Hkey. subst w1.
      rewrite persisted_set_faults, persisted_written_other; [reflexivity|].
      apply attempt_fields_other, Hkey. }
    unfold bind at 1. rewrite await_run_eq.
    set (w2 := set_env _ (record (run_called index) w1)).
    assert (Hl2 : log w2 = log w
              ++ [set_called (stamp (attempt_fields step index attempt)) true;
                  run_called index]).
    { subst w2 w1. simpl. rewrite <- app_assoc. reflexivity. }
    assert (Hk2 : forall key, key ∉ attempt_keys ->
                    persisted key w2 = persisted key w) by exact Hk1.
    assert (Hh2 : history w2 = history w) by reflexivity.
    assert (Hp2 : persisted "last_success_step" w2
                  = persisted "last_success_step" w).
    { subst w2 w1. rewrite persisted_set_env, persisted_record,
        persisted_set_faults, persisted_written. reflexivity. }
    destruct (fst (run step (env w1))) as [result|e2|b]; clearbody w2.
    2:{ eapply (Hhandler e2);
          [exact Hl2|exact Hh2|repeat constructor|reflexivity|simpl; lia
          |exact Hk2|exact Hp2]. }
    2:{ eexists (Raise_base b), w2, _. split; [reflexivity|].
        unfold retry_result, retry_aborted.
        split_and!;
          [exact Hl2|exact Hh2|repeat constructor|reflexivity|simpl; lia
          |exact Hk2|exact Hp2]. }
    unfold bind at 1.
    destruct (update_state_cases
                (<["last_success_step" := VInt (Z.of_nat index)]> ∅) w2)
      as [->|[e3 ->]].
    2:{ eapply (Hhandler e3).
        - simpl. rewrite Hl2, <- app_assoc. reflexivity.
        - exact Hh2.
        - repeat constructor.
        - reflexivity.
        - simpl. lia.
        - exact Hk2.
        - exact Hp2. }
    eexists (Return _), _, _. split; [reflexivity|].
    unfold retry_result, retry_outcome.
    split_and!.
    + simpl. rewrite Hl2, <- app_assoc. reflexivity.
    + exact Hh2.
    + reflexivity.
    + reflexivity.
    + repeat constructor.
    + reflexivity.
    + simpl. lia.
    + intros key Hkey.
      rewrite persisted_set_faults, persisted_written_other
        by (apply checkpoint_fields_other, Hkey).
      apply Hk2, Hkey.
    + left. split_and!; [reflexivity| |].
      * rewrite persisted_set_faults, persisted_written. reflexivity.
      * exists (attempt + 1)%nat, result.
        split_and!; try reflexivity; lia.
Qed.

Lemma failures_in_app evs1 evs2 :
  failures_in (evs1 ++ evs2) = failures_in evs1 ++ failures_in evs2.
Proof. apply omap_app. Qed.

Lemma climb_cons_none c ev evs :
  checkpoint_written ev = None -> climb c (ev :: evs) = climb c evs.
Proof. intros H. simpl. rewrite H. reflexivity. Qed.

Lemma climb_cons_some c z ev evs :
  checkpoint_written ev = Some z -> c <= z ->
  climb c (ev :: evs) = climb z evs.
Proof. intros H Hle. simpl. rewrite H, decide_True by assumption. reflexivity. Qed.

Lemma env_after_runs_add step n m (e : Env) :
  env_after_runs step (n + m) e
  = env_after_runs step m (env_after_runs step n e).
Proof.
  revert e. induction n as [|n IHn]; intros e; [reflexivity|]. simpl. apply IHn.
Qed.

(** What the calls of the retry loop do to the environment and to the
    checkpoint: [run()] of the step is all that acts on the environment, and
    the only checkpoint written, or tried, is the step's index. *)
Lemma attempts_from_calls self step index : forall remaining attempt w out w',
  attempts_from self step index attempt remaining w = (out, w') ->
  exists evs,
    log w' = log w ++ evs
    /\ failures_in evs = []
    /\ env w' = env_after_runs step (length (runs_in evs)) (env w)
    /\ (forall b, out = Raise_base b ->
          exists n, length (runs_in evs) = S n
                    /\ nth_run step n (env w) = Raise_base b)
    /\ (forall c, c <= Z.of_nat index ->
          exists c', climb c evs = Some c' /\ c <= c' <= Z.of_nat index
            /\ (persisted "last_success_step" w'
                = persisted "last_success_step" w
                \/ (persisted "last_success_step" w'
                    = Some (VInt (Z.of_nat index))
                    /\ c' = Z.of_nat index))).
Proof.
  induction remaining as [|remaining IH]; intros attempt w out w'.
  - intros [= <- <-]. exists []. rewrite app_nil_r.
    split_and!; try reflexivity; [discriminate|].
    intros c Hc. exists c. split_and!; try reflexivity; try lia. auto.
  - rewrite attempts_from_S. unfold try_except, bind at 1.
    set (fields := stamp (attempt_fields step index attempt)).
    set (cp := stamp (<["last_success_step" := VInt (Z.of_nat index)]> ∅)).
    assert (Hfields : checkpoint_written (@set_called Payload fields true) = None)
      by reflexivity.
    assert (Hcp : checkpoint_written (@set_called Payload cp true)
                  = Some (Z.of_nat index)) by reflexivity.
    assert (Hhandler : forall e evs0 w0 n0 (c0 : bool),
      log w0 = log w ++ evs0 -> failures_in evs0 = [] ->
      length (runs_in evs0) = n0 ->
      env w0 = env_after_runs step n0 (env w) ->
      persisted "last_success_step" w0 = persisted "last_success_step" w ->
      (forall c, c <= Z.of_nat index ->
         climb c evs0 = Some (if c0 then Z.of_nat index else c)) ->
      (if decide (Z.of_nat attempt = max_retries self - 1)
       then ret (failed step index attempt e)
       else attempts_from self step index (S attempt) remaining) w0
        = (out, w') ->
      exists evs,
        log w' = log w ++ evs
        /\ failures_in evs = []
        /\ env w' = env_after_runs step (length (runs_in evs)) (env w)
        /\ (forall b, out = Raise_base b ->
              exists n, length (runs_in evs) = S n
                        /\ nth_run step n (env w) = Raise_base b)
        /\ (forall c, c <= Z.of_nat index ->
              exists c', climb c evs = Some c' /\ c <= c' <= Z.of_nat index
                /\ (persisted "last_success_step" w'
                    = persisted "last_success_step" w
                    \/ (persisted "last_success_step" w'
                        = Some (VInt (Z.of_nat index))
                        /\ c' = Z.of_nat index)))).
    { intros e evs0 w0 n0 c0 Hl0 Hf0 Hn0 He0 Hp0 Hc0. destruct (decide _).
      - intros [= <- <-]. exists evs0. rewrite Hn0.
        split_and!; try assumption; [discriminate|].
        intros c Hc. eexists. split; [apply Hc0, Hc|].
        split; [destruct c0; lia|]. left. exact Hp0.
      - intros Hrest.
        destruct (IH _ _ _ _ Hrest) as (evs & Hl & Hf & He & Hb & Hc).
        exists (evs0 ++ evs). split_and!.
        + rewrite Hl, Hl0, <- app_assoc. reflexivity.
        + rewrite failures_in_app, Hf0, Hf. reflexivity.
        + rewrite runs_in_app, length_app, Hn0, He, He0.
          symmetry. apply env_after_runs_add.
        + intros b Hout. destruct (Hb b Hout) as (n1 & Hn1 & Hrun).
          exists (n0 + n1)%nat. split.
          * rewrite runs_in_app, length_app, Hn0, Hn1. lia.
          * rewrite <- Hrun, He0. unfold nth_run.
            rewrite env_after_runs_add. reflexivity.
        + intros c Hle. rewrite climb_app, (Hc0 c Hle). cbn [mbind option_bind].
          destruct (Hc (if c0 then Z.of_nat index else c))
            as (c' & Hclimb & Hrange & Hpers); [destruct c0; lia|].
          exists c'. split; [exact Hclimb|]. split; [destruct c0; lia|].
          rewrite <- Hp0. exact Hpers. }
    destruct (update_state_cases (attempt_fields step index attempt) w)
      as [->|[e1 ->]].
    2:{ apply (Hhandler e1 [set_called fields true] _ 0%nat false);
          reflexivity. }
    unfold bind at 1. rewrite await_run_eq.
    set (w1 := set_faults _ (written _ w)).
    set (w2 := set_env _ (record (run_called index) w1)).
    assert (Hl2 : log w2 = log w ++ [set_called fields true; run_called index]).
    { subst w2 w1. simpl. rewrite <- app_assoc. reflexivity. }
    assert (He2 : env w2 = env_after_runs step 1 (env w)) by reflexivity.
    assert (Hp2 : persisted "last_success_step" w2
                  = persisted "last_success_step" w).
    { subst w2 w1. rewrite persisted_set_env, persisted_record,
        persisted_set_faults, persisted_written. reflexivity. }
    assert (Hrun : fst (run step (env w1)) = nth_run step 0 (env w))
      by reflexivity.
    destruct (fst (run step (env w1))) as [result|e2|b]; clearbody w2.
    2:{ apply (Hhandler e2 _ _ 1%nat false Hl2); try reflexivity; try assumption;
          try (intros c _; rewrite (climb_cons_none _ _ _ Hfields); reflexivity). }
    2:{ intros [= <- <-]. exists [set_called fields true; run_called index].
        split_and!; try reflexivity; try assumption.
        - intros b' [= <-]. exists 0%nat. split; [reflexivity|]. symmetry.
          exact Hrun.
        - intros c Hc. exists c. rewrite (climb_cons_none _ _ _ Hfields).
          split_and!; try reflexivity; try lia. left. exact Hp2. }
    unfold bind at 1.
    destruct (update_state_cases
                (<["last_success_step" := VInt (Z.of_nat index)]> ∅) w2)
      as [->|[e3 ->]].
    2:{ apply (Hhandler e3 [set_called fields true; run_called index;
                            set_called cp true] _ 1%nat true);
          try reflexivity; try assumption.
        - simpl. rewrite Hl2, <- app_assoc. reflexivity.
        - intros c Hc. rewrite (climb_cons_none _ _ _ Hfields).
          rewrite climb_cons_none by reflexivity.
          rewrite (climb_cons_some _ _ _ _ Hcp Hc). reflexivity. }
    intros [= <- <-].
    exists [set_called fields true; run_called index; set_called cp true].
    split_and!; try reflexivity; try assumption.
    + simpl. rewrite Hl2, <- app_assoc. reflexivity.
    + discriminate.
    + intros c Hc. exists (Z.of_nat index).
      rewrite (climb_cons_none _ _ _ Hfields).
      rewrite climb_cons_none by reflexivity.
      rewrite (climb_cons_some _ _ _ _ Hcp Hc).
      split_and!; try reflexivity; try lia.
      right. split; [|reflexivity].
      rewrite persisted_set_faults, persisted_written. reflexivity.
Qed.

(** ** The step loop, whatever the store does *)

Lemma steps_executed_append_step (er : @ExecutionResult Payload) sr srs0 :
  steps_executed er = Some srs0 ->
  steps_executed (append_step er sr) = Some (srs0 ++ [sr]).
Proof. intros H. simpl. rewrite H. reflexivity. Qed.

Lemma drop_cons_inv {A : Type} (l : list A) (n : nat) (x : A) (r : list A) :
  drop n l = x :: r ->
  l !! n = Some x /\ drop (S n) l = r /\ (n < length l)%nat.
Proof.
  intros H. assert (Hx : l !! n = Some x).
  { rewrite <- (Nat.add_0_r n), <- lookup_drop, H. reflexivity. }
  split_and!; [exact Hx| |eapply lookup_lt_Some, Hx].
  rewrite <- Nat.add_1_r, <- drop_drop, H. reflexivity.
Qed.

Lemma runs_in_sweep evs1 nm k err (l : list nat) evs2 :
  runs_in (evs1 ++ step_failed_initiating_compensation nm k err
             :: map (@compensate_called Payload) l ++ evs2)
  = runs_in evs1 ++ runs_in evs2.
Proof.
  rewrite runs_in_app.
  change (runs_in (step_failed_initiating_compensation nm k err :: ?x))
    with (runs_in x).
  rewrite runs_in_app, runs_in_map_compensate_called. reflexivity.
Qed.

Lemma compensations_in_sweep evs1 nm k err (l : list nat) evs2 :
  compensations_in (evs1 ++ step_failed_initiating_compensation nm k err
                      :: map (@compensate_called Payload) l ++ evs2)
  = compensations_in evs1 ++ l ++ compensations_in evs2.
Proof.
  rewrite compensations_in_app.
  change (compensations_in (step_failed_initiating_compensation nm k err :: ?x))
    with (compensations_in x).
  rewrite compensations_in_app, compensations_in_map_compensate_called.
  reflexivity.
Qed.


Lemma replay_sweep self evs1 nm k err (l : list nat) evs2 (e : Env) :
  replay self (evs1 ++ step_failed_initiating_compensation nm k err
                 :: map compensate_called l ++ evs2) e
  = replay self evs2 (replay self (map compensate_called l) (replay self evs1 e)).
Proof.
  rewrite replay_app.
  change (replay self (step_failed_initiating_compensation nm k err :: ?x) ?y)
    with (replay self x y).
  apply replay_app.
Qed.

(** The calls of the retry loop replayed: [run()] of the step, as often as
    it was awaited. *)
Lemma replay_attempts self step index evs : forall e : Env,
  steps self !! index = Some step ->
  Forall (eq index) (runs_in evs) ->
  compensations_in evs = [] ->
  replay self evs e = env_after_runs step (length (runs_in evs)) e.
Proof.
  induction evs as [|ev evs IH]; intros e Hstep Hruns Hcomp; [reflexivity|].
  destruct ev as [i|i|data merge|entry|nm i err].
  - change (runs_in (run_called i :: evs)) with (i :: runs_in evs) in *.
    apply Forall_cons in Hruns. destruct Hruns as [<- Hruns].
    change (replay self (run_called index :: evs) e)
      with (replay self evs (replay_call self e (run_called index))).
    unfold replay_call. rewrite Hstep. simpl length.
    rewrite (IH _ Hstep Hruns Hcomp). reflexivity.
  - discriminate.
  - apply (IH e Hstep Hruns Hcomp).
  - apply (IH e Hstep Hruns Hcomp).
  - apply (IH e Hstep Hruns Hcomp).
Qed.

Lemma replay_no_calls self evs (e : Env) :
  runs_in evs = [] -> compensations_in evs = [] -> replay self evs e = e.
Proof.
  induction evs as [|ev evs IH]; intros Hr Hc; [reflexivity|].
  destruct ev; try discriminate; apply (IH Hr Hc).
Qed.

Lemma failed_state_status (error : value) (step_name now : string) :
  stamp (<["status" := VStr "FAILED"]>
        (<["error" := error]>
        (<["failed_step" := VStr step_name]>
        (<["completed_at" := VStr now]> ∅)))) !! "status"
  = Some (VStr "FAILED").
Proof. reflexivity. Qed.

Lemma for_each_step_any self lss : forall rest index er srs0 w,
  steps_executed er = Some srs0 ->
  drop index (steps self) = rest ->
  exists out w' evs,
    for_each_step self lss index rest er w = (out, w')
    /\ log w' = log w ++ evs
    /\ (forall s, lss = VInt s -> Forall (fun j => s < Z.of_nat j) (runs_in evs))
    /\ env w' = replay self evs (env w)
    /\ ((failures_in evs = [] /\ compensations_in evs = []
         /\ forall er', out <> Return (Returned er'))
        \/ exists k j nm err evs1 evs2,
             swept self k j nm err evs1 evs2 evs
             /\ (index <= k)%nat
             /\ (forall s, lss = VInt s -> s < Z.of_nat k)
             /\ match out with
                | Return (Returned er') =>
                    j = 0%nat /\ failed_step_index er' = Some k
                | Return (Fell_through _) => False
                | Raise _ =>
                    j = 0%nat
                    /\ exists data,
                         evs2 = [set_called data true]
                         /\ data !! "status" = Some (VStr "FAILED")
                | Raise_base b =>
                    (j < k)%nat /\ evs2 = []
                    /\ exists step,
                         steps self !! j = Some step
                         /\ fst (compensate step
                                   (replay self
                                      (evs1
                                       ++ step_failed_initiating_compensation
                                            nm k err
                                       :: map compensate_called
                                            (rev (seq (S j) (k - S j))))
                                      (env w)))
                            = Raise_base b
                end)
    /\ match out with
       | Raise _ | Raise_base _ => True
       | Return (Fell_through er') =>
           exists srs,
             steps_executed er' = Some (srs0 ++ srs)
             /\ er_status er' = er_status er
             /\ failed_step er' = failed_step er
             /\ failed_step_index er' = failed_step_index er
             /\ errors er' = errors er
             /\ length srs = length rest
             /\ Forall (fun sr => sr_status sr <> "FAILED") srs
             /\ compensations_in evs = []
             /\ skipped_recorded lss index rest srs
       | Return (Returned er') =>
           exists srs sr,
             steps_executed er' = Some (srs0 ++ srs ++ [sr])
             /\ er_status er' = "FAILED"
             /\ failed_step er' = Some (sr_step sr)
             /\ failed_step_index er' = Some (sr_index sr)
             /\ errors er' = errors er
             /\ Forall (fun sr => sr_status sr <> "FAILED") srs
             /\ sr_status sr = "FAILED"
             /\ (forall s, lss = VInt s -> s < Z.of_nat (sr_index sr))
             /\ compensations_in evs = rev (seq 0 (sr_index sr))
             /\ skipped_recorded lss index rest (srs ++ [sr])
       end.
Proof.
  induction rest as [|step rest IH]; intros index er srs0 w Hsrs0 Hdrop.
  - exists (Return (Fell_through er)), w, []. rewrite app_nil_r.
    split_and!; try reflexivity.
    + intros s _. constructor.
    + left. split_and!; try reflexivity. discriminate.
    + exists []. rewrite app_nil_r. split_and!; try reflexivity; try assumption.
      * constructor.
      * intros s j st _ Hj. rewrite lookup_nil in Hj. discriminate.
  - destruct (drop_cons_inv _ _ _ _ Hdrop) as (Hstep & Hdrop' & Hidx).
    cbn [for_each_step]. unfold bind at 1.
    destruct lss as [|z|?|];
      try (exists (Raise (Exception "'<=' not supported between instances of 'int' and a non-number")), w, [];
           rewrite app_nil_r;
           split_and!;
             [reflexivity|reflexivity|intros ? [=]|reflexivity
             |left; split_and!; try reflexivity; discriminate|exact I]).
    cbn [int_le ret].
    destruct (Z.leb_spec (Z.of_nat index) z) as [Hskip|Hrun].
    + (* skipped *)
      destruct (IH (S index) (append_step er (skipped step index))
                  (srs0 ++ [skipped step index]) w)
        as (out & w' & evs & Hrun & Hlog & Hruns & Henv & Hsw & Hout).
      { apply steps_executed_append_step, Hsrs0. }
      { exact Hdrop'. }
      exists out, w', evs. split_and!; try assumption.
      { destruct Hsw as [Hno|(k & j & nm & err & evs1 & evs2 & Hswept & Hk & Hs & Hm)];
          [left; exact Hno|right].
        exists k, j, nm, err, evs1, evs2. split_and!; try assumption. lia. }
      destruct out as [[er'|er']|e|b]; [| |exact I|exact I].
      * destruct Hout as (srs & H1 & H2 & H3 & H4 & H9 & H5 & H6 & H7 & H8).
        exists (skipped step index :: srs).
        split_and!; try assumption.
        -- rewrite H1, <- app_assoc. reflexivity.
        -- simpl. lia.
        -- constructor; [discriminate|assumption].
        -- intros s j st Hs Hj Hle. destruct j as [|j].
           ++ simpl in Hj. injection Hj as <-. rewrite Nat.add_0_r. reflexivity.
           ++ simpl in Hj. simpl.
              rewrite (H8 s j st Hs Hj) by lia. do 2 f_equal. lia.
      * destruct Hout as (srs & sr & H1 & H2 & H3 & H4 & H9 & H5 & H6 & H10 & H7 & H8).
        exists (skipped step index :: srs), sr.
        split_and!; try assumption.
        -- rewrite H1, <- app_assoc. reflexivity.
        -- constructor; [discriminate|assumption].
        -- intros s j st Hs Hj Hle. destruct j as [|j].
           ++ simpl in Hj. injection Hj as <-. rewrite Nat.add_0_r. reflexivity.
           ++ simpl in Hj. simpl.
              rewrite (H8 s j st Hs Hj) by lia. do 2 f_equal. lia.
    + (* attempted *)
      unfold bind at 1. unfold _execute_step_with_retry.
      destruct (attempts_from_trace self step index (Z.to_nat (max_retries self)) 0 w)
        as (out1 & w1 & evs1 & Hatt & Hres).
      destruct (attempts_from_calls self step index _ _ _ _ _ Hatt)
        as (evs1' & Hl1' & Hf1 & He1 & _).
      rewrite Hatt.
      assert (Hcalls : forall (Hl1 : log w1 = log w ++ evs1)
                (Hr1 : Forall (eq index) (runs_in evs1))
                (Hc1 : compensations_in evs1 = []),
                failures_in evs1 = []
                /\ env w1 = replay self evs1 (env w)
                /\ forall s, VInt z = VInt s ->
                     Forall (fun j => s < Z.of_nat j) (runs_in evs1)).
      { intros Hl1 Hr1 Hc1.
        assert (evs1' = evs1) as ->
          by (apply (app_inv_head (log w)); congruence).
        split_and!; [exact Hf1| |].
        - rewrite He1. symmetry. apply (replay_attempts self step index); assumption.
        - intros s [= <-]. eapply Forall_impl; [exact Hr1|].
          intros j <-. simpl. lia. }
      destruct out1 as [sr|e|b]; [|contradiction|].
      2:{ (* [run()] raised something that is not an [Exception] *)
          destruct Hres as (Hl1 & Hh1 & Hr1 & Hc1 & _).
          destruct (Hcalls Hl1 Hr1 Hc1) as (Hfl1 & Henv1 & Hruns1).
          exists (Raise_base b), w1, evs1.
          split_and!; try assumption; try reflexivity.
          left. split_and!; try assumption. discriminate. }
      destruct Hres as (Hl1 & Hh1 & Hn1 & Hi1 & Hr1 & Hc1 & _).
      destruct (Hcalls Hl1 Hr1 Hc1) as (Hfl1 & Henv1 & Hruns1).
      destruct (decide (sr_status sr = "FAILED")) as [Hfailed|Hok].
      * unfold bind at 1, logger_error_step_failed at 1.
        set (ev := step_failed_initiating_compensation (name step) index
                     (sr_error sr)).
        set (w1' := record ev w1).
        assert (Hswept : forall j evs2,
                  (j <= index)%nat -> runs_in evs2 = [] ->
                  compensations_in evs2 = [] -> failures_in evs2 = [] ->
                  swept self index j (name step) (sr_error sr) evs1 evs2
                    (evs1 ++ ev :: map compensate_called
                                     (rev (seq j (index - j))) ++ evs2)).
        { intros j evs2 Hj H1 H2 H3. unfold swept.
          split_and!; try assumption; try reflexivity; try lia. eauto. }
        assert (Hruns' : forall j evs2, runs_in evs2 = [] ->
                  forall s, VInt z = VInt s ->
                  Forall (fun i => s < Z.of_nat i)
                    (runs_in (evs1 ++ ev :: map compensate_called
                                (rev (seq j (index - j))) ++ evs2))).
        { intros j evs2 H2 s Hs. subst ev. rewrite runs_in_sweep, H2, app_nil_r.
          apply Hruns1, Hs. }
        unfold bind at 1.
        destruct (_run_compensations_sweep self index w1')
          as [(w2 & -> & Hl2 & Hd2 & Hh2 & Hf2 & He2)
             |(b & w2 & j & stepj & -> & Hj & Hl2 & Hd2 & Hh2 & Hf2 & He2
               & Hsj & Hb)]; [lia| |].
        -- unfold bind at 1, utcnow at 1. unfold bind at 1.
           set (d := <["status" := VStr "FAILED"]> _).
           assert (Hlog2 : log w2 = log w ++ evs1
                     ++ ev :: map compensate_called (rev (seq 0 (index - 0)))).
           { rewrite Hl2, Nat.sub_0_r. subst w1'. simpl. rewrite Hl1, <- !app_assoc.
             reflexivity. }
           assert (Henv2 : forall evs2, runs_in evs2 = [] ->
                     compensations_in evs2 = [] ->
                     env w2 = replay self
                       (evs1 ++ ev :: map compensate_called
                                        (rev (seq 0 (index - 0))) ++ evs2)
                       (env w)).
           { intros evs2 H1 H2. subst ev.
             rewrite replay_sweep, (replay_no_calls _ evs2) by assumption.
             rewrite He2, Nat.sub_0_r. subst w1'. simpl. rewrite Henv1.
             reflexivity. }
           destruct (update_state_cases d w2) as [->|[e3 ->]].
           ++ unfold bind at 1.
              set (w3 := set_faults _ (written (stamp d) w2)).
              set (r := mark_failed (append_step er sr) step index).
              destruct (save_execution_to_history_any r w3)
                as (w4 & -> & Hl4 & He4 & _).
              exists (Return (Returned (stamped r))), w4,
                (evs1 ++ ev :: map compensate_called (rev (seq 0 (index - 0)))
                      ++ [set_called (stamp d) true; add_called (stamped r)]).
              split_and!; [reflexivity| | | | |].
              ** rewrite Hl4. subst w3. simpl. rewrite Hlog2, <- !app_assoc.
                 reflexivity.
              ** apply Hruns'. reflexivity.
              ** rewrite He4. subst w3. simpl. apply Henv2; reflexivity.
              ** right. eexists index, 0%nat, (name step), (sr_error sr), evs1, _.
                 split_and!; [apply Hswept; try reflexivity; lia|lia
                             |intros s [= <-]; exact Hrun|reflexivity|reflexivity].
              ** exists [], sr. simpl.
                 rewrite Hsrs0. split_and!; try reflexivity; try assumption.
                 --- rewrite Hn1. reflexivity.
                 --- rewrite Hi1. reflexivity.
                 --- constructor.
                 --- intros s [= <-]. rewrite Hi1. exact Hrun.
                 --- subst ev. rewrite compensations_in_sweep, Hc1, Hi1,
                       Nat.sub_0_r. simpl.
                     rewrite app_nil_r. reflexivity.
                 --- intros s j st [= <-] Hj Hle. destruct j as [|j]; [lia|].
                     exfalso. lia.
           ++ eexists (Raise e3), _,
                (evs1 ++ ev :: map compensate_called (rev (seq 0 (index - 0)))
                      ++ [set_called (stamp d) true]).
              split_and!; [reflexivity| | | | |exact I].
              ** simpl. rewrite Hlog2, <- !app_assoc. reflexivity.
              ** apply Hruns'. reflexivity.
              ** simpl. apply Henv2; reflexivity.
              ** right. eexists index, 0%nat, (name step), (sr_error sr), evs1, _.
                 split_and!; [apply Hswept; try reflexivity; lia|lia
                             |intros s [= <-]; exact Hrun|reflexivity|].
                 eexists. split; [reflexivity|]. apply failed_state_status.
        -- exists (Raise_base b), w2,
             (evs1 ++ ev :: map compensate_called (rev (seq j (index - j))) ++ []).
           split_and!; [reflexivity| | | | |exact I].
           ++ rewrite Hl2. subst w1'. simpl. rewrite Hl1, app_nil_r, <- !app_assoc.
              reflexivity.
           ++ apply Hruns'. reflexivity.
           ++ subst ev. rewrite replay_sweep. simpl replay at 1.
              rewrite He2. subst w1'. simpl. rewrite Henv1. reflexivity.
           ++ right. exists index, j, (name step), (sr_error sr), evs1, [].
              split_and!; [apply Hswept; try reflexivity; lia|lia
                          |intros s [= <-]; exact Hrun|exact Hj|reflexivity|].
              exists stepj. split; [exact Hsj|].
              rewrite replay_app.
              change (replay self (ev :: ?x) ?y) with (replay self x y).
              rewrite <- Henv1. exact Hb.
      * destruct (IH (S index) (append_step er sr) (srs0 ++ [sr]) w1)
          as (out & w' & evs & Hrun' & Hlog & Hruns & Henv & Hsw & Hout).
        { apply steps_executed_append_step, Hsrs0. }
        { exact Hdrop'. }
        exists out, w', (evs1 ++ evs). split_and!.
        -- exact Hrun'.
        -- rewrite Hlog, Hl1, <- app_assoc. reflexivity.
        -- intros s Hs. rewrite runs_in_app. apply Forall_app. split; auto.
        -- rewrite replay_app, <- Henv1. exact Henv.
        -- destruct Hsw as [(Hno1 & Hno2 & Hno3)
                           |(k & j & nm & err & evs1'' & evs2 & Hswept & Hk & Hs & Hm)].
           ++ left. split_and!; try assumption.
              ** rewrite failures_in_app, Hfl1, Hno1. reflexivity.
              ** rewrite compensations_in_app, Hc1, Hno2. reflexivity.
           ++ right. exists k, j, nm, err, (evs1 ++ evs1''), evs2.
              destruct Hswept as (-> & S1 & S2 & S3 & S4 & S5 & S6 & S7).
              split_and!; try assumption; try lia.
              ** unfold swept. split_and!; try assumption; try lia;
                   [rewrite <- app_assoc; reflexivity
                   |rewrite failures_in_app, Hfl1, S1; reflexivity
                   |rewrite compensations_in_app, Hc1, S2; reflexivity].
              ** destruct out as [[er'|er']|e|b]; try assumption.
                 destruct Hm as (Hjk & He2 & stepj & Hsj & Hb).
                 split_and!; try assumption. exists stepj. split; [exact Hsj|].
                 rewrite <- app_assoc, replay_app, <- Henv1. exact Hb.
        -- destruct out as [[er'|er']|e|b]; [| |exact I|exact I].
           ++ destruct Hout as (srs & H1 & H2 & H3 & H4 & H9 & H5 & H6 & H7 & H8).
              exists (sr :: srs). split_and!; try assumption.
              ** rewrite H1, <- app_assoc. reflexivity.
              ** simpl. lia.
              ** constructor; assumption.
              ** rewrite compensations_in_app, Hc1, H7. reflexivity.
              ** intros s j st Hs Hj Hle. assert (z = s) by congruence.
                 destruct j as [|j]; [lia|]. simpl in Hj. simpl.
                 rewrite (H8 s j st Hs Hj) by lia. do 2 f_equal. lia.
           ++ destruct Hout as (srs & sr' & H1 & H2 & H3 & H4 & H9 & H5 & H6 & H10 & H7 & H8).
              exists (sr :: srs), sr'. split_and!; try assumption.
              ** rewrite H1, <- app_assoc. reflexivity.
              ** constructor; assumption.
              ** rewrite compensations_in_app, Hc1, H7. reflexivity.
              ** intros s j st Hs Hj Hle. assert (z = s) by congruence.
                 destruct j as [|j]; [lia|]. simpl in Hj. simpl.
                 rewrite (H8 s j st Hs Hj) by lia. do 2 f_equal. lia.
Qed.

(** ** [execute], whatever the store does *)

(** What a run of [execute] calls and returns, given the state read at its
    start. *)
Lemma execute_any self retry w state w0 :
  get_state w = (Return state, w0) ->
  let lss := default (VInt (-1)) (state !! "last_success_step") in
  exists out w' evs,
    execute self retry w = (out, w')
    /\ log w' = log w ++ evs
    /\ (forall s, lss = VInt s -> Forall (fun j => s < Z.of_nat j) (runs_in evs))
    /\ env w' = replay self evs (env w)
    /\ ((failures_in evs = [] /\ compensations_in evs = []
         /\ forall r, out = Return r -> failed_step_index r = None)
        \/ exists k j nm err evs1 evs2,
             swept self k j nm err evs1 evs2 evs
             /\ (forall s, lss = VInt s -> s < Z.of_nat k)
             /\ match out with
                | Return r => j = 0%nat /\ failed_step_index r = Some k
                | Raise _ =>
                    j = 0%nat
                    /\ exists data,
                         evs2 = [set_called data true]
                         /\ data !! "status" = Some (VStr "FAILED")
                | Raise_base b =>
                    (j < k)%nat /\ evs2 = []
                    /\ exists step,
                         steps self !! j = Some step
                         /\ fst (compensate step
                                   (replay self
                                      (evs1
                                       ++ step_failed_initiating_compensation
                                            nm k err
                                       :: map compensate_called
                                            (rev (seq (S j) (k - S j))))
                                      (env w)))
                            = Raise_base b
                end)
    /\ match out with
       | Raise _ | Raise_base _ => True
       | Return r =>
           (r = already_in_progress /\ evs = [] /\ retry = false)
           \/ (exists srs,
                 steps_executed r = Some srs
                 /\ er_status r = "SUCCESS"
                 /\ failed_step r = None
                 /\ failed_step_index r = None
                 /\ errors r = Some []
                 /\ length srs = length (steps self)
                 /\ Forall (fun sr => sr_status sr <> "FAILED") srs
                 /\ compensations_in evs = []
                 /\ skipped_recorded lss 0 (steps self) srs)
           \/ (exists srs sr,
                 steps_executed r = Some (srs ++ [sr])
                 /\ er_status r = "FAILED"
                 /\ failed_step r = Some (sr_step sr)
                 /\ failed_step_index r = Some (sr_index sr)
                 /\ errors r = Some []
                 /\ Forall (fun sr => sr_status sr <> "FAILED") srs
                 /\ sr_status sr = "FAILED"
                 /\ (forall s, lss = VInt s -> s < Z.of_nat (sr_index sr))
                 /\ compensations_in evs = rev (seq 0 (sr_index sr))
                 /\ skipped_recorded lss 0 (steps self) (srs ++ [sr]))
       end.
Proof.
  intros Hget lss.
  assert (Hw0 : log w0 = log w /\ env w0 = env w).
  { destruct (get_state_cases w) as (s0 & Hs0 & _). rewrite Hget in Hs0.
    injection Hs0 as _ ->. split; reflexivity. }
  destruct Hw0 as [Hl0 He0].
  unfold execute. unfold bind at 1. rewrite Hget.
  destruct (bool_decide _ && negb retry) eqn:Hguard.
  { exists (Return already_in_progress), w0, []. rewrite app_nil_r.
    split_and!; try reflexivity; try assumption.
    - intros s _. constructor.
    - left. split_and!; try reflexivity. intros r [= <-]. reflexivity.
    - left. split_and!; try reflexivity.
      destruct retry; [|reflexivity].
      rewrite andb_false_r in Hguard. discriminate. }
  fold lss. unfold bind at 1, utcnow at 1. unfold bind at 1.
  match goal with
  | |- context [update_state ?d w0] =>
      destruct (update_state_any d w0) as (out1 & w1 & -> & Hl1 & He1 & _);
      set (ev1 := set_called (stamp d) true) in *
  end.
  destruct out1 as [[]|e1|b1].
  2:{ exists (Raise e1), w1, [ev1]. split_and!; try reflexivity.
      - rewrite Hl1, Hl0. reflexivity.
      - intros s _. constructor.
      - rewrite He1, He0. reflexivity.
      - left. split_and!; try reflexivity. discriminate. }
  2:{ exists (Raise_base b1), w1, [ev1]. split_and!; try reflexivity.
      - rewrite Hl1, Hl0. reflexivity.
      - intros s _. constructor.
      - rewrite He1, He0. reflexivity.
      - left. split_and!; try reflexivity. discriminate. }
  assert (Henv1 : env w1 = env w) by (rewrite He1; exact He0).
  unfold bind at 1.
  destruct (for_each_step_any self lss (steps self) 0 new_execution_result [] w1
              eq_refl eq_refl)
    as (out2 & w2 & evs2 & -> & Hl2 & Hruns2 & Henv2 & Hsw2 & Hout2).
  rewrite Henv1 in Henv2.
  assert (Hsw : forall (out : outcome (@ExecutionResult Payload)),
            (forall k j nm err evs1 evs2',
               swept self k j nm err evs1 evs2' evs2 ->
               match out2 with
               | Return (Returned er') =>
                   j = 0%nat /\ failed_step_index er' = Some k
               | Return (Fell_through _) => False
               | Raise _ =>
                   j = 0%nat
                   /\ exists data,
                        evs2' = [set_called data true]
                        /\ data !! "status" = Some (VStr "FAILED")
               | Raise_base b =>
                   (j < k)%nat /\ evs2' = []
                   /\ exists step,
                        steps self !! j = Some step
                        /\ fst (compensate step
                                  (replay self
                                     (evs1
                                      ++ step_failed_initiating_compensation
                                           nm k err
                                      :: map compensate_called
                                           (rev (seq (S j) (k - S j))))
                                     (env w1)))
                           = Raise_base b
               end ->
               match out with
               | Return r => j = 0%nat /\ failed_step_index r = Some k
               | Raise _ =>
                   j = 0%nat
                   /\ exists data,
                        evs2' = [set_called data true]
                        /\ data !! "status" = Some (VStr "FAILED")
               | Raise_base b =>
                   (j < k)%nat /\ evs2' = []
                   /\ exists step,
                        steps self !! j = Some step
                        /\ fst (compensate step
                                  (replay self
                                     ((ev1 :: evs1)
                                      ++ step_failed_initiating_compensation
                                           nm k err
                                      :: map compensate_called
                                           (rev (seq (S j) (k - S j))))
                                     (env w)))
                           = Raise_base b
               end) ->
            (forall r, out = Return r ->
               (forall er', out2 <> Return (Returned er')) ->
               failed_step_index r = None) ->
            (failures_in ([ev1] ++ evs2) = []
             /\ compensations_in ([ev1] ++ evs2) = []
             /\ forall r, out = Return r -> failed_step_index r = None)
            \/ exists k j nm err evs1 evs2',
                 swept self k j nm err evs1 evs2' ([ev1] ++ evs2)
                 /\ (forall s, lss = VInt s -> s < Z.of_nat k)
                 /\ match out with
                    | Return r => j = 0%nat /\ failed_step_index r = Some k
                    | Raise _ =>
                        j = 0%nat
                        /\ exists data,
                             evs2' = [set_called data true]
                             /\ data !! "status" = Some (VStr "FAILED")
                    | Raise_base b =>
                        (j < k)%nat /\ evs2' = []
                        /\ exists step,
                             steps self !! j = Some step
                             /\ fst (compensate step
                                       (replay self
                                          (evs1
                                           ++ step_failed_initiating_compensation
                                                nm k err
                                           :: map compensate_called
                                                (rev (seq (S j) (k - S j))))
                                          (env w)))
                                = Raise_base b
                    end).
  { intros out Hmatch Hnone.
    destruct Hsw2 as [(Hno1 & Hno2 & Hno3)
                     |(k & j & nm & err & evs1 & evs2' & Hswept & _ & Hs & Hm)].
    - left. split_and!; try assumption.
      intros r Hr. apply (Hnone r Hr Hno3).
    - right. exists k, j, nm, err, (ev1 :: evs1), evs2'.
      pose proof (Hmatch k j nm err evs1 evs2' Hswept Hm) as Hm'.
      destruct Hswept as (-> & S1 & S2 & S3 & S4 & S5 & S6 & S7).
      split_and!; try assumption.
      unfold swept. split_and!; try assumption; try lia. reflexivity. }
  destruct out2 as [[er|er]|e2|b2].
  - (* the loop ran off its end *)
    destruct Hout2 as (srs & H1 & H2 & H3 & H4 & H9 & H5 & H6 & H7 & H8).
    destruct Hsw2 as [(Hno1 & Hno2 & _)|(k & j & nm & err & evs1 & evs2' & _ & _ & _ & [])].
    unfold bind at 1, utcnow at 1. unfold bind at 1.
    match goal with
    | |- context [update_state ?d w2] =>
        destruct (update_state_any d w2) as (out3 & w3 & -> & Hl3 & He3 & _);
        set (ev3 := set_called (stamp d) true) in *
    end.
    destruct out3 as [[]|e3|b3].
    + destruct (save_execution_to_history_any er w3) as (w4 & -> & Hl4 & He4 & _).
      exists (Return (stamped er)), w4, ([ev1] ++ evs2 ++ [ev3] ++ [add_called (stamped er)]).
      split_and!; try reflexivity.
      * rewrite Hl4, Hl3, Hl2, Hl1, Hl0, <- !app_assoc. reflexivity.
      * intros s Hs. rewrite !runs_in_app. simpl. rewrite app_nil_r.
        apply Hruns2, Hs.
      * rewrite He4, He3, Henv2, !replay_app. reflexivity.
      * left. split_and!.
        -- rewrite !failures_in_app, Hno1. reflexivity.
        -- rewrite !compensations_in_app, Hno2. reflexivity.
        -- intros r [= <-]. exact H4.
      * right. left. exists srs. simpl.
        split_and!; try assumption.
        rewrite compensations_in_app. simpl. rewrite H7. reflexivity.
    + exists (Raise e3), w3, ([ev1] ++ evs2 ++ [ev3]).
      split_and!; try reflexivity.
      * rewrite Hl3, Hl2, Hl1, Hl0, <- !app_assoc. reflexivity.
      * intros s Hs. rewrite !runs_in_app. simpl. rewrite app_nil_r.
        apply Hruns2, Hs.
      * rewrite He3, Henv2, !replay_app. reflexivity.
      * left. split_and!.
        -- rewrite !failures_in_app, Hno1. reflexivity.
        -- rewrite !compensations_in_app, Hno2. reflexivity.
        -- discriminate.
    + exists (Raise_base b3), w3, ([ev1] ++ evs2 ++ [ev3]).
      split_and!; try reflexivity.
      * rewrite Hl3, Hl2, Hl1, Hl0, <- !app_assoc. reflexivity.
      * intros s Hs. rewrite !runs_in_app. simpl. rewrite app_nil_r.
        apply Hruns2, Hs.
      * rewrite He3, Henv2, !replay_app. reflexivity.
      * left. split_and!.
        -- rewrite !failures_in_app, Hno1. reflexivity.
        -- rewrite !compensations_in_app, Hno2. reflexivity.
        -- discriminate.
  - (* a step failed *)
    destruct Hout2 as (srs & sr & H1 & H2 & H3 & H4 & H9 & H5 & H6 & H10 & H7 & H8).
    exists (Return er), w2, ([ev1] ++ evs2).
    split_and!; try reflexivity.
    + rewrite Hl2, Hl1, Hl0, <- !app_assoc. reflexivity.
    + intros s Hs. rewrite !runs_in_app. simpl. apply Hruns2, Hs.
    + rewrite Henv2, replay_app. reflexivity.
    + apply Hsw.
      * intros k j nm err evs1 evs2' _ Hm. exact Hm.
      * intros r [= <-] Hno. exfalso. apply (Hno er). reflexivity.
    + right. right. exists srs, sr. split_and!; try assumption.
  - exists (Raise e2), w2, ([ev1] ++ evs2).
    split_and!; try reflexivity.
    + rewrite Hl2, Hl1, Hl0, <- !app_assoc. reflexivity.
    + intros s Hs. rewrite !runs_in_app. simpl. apply Hruns2, Hs.
    + rewrite Henv2, replay_app. reflexivity.
    + apply Hsw.
      * intros k j nm err evs1 evs2' _ Hm. exact Hm.
      * discriminate.
  - exists (Raise_base b2), w2, ([ev1] ++ evs2).
    split_and!; try reflexivity.
    + rewrite Hl2, Hl1, Hl0, <- !app_assoc. reflexivity.
    + intros s Hs. rewrite !runs_in_app. simpl. apply Hruns2, Hs.
    + rewrite Henv2, replay_app. reflexivity.
    + apply Hsw.
      * intros k j nm err evs1 evs2' _ (Hj & He & stepj & Hsj & Hb).
        split_and!; try assumption. exists stepj. split; [exact Hsj|].
        rewrite Henv1 in Hb. exact Hb.
      * discriminate.
Qed.






(** ** The step loop against a store that answers *)

Lemma checkpoint_same w w' :
  persisted "last_success_step" w' = persisted "last_success_step" w ->
  checkpoint w' = checkpoint w.
Proof. unfold checkpoint. intros ->. reflexivity. Qed.

Lemma checkpoint_ok_same self w w' :
  persisted "last_success_step" w' = persisted "last_success_step" w ->
  checkpoint_ok self w -> checkpoint_ok self w'.
Proof. unfold checkpoint_ok. intros ->. exact id. Qed.

Lemma climb_map_compensate_called c (l : list nat) :
  climb c (map (@compensate_called Payload) l) = Some c.
Proof. induction l as [|i l IH]; [reflexivity|exact IH]. Qed.

Lemma climb_sweep c nm k err (l : list nat) evs :
  climb c (step_failed_initiating_compensation nm k err
             :: map (@compensate_called Payload) l ++ evs)
  = climb c evs.
Proof.
  rewrite climb_cons_none by reflexivity.
  rewrite climb_app, climb_map_compensate_called. reflexivity.
Qed.

Lemma healthy_set_faults_tail w :
  healthy w -> forall w0, faults w0 = faults w ->
  healthy (set_faults (tail (faults w)) w0).
Proof. unfold healthy. intros -> w0 _. reflexivity. Qed.

(** On a store that answers, the loop raises an [Exception] only for a
    checkpoint that is no number, and something else only if a step does. *)
Lemma for_each_step_healthy self lss : forall rest index er w out w',
  healthy w ->
  drop index (steps self) = rest ->
  for_each_step self lss index rest er w = (out, w') ->
  healthy w'
  /\ match out with
     | Return (Fell_through _) => history w' = history w
     | Return (Returned er') => history w' = history w ++ [er']
     | Raise _ => forall z, lss <> VInt z
     | Raise_base b =>
         exists step e,
           In step (steps self)
           /\ (fst (run step e) = Raise_base b
               \/ fst (compensate step e) = Raise_base b)
     end.
Proof.
  induction rest as [|step rest IH]; intros index er w out w' Hw Hdrop.
  - intros [= <- <-]. split; [assumption|reflexivity].
  - destruct (drop_cons_inv _ _ _ _ Hdrop) as (Hstep & Hdrop' & Hidx).
    assert (Hin : In step (steps self))
      by (apply list_elem_of_In; eapply list_elem_of_lookup_2, Hstep).
    cbn [for_each_step]. unfold bind at 1.
    destruct lss as [|z|?|];
      try (intros [= <- <-]; split; [assumption|intros z; discriminate]).
    cbn [int_le ret].
    destruct (Z.leb_spec (Z.of_nat index) z) as [Hskip|Hrun].
    + intros Hrest. eapply IH in Hrest; [exact Hrest|exact Hw|exact Hdrop'].
    + unfold bind at 1. unfold _execute_step_with_retry.
      destruct (attempts_from_healthy self step index (Z.to_nat (max_retries self)) 0 w Hw)
        as [(sr & w1 & evs1 & -> & Hh1 & Hhist1 & _)
           |(b & w1 & e & -> & Hh1 & Hhist1 & Hb)].
      2:{ intros [= <- <-]. split; [exact Hh1|]. exists step, e. auto. }
      destruct (decide (sr_status sr = "FAILED")) as [Hfailed|Hnot].
      * unfold bind at 1, logger_error_step_failed at 1.
        set (w1' := record _ w1).
        unfold bind at 1.
        destruct (_run_compensations_sweep self index w1')
          as [(w2 & -> & _ & _ & Hhist2 & Hf2 & _)
             |(b & w2 & j & stepj & -> & _ & _ & _ & _ & Hf2 & _ & Hsj & Hb)];
          [lia| |].
        -- assert (Hh2 : healthy w2) by (unfold healthy; rewrite Hf2; exact Hh1).
           unfold bind at 1, utcnow at 1. unfold bind at 1.
           rewrite update_state_healthy by assumption.
           unfold bind at 1.
           rewrite save_execution_to_history_healthy by assumption.
           intros [= <- <-]. split; [exact Hh2|].
           simpl. rewrite Hhist2. subst w1'. simpl. rewrite Hhist1. reflexivity.
        -- intros [= <- <-]. split.
           ++ unfold healthy. rewrite Hf2. exact Hh1.
           ++ eexists stepj, _. split; [|right; exact Hb].
              apply list_elem_of_In. eapply list_elem_of_lookup_2, Hsj.
      * intros Hrest.
        eapply IH in Hrest; [|exact Hh1|exact Hdrop'].
        destruct Hrest as [Hh Hout]. split; [exact Hh|].
        destruct out as [[er'|er']|e'|b']; try assumption;
          rewrite <- Hhist1; exact Hout.
Qed.

(** ** [execute] against a store that answers *)

(** Under [checkpoint_ok], what [execute] reads is the checkpoint. *)
Lemma last_success_step_read self w :
  checkpoint_ok self w ->
  default (VInt (-1)) (default _get_default_state (doc w) !! "last_success_step")
  = VInt (checkpoint w).
Proof.
  unfold checkpoint_ok, checkpoint, persisted.
  destruct (doc w) as [d|]; simpl; [|reflexivity].
  destruct (d !! "last_success_step") as [[]|]; simpl; intros H;
    try reflexivity; contradiction.
Qed.



(** A fresh workflow and a freshly reset one satisfy [checkpoint_ok]. *)
Lemma checkpoint_ok_default self w :
  doc w = None \/ doc w = Some _get_default_state -> checkpoint_ok self w.
Proof.
  assert (Hd : _get_default_state !! "last_success_step" = Some (VInt (-1)))
    by reflexivity.
  unfold checkpoint_ok, persisted. intros [-> | ->]; [exact I|].
  cbn [mbind option_bind]. rewrite Hd. lia.
Qed.

(** ** The checkpoint, whatever the writes do *)

Lemma persisted_set_faults_checkpoint f (ev : @event Payload) w :
  checkpoint (set_faults f (record ev w)) = checkpoint w.
Proof. reflexivity. Qed.

Lemma checkpoint_ok_le self w :
  checkpoint_ok self w -> checkpoint w <= Z.of_nat (length (steps self)) - 1.
Proof.
  unfold checkpoint_ok, checkpoint.
  destruct (persisted "last_success_step" w) as [[]|]; try contradiction; lia.
Qed.

Lemma failed_fields_checkpoint (error : value) (step_name now : string) :
  stamp (<["status" := VStr "FAILED"]>
        (<["error" := error]>
        (<["failed_step" := VStr step_name]>
        (<["completed_at" := VStr now]> ∅)))) !! "last_success_step" = None.
Proof. reflexivity. Qed.

(** The loop writes, or tries to write, checkpoints in rising order, all of
    them above the one it was given, and the stored one never goes down. *)
Lemma for_each_step_climb self z : forall rest index er w out w' c,
  (index + length rest = length (steps self))%nat ->
  checkpoint_ok self w ->
  checkpoint w <= c ->
  c <= Z.max z (Z.of_nat index - 1) ->
  for_each_step self (VInt z) index rest er w = (out, w') ->
  exists evs c',
    log w' = log w ++ evs
    /\ climb c evs = Some c'
    /\ checkpoint w <= checkpoint w' <= c'
    /\ c' <= Z.max z (Z.of_nat (index + length rest) - 1)
    /\ checkpoint_ok self w'.
Proof.
  induction rest as [|step rest IH]; intros index er w out w' c Hlen Hok Hc Hmax.
  - intros [= <- <-]. exists [], c. rewrite app_nil_r.
    split_and!; try reflexivity; try assumption; try lia.
  - cbn [for_each_step]. unfold bind at 1. cbn [int_le ret].
    simpl in Hlen.
    destruct (Z.leb_spec (Z.of_nat index) z) as [Hskip|Hrun].
    + intros Hrest.
      destruct (IH (S index) _ w out w' c ltac:(lia) Hok Hc ltac:(lia) Hrest)
        as (evs & c' & Hl & Hcl & Hcp & Hb & Hok').
      exists evs, c'. split_and!; try assumption; try lia.
      simpl length. replace (index + S (length rest))%nat
        with (S index + length rest)%nat by lia. exact Hb.
    + unfold bind at 1.
      destruct (_execute_step_with_retry self step index w) as [out1 w1] eqn:Hatt.
      unfold _execute_step_with_retry in Hatt.
      destruct (attempts_from_calls self step index _ _ _ _ _ Hatt)
        as (evs1 & Hl1 & _ & _ & _ & Hclimb).
      destruct (Hclimb c ltac:(lia)) as (c1 & Hc1 & Hrange & Hpers).
      assert (H1 : checkpoint w <= checkpoint w1 <= c1 /\ checkpoint_ok self w1).
      { destruct Hpers as [Hp|[Hp ->]].
        - rewrite (checkpoint_same _ _ Hp). split; [lia|].
          eapply checkpoint_ok_same; eassumption.
        - unfold checkpoint at 2 3, checkpoint_ok. rewrite Hp. lia. }
      destruct H1 as [Hcp1 Hok1].
      assert (Hb1 : c1 <= Z.max z (Z.of_nat (index + length (step :: rest)) - 1))
        by (simpl; lia).
      destruct out1 as [sr|e|b];
        try (intros [= <- <-]; exists evs1, c1;
             split_and!; try assumption; lia).
      destruct (decide (sr_status sr = "FAILED")) as [Hfailed|Hnot].
      * unfold bind at 1, logger_error_step_failed at 1.
        set (ev := step_failed_initiating_compensation (name step) index
                     (sr_error sr)).
        set (w1' := record ev w1).
        unfold bind at 1.
        destruct (_run_compensations_sweep self index w1')
          as [(w2 & -> & Hl2 & Hd2 & _)
             |(b & w2 & j & stepj & -> & _ & Hl2 & Hd2 & _)]; [lia| |].
        -- unfold bind at 1, utcnow at 1. unfold bind at 1.
           set (d := <["status" := VStr "FAILED"]> _).
           assert (Hdlss : stamp d !! "last_success_step" = None)
             by apply failed_fields_checkpoint.
           assert (Hp2 : persisted "last_success_step" w2
                         = persisted "last_success_step" w1)
             by (unfold persisted; rewrite Hd2; reflexivity).
           destruct (update_state_cases d w2) as [->|[e3 ->]].
           ++ unfold bind at 1.
              match goal with
              | |- context [save_execution_to_history ?r ?w3] =>
                  destruct (save_execution_to_history_cases r w3)
                    as (w4 & -> & Hl4 & Hd4 & _)
              end.
              intros [= <- <-].
              assert (Hp4 : persisted "last_success_step" w4
                            = persisted "last_success_step" w1).
              { unfold persisted at 1. rewrite Hd4.
                match goal with
                | |- doc (set_faults _ ?x) ≫= _ = _ =>
                    change (persisted "last_success_step" x
                            = persisted "last_success_step" w1)
                end.
                rewrite persisted_written_other by exact Hdlss. exact Hp2. }
              eexists (evs1 ++ ev :: map compensate_called (rev (seq 0 index))
                         ++ [set_called (stamp d) true; _]), c1.
              split_and!.
              ** rewrite Hl4. simpl. rewrite Hl2. subst w1'. simpl.
                 rewrite Hl1, <- !app_assoc. reflexivity.
              ** rewrite climb_app, Hc1. cbn [mbind option_bind].
                 subst ev. rewrite climb_sweep.
                 rewrite climb_cons_none by (simpl; rewrite Hdlss; reflexivity).
                 reflexivity.
              ** rewrite (checkpoint_same _ _ Hp4). lia.
              ** rewrite (checkpoint_same _ _ Hp4). lia.
              ** exact Hb1.
              ** eapply checkpoint_ok_same; eassumption.
           ++ intros [= <- <-].
              exists (evs1 ++ ev :: map compensate_called (rev (seq 0 index))
                        ++ [set_called (stamp d) true]), c1.
              split_and!.
              ** simpl. rewrite Hl2. subst w1'. simpl.
                 rewrite Hl1, <- !app_assoc. reflexivity.
              ** rewrite climb_app, Hc1. cbn [mbind option_bind].
                 subst ev. rewrite climb_sweep.
                 rewrite climb_cons_none by (simpl; rewrite Hdlss; reflexivity).
                 reflexivity.
              ** rewrite persisted_set_faults_checkpoint, (checkpoint_same _ _ Hp2).
                 lia.
              ** rewrite persisted_set_faults_checkpoint, (checkpoint_same _ _ Hp2).
                 lia.
              ** exact Hb1.
              ** eapply (checkpoint_ok_same self w1); [|exact Hok1].
                 rewrite persisted_set_faults, persisted_record. exact Hp2.
        -- intros [= <- <-].
           assert (Hp2 : persisted "last_success_step" w2
                         = persisted "last_success_step" w1)
             by (unfold persisted; rewrite Hd2; reflexivity).
           exists (evs1 ++ ev :: map compensate_called (rev (seq j (index - j)))
                     ++ []), c1.
           split_and!.
           ++ rewrite Hl2. subst w1'. simpl.
              rewrite Hl1, app_nil_r, <- !app_assoc. reflexivity.
           ++ rewrite climb_app, Hc1. cbn [mbind option_bind].
              subst ev. rewrite climb_sweep. reflexivity.
           ++ rewrite (checkpoint_same _ _ Hp2). lia.
           ++ rewrite (checkpoint_same _ _ Hp2). lia.
           ++ exact Hb1.
           ++ eapply checkpoint_ok_same; eassumption.
      * intros Hrest.
        destruct (IH (S index) _ w1 out w' c1 ltac:(lia) Hok1 ltac:(lia)
                    ltac:(lia) Hrest)
          as (evs & c' & Hl & Hcl & Hcp & Hb & Hok').
        exists (evs1 ++ evs), c'. split_and!; try assumption; try lia.
        -- rewrite Hl, Hl1, <- app_assoc. reflexivity.
        -- rewrite climb_app, Hc1. exact Hcl.
        -- simpl length. replace (index + S (length rest))%nat
             with (S index + length rest)%nat by lia. exact Hb.
Qed.

(** A run whose opening read is answered: no write of the run, accepted or
    refused, carries a checkpoint below the stored one or below that of an
    earlier write, and the stored checkpoint does not go down. *)
Lemma execute_climb self retry w out w' :
  checkpoint_ok self w ->
  next_fault w = None ->
  execute self retry w = (out, w') ->
  exists evs c',
    log w' = log w ++ evs
    /\ climb (checkpoint w) evs = Some c'
    /\ checkpoint w <= checkpoint w' <= c'
    /\ checkpoint_ok self w'.
Proof.
  intros Hok Hread.
  destruct (get_state_cases w) as (state & Hget & Hstate).
  rewrite Hread in Hstate.
  set (w0 := set_faults (tail (faults w)) w) in Hget.
  assert (Hlss : default (VInt (-1)) (state !! "last_success_step")
                 = VInt (checkpoint w)).
  { rewrite <- (last_success_step_read self w Hok). subst state.
    destruct (doc w); reflexivity. }
  unfold execute. unfold bind at 1. rewrite Hget.
  destruct (bool_decide _ && negb retry).
  { intros [= <- <-]. exists [], (checkpoint w). rewrite app_nil_r.
    split_and!; try reflexivity; try assumption; simpl; lia. }
  rewrite Hlss.
  unfold bind at 1, utcnow at 1. unfold bind at 1.
  set (d1 := <["status" := VStr "IN_PROGRESS"]> _).
  assert (Hd1 : stamp d1 !! "last_success_step" = None)
    by (subst d1; destruct retry; reflexivity).
  assert (Hc1 : checkpoint_written (@set_called Payload (stamp d1) true) = None)
    by (simpl; rewrite Hd1; reflexivity).
  destruct (update_state_cases d1 w0) as [->|[e1 ->]].
  2:{ intros [= <- <-]. exists [set_called (stamp d1) true], (checkpoint w).
      split_and!; try reflexivity; try assumption. }
  set (w1 := set_faults _ (written (stamp d1) w0)).
  assert (Hp1 : persisted "last_success_step" w1 = persisted "last_success_step" w).
  { subst w1. rewrite persisted_set_faults, persisted_written_other by exact Hd1.
    reflexivity. }
  assert (Hl1 : log w1 = log w ++ [set_called (stamp d1) true]) by reflexivity.
  clearbody w1.
  unfold bind at 1.
  destruct (for_each_step self (VInt (checkpoint w)) 0 (steps self)
              new_execution_result w1) as [out2 w2] eqn:Hloop.
  destruct (for_each_step_climb self (checkpoint w) (steps self) 0
              new_execution_result w1 out2 w2 (checkpoint w))
    as (evs2 & c2 & Hl2 & Hcl2 & Hcp2 & Hb2 & Hok2).
  { reflexivity. }
  { eapply checkpoint_ok_same; eassumption. }
  { rewrite (checkpoint_same _ _ Hp1). lia. }
  { lia. }
  { exact Hloop. }
  rewrite (checkpoint_same _ _ Hp1) in Hcp2.
  pose proof (checkpoint_ok_le self w Hok) as Hle.
  simpl in Hb2.
  destruct out2 as [[er|er]|e2|b2].
  2-4: unfold ret; intros [= <- <-];
    exists ([set_called (stamp d1) true] ++ evs2), c2;
    (split_and!; try assumption; try lia;
       first
         [rewrite Hl2, Hl1, <- app_assoc; reflexivity
         |change ([set_called (stamp d1) true] ++ evs2)
            with (set_called (stamp d1) true :: evs2);
          rewrite (climb_cons_none _ _ _ Hc1); exact Hcl2]).
  unfold bind at 1, utcnow at 1. unfold bind at 1.
  set (d3 := <["status" := VStr "SUCCESS"]> _).
  assert (Hd3 : stamp d3 !! "last_success_step"
                = Some (VInt (Z.of_nat (length (steps self)) - 1)))
    by reflexivity.
  assert (Hc3 : checkpoint_written (@set_called Payload (stamp d3) true)
                = Some (Z.of_nat (length (steps self)) - 1))
    by (simpl; rewrite Hd3; reflexivity).
  assert (Hclimb : forall tail,
            Forall (fun ev => checkpoint_written ev = None) tail ->
            climb (checkpoint w)
              ([set_called (stamp d1) true] ++ evs2
                 ++ set_called (stamp d3) true :: tail)
            = Some (Z.of_nat (length (steps self)) - 1)).
  { intros tl Htl.
    change ([set_called (stamp d1) true] ++ ?l) with (set_called (stamp d1) true :: l).
    rewrite (climb_cons_none _ _ _ Hc1), climb_app, Hcl2.
    cbn [mbind option_bind].
    rewrite (climb_cons_some _ _ _ _ Hc3) by lia.
    clear -Htl. induction Htl as [|ev tl Hev _ IH]; [reflexivity|].
    rewrite (climb_cons_none _ _ _ Hev). exact IH. }
  destruct (update_state_cases d3 w2) as [->|[e3 ->]].
  - match goal with
    | |- context [save_execution_to_history er ?w3] =>
        destruct (save_execution_to_history_cases er w3)
          as (w4 & -> & Hl4 & Hd4 & _)
    end.
    intros [= <- <-].
    assert (Hp4 : persisted "last_success_step" w4
                  = Some (VInt (Z.of_nat (length (steps self)) - 1))).
    { unfold persisted at 1. rewrite Hd4.
      match goal with
      | |- doc (set_faults _ ?x) ≫= _ = _ =>
          change (persisted "last_success_step" x
                  = Some (VInt (Z.of_nat (length (steps self)) - 1)))
      end.
      rewrite persisted_written, Hd3. reflexivity. }
    eexists ([set_called (stamp d1) true] ++ evs2
               ++ set_called (stamp d3) true :: [_]), _.
    split_and!.
    + rewrite Hl4. simpl. rewrite Hl2, Hl1, <- !app_assoc. reflexivity.
    + apply Hclimb. repeat constructor.
    + unfold checkpoint at 2. rewrite Hp4. lia.
    + unfold checkpoint at 1. rewrite Hp4. lia.
    + unfold checkpoint_ok. rewrite Hp4. lia.
  - intros [= <- <-].
    eexists ([set_called (stamp d1) true] ++ evs2
               ++ set_called (stamp d3) true :: []), _.
    split_and!.
    + simpl. rewrite Hl2, Hl1, <- !app_assoc. reflexivity.
    + apply Hclimb. constructor.
    + rewrite persisted_set_faults_checkpoint. lia.
    + rewrite persisted_set_faults_checkpoint. lia.
    + eapply (checkpoint_ok_same self w2); [|exact Hok2]. reflexivity.
Qed.

(** Over a sequence of calls whose opening reads are answered, the stored
    checkpoint stays a number within the step list and does not go down. *)
Lemma worlds_after_invariant self : forall retries w,
  checkpoint_ok self w ->
  reads_answered self retries w ->
  Forall (fun w' => checkpoint_ok self w' /\ checkpoint w <= checkpoint w')
    (worlds_after self retries w).
Proof.
  induction retries as [|retry retries IH]; intros w Hok Hreads; [constructor|].
  cbn [worlds_after reads_answered] in *. destruct Hreads as [Hread Hreads].
  destruct (execute self retry w) as [out w'] eqn:Hexec.
  destruct (execute_climb self retry w out w' Hok Hread Hexec)
    as (evs & c' & _ & _ & Hcp & Hok').
  cbn [snd] in *.
  constructor; [split; [exact Hok'|lia]|].
  eapply Forall_impl; [apply (IH w' Hok' Hreads)|].
  intros w'' (? & ?). split; [assumption|lia].
Qed.

(** C4, as the code has it: starting from a stored checkpoint that is a
    number within the step list (or absent), as on a fresh or reset workflow
    and after every [execute], and as long as the read that opens each call
    is answered, the stored [last_success_step] never decreases: over any
    sequence of [execute] calls, with [retry] true or false and whatever the
    writes and the steps do, its values after the successive calls are in
    non-decreasing order, and within each run no write, accepted or refused,
    carries a value below the stored one or below that of an earlier
    write. *)
Theorem C4_checkpoint_never_decreases self retries w :
  checkpoint_ok self w ->
  reads_answered self retries w ->
  StronglySorted Z.le (map checkpoint (w :: worlds_after self retries w))
  /\ Forall (checkpoint_ok self) (worlds_after self retries w)
  /\ forall retry w0 out w',
       checkpoint_ok self w0 ->
       next_fault w0 = None ->
       execute self retry w0 = (out, w') ->
       exists evs c',
         log w' = log w0 ++ evs
         /\ climb (checkpoint w0) evs = Some c'
         /\ checkpoint w0 <= checkpoint w' <= c'.
Proof.
  intros Hok Hreads. split_and!.
  - revert w Hok Hreads.
    induction retries as [|retry retries IH]; intros w Hok Hreads.
    + repeat constructor.
    + pose proof (worlds_after_invariant self (retry :: retries) w Hok Hreads)
        as Hinv.
      cbn [worlds_after reads_answered] in *. destruct Hreads as [Hread Hreads].
      destruct (execute self retry w) as [out w'] eqn:Hexec.
      destruct (execute_climb self retry w out w' Hok Hread Hexec)
        as (evs & c' & _ & _ & Hcp & Hok').
      cbn [snd] in *.
      change (map checkpoint (w :: ?l)) with (checkpoint w :: map checkpoint l).
      constructor; [exact (IH w' Hok' Hreads)|].
      apply List.Forall_map. eapply Forall_impl; [exact Hinv|].
      intros w'' (_ & Hle). exact Hle.
  - eapply Forall_impl; [apply (worlds_after_invariant self retries w Hok Hreads)|].
    intros w'' (H & _). exact H.
  - intros retry w0 out w' Hok0 Hread0 Hexec.
    destruct (execute_climb self retry w0 out w' Hok0 Hread0 Hexec)
      as (evs & c' & Hl & Hcl & Hcp & _).
    eauto.
Qed.

(** ** Scenarios *)

(** The state [execute] reads on a fresh or freshly reset workflow. *)
Lemma get_state_default w :
  healthy w ->
  doc w = None \/ doc w = Some _get_default_state ->
  get_state w = (Return _get_default_state, w).
Proof.
  intros Hw Hdoc. rewrite (get_state_healthy _ Hw).
  destruct Hdoc as [-> | ->]; reflexivity.
Qed.

(** C10: with no steps at all, [execute(retry=False)] from the default
    NOT_STARTED state (no document, or the default one) on a store that
    answers returns SUCCESS with no step results, and stores
    [status = SUCCESS] with [last_success_step = -1], the value the default
    state has; it awaits no [run()] and no [compensate()]. *)
Theorem C10_empty_workflow self w :
  steps self = [] ->
  healthy w ->
  doc w = None \/ doc w = Some _get_default_state ->
  exists r w' evs,
    execute self false w = (Return r, w')
    /\ er_status r = "SUCCESS"
    /\ steps_executed r = Some []
    /\ persisted "status" w' = Some (VStr "SUCCESS")
    /\ persisted "last_success_step" w' = Some (VInt (-1))
    /\ _get_default_state !! "last_success_step" = Some (VInt (-1))
    /\ log w' = log w ++ evs
    /\ runs_in evs = []
    /\ compensations_in evs = [].
Proof.
  intros Hsteps Hw Hdoc.
  unfold execute. unfold bind at 1. rewrite (get_state_default _ Hw Hdoc).
  rewrite bool_decide_eq_false_2 by discriminate.
  cbn [andb]. unfold bind at 1, utcnow at 1. unfold bind at 1.
  rewrite update_state_healthy by assumption.
  rewrite Hsteps. cbn [for_each_step]. unfold bind at 1, ret at 1.
  unfold bind at 1, utcnow at 1. unfold bind at 1.
  rewrite update_state_healthy by assumption.
  rewrite save_execution_to_history_healthy by assumption.
  eexists _, _, [_; _; _].
  split_and!.
  1: reflexivity.
  6:{ simpl. rewrite <- !app_assoc. reflexivity. }
  all: try reflexivity.
  - rewrite persisted_set_history, persisted_record, persisted_written. reflexivity.
  - rewrite persisted_set_history, persisted_record, persisted_written. reflexivity.
Qed.

Lemma default_state_checkpoint :
  default (VInt (-1)) (_get_default_state !! "last_success_step") = VInt (-1).
Proof. reflexivity. Qed.

(** One trip through the loop body, for a step above the checkpoint. *)
Lemma for_each_step_attempted self z index step rest er w sr w1 :
  z < Z.of_nat index ->
  _execute_step_with_retry self step index w = (Return sr, w1) ->
  sr_status sr <> "FAILED" ->
  for_each_step self (VInt z) index (step :: rest) er w
  = for_each_step self (VInt z) (S index) rest (append_step er sr) w1.
Proof.
  intros Hz Hrun Hok. cbn [for_each_step]. unfold bind at 1. cbn [int_le ret].
  destruct (Z.leb_spec (Z.of_nat index) z); [lia|].
  unfold bind at 1. rewrite Hrun. rewrite decide_False by assumption.
  reflexivity.
Qed.

Lemma for_each_step_failed self z index step rest er w sr w1 :
  z < Z.of_nat index ->
  _execute_step_with_retry self step index w = (Return sr, w1) ->
  sr_status sr = "FAILED" ->
  healthy w1 ->
  (index <= length (steps self))%nat ->
  (forall j stepj, (j < index)%nat -> steps self !! j = Some stepj ->
     compensate_is_catchable stepj) ->
  exists w2 w',
    for_each_step self (VInt z) index (step :: rest) er w
    = (Return (Returned (stamped (mark_failed (append_step er sr) step index))),
       w')
    /\ log w2 = log w1
                ++ step_failed_initiating_compensation (name step) index
                     (sr_error sr)
                :: map compensate_called (rev (seq 0 index))
    /\ doc w2 = doc w1 /\ history w2 = history w1
    /\ env w2 = replay self (map compensate_called (rev (seq 0 index))) (env w1)
    /\ w' = set_history
              (history w2
               ++ [stamped (mark_failed (append_step er sr) step index)])
              (record
                 (add_called
                    (stamped (mark_failed (append_step er sr) step index)))
                 (written
                    (stamp
                       (<["status" := VStr "FAILED"]>
                       (<["error" := opt_str (sr_error sr)]>
                       (<["failed_step" := VStr (name step)]>
                       (<["completed_at" := VStr (utcnow_isoformat (env w2))]>
                          ∅)))))
                    w2)).
Proof.
  intros Hz Hrun Hfailed Hh1 Hidx Hcatch.
  set (w1' := record (step_failed_initiating_compensation (name step) index
                        (sr_error sr)) w1).
  destruct (_run_compensations_sweep self index w1' Hidx)
    as [(w2 & Hsweep & Hl2 & Hd2 & Hhist2 & Hf2 & He2)
       |(b & w2 & j & stepj & _ & Hj & _ & _ & _ & _ & _ & Hsj & Hb)].
  2:{ exfalso. apply (Hcatch j stepj Hj Hsj _ b Hb). }
  assert (Hh2 : healthy w2) by (unfold healthy; rewrite Hf2; exact Hh1).
  exists w2. eexists.
  split_and!; [|rewrite Hl2; subst w1'; simpl; rewrite <- app_assoc; reflexivity
              |exact Hd2|exact Hhist2|exact He2|reflexivity].
  cbn [for_each_step]. unfold bind at 1. cbn [int_le ret].
  destruct (Z.leb_spec (Z.of_nat index) z); [lia|].
  unfold bind at 1. rewrite Hrun. rewrite decide_True by assumption.
  unfold bind at 1, logger_error_step_failed at 1. fold w1'.
  unfold bind at 1. rewrite Hsweep.
  unfold bind at 1, utcnow at 1. unfold bind at 1.
  rewrite update_state_healthy by assumption.
  unfold bind at 1.
  rewrite save_execution_to_history_healthy by assumption.
  reflexivity.
Qed.

(** C2: the workflow [A, B, C, D] with [max_retries = 2], started from the
    default NOT_STARTED state on a store that answers, where A and B return
    on their first attempt, C's [run()] always raises an [Exception], and
    the [compensate()] of B and of A raise nothing but [Exception]s.
    [execute] returns FAILED with [failed_step = "C"],
    [failed_step_index = 2] and the step results A: SUCCESS after 1 attempt,
    B: SUCCESS after 1 attempt, C: FAILED after 2 attempts; [run()] is
    awaited on A, B and twice on C, never on D; then [compensate()] is
    awaited on B, then on A, so that the environment is what A's
    [compensate()] makes of what B's makes of the one the four [run()] calls
    left; the stored state has [last_success_step = 1] and
    [status = FAILED]. *)
Theorem C2_failure_scenario self A B C D w :
  name A = "A" -> name B = "B" -> name C = "C" -> name D = "D" ->
  steps self = [A; B; C; D] ->
  max_retries self = 2 ->
  healthy w ->
  doc w = None \/ doc w = Some _get_default_state ->
  (exists p, nth_run A 0 (env w) = Return p) ->
  (exists p, nth_run B 0 (env_after_runs A 1 (env w)) = Return p) ->
  (forall e, exists x, fst (run C e) = Raise x) ->
  compensate_is_catchable B ->
  compensate_is_catchable A ->
  exists r w' evs srs,
    execute self false w = (Return r, w')
    /\ er_status r = "FAILED"
    /\ failed_step r = Some "C"
    /\ failed_step_index r = Some 2%nat
    /\ steps_executed r = Some srs
    /\ map (fun sr => (sr_step sr, sr_status sr, sr_attempts sr)) srs
       = [("A", "SUCCESS", Some 1%nat); ("B", "SUCCESS", Some 1%nat);
          ("C", "FAILED", Some 2%nat)]
    /\ log w' = log w ++ evs
    /\ runs_in evs = [0; 1; 2; 2]%nat
    /\ compensations_in evs = [1; 0]%nat
    /\ (exists evs1 evs2,
          evs = evs1 ++ evs2
          /\ runs_in evs1 = [0; 1; 2; 2]%nat /\ compensations_in evs1 = []
          /\ runs_in evs2 = [] /\ compensations_in evs2 = [1; 0]%nat)
    /\ env w'
       = snd (compensate A
                (snd (compensate B
                        (env_after_runs C 2
                           (env_after_runs B 1
                              (env_after_runs A 1 (env w)))))))
    /\ persisted "last_success_step" w' = Some (VInt 1)
    /\ persisted "status" w' = Some (VStr "FAILED").
Proof.
  intros HnA HnB HnC HnD Hsteps Hm Hw Hdoc [pA HA] [pB HB] HC HcB HcA.
  unfold execute. unfold bind at 1. rewrite (get_state_default _ Hw Hdoc).
  rewrite bool_decide_eq_false_2 by discriminate.
  cbn [andb]. rewrite default_state_checkpoint.
  unfold bind at 1, utcnow at 1. unfold bind at 1.
  rewrite update_state_healthy by assumption.
  match goal with
  | |- context [written ?d w] => set (d1 := d); set (w1 := written d1 w)
  end.
  rewrite Hsteps. unfold bind at 1.
  assert (Hretries : Z.to_nat (max_retries self) = 2%nat) by (rewrite Hm; reflexivity).
  (* A *)
  destruct (retry_succeeds self A 0 pA 0 0 2 w1)
    as (wA & HrunA & HhA & HhistA & HeA & HlA & HpA);
    [exact Hw|lia|rewrite Hm; reflexivity|intros i Hi; lia|exact HA|].
  erewrite (for_each_step_attempted self (-1) 0 A _ _ w1 _ wA);
    [|lia|unfold _execute_step_with_retry; rewrite Hretries; exact HrunA
     |discriminate].
  (* B *)
  destruct (retry_succeeds self B 1 pB 0 0 2 wA)
    as (wB & HrunB & HhB & HhistB & HeB & HlB & HpB);
    [exact HhA|lia|rewrite Hm; reflexivity|intros i Hi; lia
    |rewrite HeA; exact HB|].
  erewrite (for_each_step_attempted self (-1) 1 B _ _ wA _ wB);
    [|lia|unfold _execute_step_with_retry; rewrite Hretries; exact HrunB
     |discriminate].
  (* C *)
  destruct (retry_fails self C 2 2 0 wB)
    as (x & wC & _ & HrunC & HhC & HhistC & HeC & HlC & HpC);
    [exact HhB|lia|rewrite Hm; reflexivity|intros i Hi; apply HC|].
  destruct (for_each_step_failed self (-1) 2 C [D]
              (append_step (append_step new_execution_result
                              (succeeded A 0 (0 + 0) pA))
                 (succeeded B 1 (0 + 0) pB))
              wB (failed C 2 (0 + 2 - 1) x) wC)
    as (w2 & w' & -> & Hl2 & Hd2 & Hhist2 & He2 & ->);
    [lia|unfold _execute_step_with_retry; rewrite Hretries; exact HrunC
    |reflexivity|exact HhC|rewrite Hsteps; simpl; lia| |].
  { intros j stepj Hj. rewrite Hsteps.
    destruct j as [|[|j]]; [| |lia]; simpl; intros [= <-]; assumption. }
  assert (Hlog : log w2
            = log w
              ++ ([set_called d1 true] ++ attempt_events A 0 0 1
                    ++ [checkpoint_event 0] ++ attempt_events B 1 0 1
                    ++ [checkpoint_event 1] ++ attempt_events C 2 0 2)
              ++ step_failed_initiating_compensation (name C) 2
                   (sr_error (failed C 2 (0 + 2 - 1) x))
                 :: map compensate_called (rev (seq 0 2))).
  { rewrite Hl2, HlC, HlB, HlA. subst w1. simpl. rewrite <- !app_assoc.
    reflexivity. }
  eexists _, _, _, _. split_and!.
  1: reflexivity.
  6:{ simpl. rewrite Hlog, <- !app_assoc. reflexivity. }
  all: try reflexivity.
  - simpl. rewrite HnC. reflexivity.
  - simpl. rewrite HnA, HnB, HnC. reflexivity.
  - eexists ([set_called d1 true] ++ attempt_events A 0 0 1
               ++ [checkpoint_event 0] ++ attempt_events B 1 0 1
               ++ [checkpoint_event 1] ++ attempt_events C 2 0 2), _.
    split_and!; [simpl; reflexivity|reflexivity..].
  - simpl. rewrite He2, HeC, HeB, HeA. subst w1. simpl.
    unfold replay. simpl. rewrite Hsteps. reflexivity.
  - rewrite persisted_set_history, persisted_record, persisted_written.
    simpl. unfold persisted. rewrite Hd2. fold (persisted "last_success_step" wC).
    rewrite HpC. exact HpB.
  - rewrite persisted_set_history, persisted_record, persisted_written.
    reflexivity.
Qed.

(** * More about the repository and the orchestrator *)

(** ** The retry loop, whatever the store does *)

(** X1: whatever the step and the store do, [_execute_step_with_retry]
    raises no [Exception]: it returns a result for its step, with status
    SUCCESS or FAILED, or it lets through what [run()] of the step raised
    that is not an [Exception], right after the call that raised it.  Either
    way it has awaited [run()] of that step only, at most [max_retries]
    times, has compensated nothing and has left the history alone. *)
Theorem X1_retry_loop_raises_no_Exception self step index w :
  exists out w' evs,
    _execute_step_with_retry self step index w = (out, w')
    /\ log w' = log w ++ evs
    /\ Forall (eq index) (runs_in evs)
    /\ compensations_in evs = []
    /\ (length (runs_in evs) <= Z.to_nat (max_retries self))%nat
    /\ history w' = history w
    /\ env w' = env_after_runs step (length (runs_in evs)) (env w)
    /\ match out with
       | Return sr =>
           sr_step sr = name step /\ sr_index sr = index
           /\ (sr_status sr = "SUCCESS" \/ sr_status sr = "FAILED")
       | Raise _ => False
       | Raise_base b =>
           exists n,
             length (runs_in evs) = S n
             /\ nth_run step n (env w) = Raise_base b
       end.
Proof.
  unfold _execute_step_with_retry.
  destruct (attempts_from_trace self step index (Z.to_nat (max_retries self)) 0 w)
    as (out & w' & evs & Hrun & Hres).
  destruct (attempts_from_calls self step index _ _ _ _ _ Hrun)
    as (evs' & Hl' & _ & He & Hb & _).
  exists out, w', evs.
  assert (Hevs : log w' = log w ++ evs -> evs' = evs)
    by (intros H; apply (app_inv_head (log w)); congruence).
  destruct out as [sr|e|b]; [|contradiction|].
  - destruct Hres as (Hl & Hh & Hn & Hi & Hf & Hc & Hr & _ & Hcase).
    rewrite (Hevs Hl) in He. split_and!; try assumption.
    destruct Hcase as [(Hs & _)|(Hs & _)]; auto.
  - destruct Hres as (Hl & Hh & Hf & Hc & Hr & _).
    rewrite (Hevs Hl) in He, Hb. split_and!; try assumption.
    apply (Hb b). reflexivity.
Qed.

(** X2: a SUCCESS step result is returned only once the step's checkpoint
    is stored: then [last_success_step] is the step's index, the result
    carries the payload and an attempt count between 1 and [max_retries] and
    no error.  A FAILED result carries an error message and no payload, and
    the stored [last_success_step] is what it was.  This holds whatever the
    store does. *)
Theorem X2_step_result_and_checkpoint self step index w sr w' :
  _execute_step_with_retry self step index w = (Return sr, w') ->
  (sr_status sr = "SUCCESS" ->
     persisted "last_success_step" w' = Some (VInt (Z.of_nat index))
     /\ exists a p,
          sr_attempts sr = Some a /\ sr_result sr = Some p
          /\ sr_error sr = None
          /\ (1 <= a <= Z.to_nat (max_retries self))%nat)
  /\ (sr_status sr = "FAILED" ->
     sr_result sr = None
     /\ persisted "last_success_step" w' = persisted "last_success_step" w
     /\ exists msg, sr_error sr = Some msg).
Proof.
  unfold _execute_step_with_retry. intros Hrun.
  destruct (attempts_from_trace self step index (Z.to_nat (max_retries self)) 0 w)
    as (out0 & w0 & evs & Hrun0 & Hres).
  rewrite Hrun in Hrun0. injection Hrun0 as <- <-.
  destruct Hres as (_ & _ & _ & _ & _ & _ & _ & _ & Hcase).
  destruct Hcase as [(Hs & Hp & a & p & Ha & Hres & Herr & Hrange)
                    |(Hs & Hres & Hp & Hmsg)].
  - split; [|intros Hf; rewrite Hs in Hf; discriminate].
    intros _. split; [assumption|]. exists a, p. split_and!; try assumption; lia.
  - split; [intros Hf; rewrite Hs in Hf; discriminate|].
    intros _. split_and!; assumption.
Qed.

(** X3: with [max_retries <= 0] the loop body never runs: the step result
    is FAILED with error "Max retries exceeded" and no attempt count, and
    nothing has been called or written. *)
Theorem X3_no_retries_allowed self step index w :
  max_retries self <= 0 ->
  _execute_step_with_retry self step index w
  = (Return (mkStepResult (name step) "FAILED" index None None
               (Some "Max retries exceeded")), w).
Proof.
  intros Hm. unfold _execute_step_with_retry.
  replace (Z.to_nat (max_retries self)) with 0%nat by lia. reflexivity.
Qed.

(** A store that fails every request of the loop. *)
Lemma attempts_from_store_down self step index : forall es attempt w e rest,
  faults w = map Some (es ++ [e]) ++ rest ->
  Z.of_nat (attempt + length es) = max_retries self - 1 ->
  exists w' evs,
    attempts_from self step index attempt (S (length es)) w
    = (Return (failed step index (attempt + length es) e), w')
    /\ log w' = log w ++ evs
    /\ runs_in evs = []
    /\ length (writes_in evs) = S (length es)
    /\ faults w' = rest /\ doc w' = doc w /\ env w' = env w.
Proof.
  induction es as [|e0 es IH]; intros attempt w e rest Hf Hm.
  - simpl in Hf. cbn [length]. rewrite attempts_from_S.
    unfold try_except, bind at 1.
    rewrite (update_state_raises _ w e) by (unfold next_fault; rewrite Hf; reflexivity).
    rewrite decide_True by (simpl in Hm; lia). unfold ret.
    eexists _, _. replace (attempt + 0)%nat with attempt by lia.
    split_and!; try reflexivity. simpl. rewrite Hf. reflexivity.
  - simpl in Hf. cbn [length]. rewrite attempts_from_S.
    unfold try_except, bind at 1.
    rewrite (update_state_raises _ w e0) by (unfold next_fault; rewrite Hf; reflexivity).
    rewrite decide_False by (simpl in Hm; lia).
    match goal with
    | |- context [attempts_from _ _ _ _ _ ?w0] => set (w1 := w0)
    end.
    destruct (IH (S attempt) w1 e rest) as (w' & evs & Hrun & Hl & Hr & Hw & Hf' & Hd & He).
    { subst w1. simpl. rewrite Hf. reflexivity. }
    { simpl in Hm. lia. }
    exists w', (set_called (stamp (attempt_fields step index attempt)) true :: evs).
    replace (attempt + S (length es))%nat with (S attempt + length es)%nat by lia.
    split_and!; try assumption.
    + rewrite Hl. subst w1. simpl. rewrite <- app_assoc. reflexivity.
    + simpl. rewrite Hw. reflexivity.
Qed.

(** X4: a write that raises inside the retry loop is not propagated but
    counted as a failed attempt.  When the store fails each of the next
    [max_retries] requests, the step result is FAILED after [max_retries]
    attempts with the message of the last store exception, and [run()] has
    never been awaited. *)
Theorem X4_store_failure_is_a_failed_attempt self step index w es e rest :
  faults w = map Some (es ++ [e]) ++ rest ->
  Z.of_nat (S (length es)) = max_retries self ->
  exists sr w' evs,
    _execute_step_with_retry self step index w = (Return sr, w')
    /\ sr_status sr = "FAILED"
    /\ sr_attempts sr = Some (S (length es))
    /\ sr_error sr = Some (str e)
    /\ log w' = log w ++ evs
    /\ runs_in evs = []
    /\ faults w' = rest
    /\ doc w' = doc w.
Proof.
  intros Hf Hm. unfold _execute_step_with_retry.
  replace (Z.to_nat (max_retries self)) with (S (length es)) by lia.
  destruct (attempts_from_store_down self step index es 0 w e rest Hf)
    as (w' & evs & Hrun & Hl & Hr & _ & Hf' & Hd & _); [lia|].
  eexists _, w', evs. split_and!; try eassumption; try reflexivity.
  simpl. f_equal. lia.
Qed.

(** X5: a step whose [run()] returned is run again when the write of its
    checkpoint raises and attempts are left: with the second request to the
    store failing, [run()] is awaited twice and the result reports SUCCESS
    after 2 attempts, with the payload of the second call. *)
Theorem X5_rerun_after_lost_checkpoint self step index w e p1 p2 :
  faults w = [None; Some e] ->
  2 <= max_retries self ->
  nth_run step 0 (env w) = Return p1 ->
  nth_run step 1 (env w) = Return p2 ->
  exists sr w' evs,
    _execute_step_with_retry self step index w = (Return sr, w')
    /\ sr_status sr = "SUCCESS"
    /\ sr_attempts sr = Some 2%nat
    /\ sr_result sr = Some p2
    /\ log w' = log w ++ evs
    /\ runs_in evs = [index; index]
    /\ persisted "last_success_step" w' = Some (VInt (Z.of_nat index)).
Proof.
  intros Hf Hm H1 H2. unfold _execute_step_with_retry.
  destruct (Z.to_nat (max_retries self)) as [|[|remaining]] eqn:Hn; try lia.
  rewrite attempts_from_S. unfold try_except at 1, bind at 1.
  rewrite (update_state_returns _ w) by (unfold next_fault; rewrite Hf; reflexivity).
  unfold bind at 1. rewrite await_run_eq.
  unfold nth_run in H1. simpl in H1. cbn [env set_doc set_faults record].
  rewrite H1.
  unfold bind at 1.
  match goal with
  | |- context [update_state ?d ?w0] =>
      rewrite (update_state_raises d w0 e)
        by (unfold next_fault; simpl; rewrite Hf; reflexivity)
  end.
  rewrite decide_False by lia.
  match goal with
  | |- context [attempts_from _ _ _ _ _ ?w0] => set (w1 := w0)
  end.
  assert (Hw1 : healthy w1) by (subst w1; unfold healthy; simpl; rewrite Hf; reflexivity).
  rewrite attempts_from_S_healthy by exact Hw1.
  assert (He1 : env w1 = snd (run step (env w))) by reflexivity.
  unfold nth_run in H2. simpl in H2. rewrite He1, H2.
  eexists _, _, _. split_and!; try reflexivity.
  - simpl. rewrite <- !app_assoc. reflexivity.
  - reflexivity.
  - rewrite persisted_written. reflexivity.
Qed.

(** ** The step loop: order, budget, history, untouched fields *)

Lemma sorted_runs_app (i : nat) (l1 l2 : list nat) :
  Forall (eq i) l1 ->
  Forall (fun j => (S i <= j)%nat) l2 ->
  StronglySorted le l2 ->
  StronglySorted le (l1 ++ l2).
Proof.
  intros H1 H2 H3. induction H1 as [|x l1 <- Hl1 IH]; [exact H3|].
  simpl. constructor; [exact IH|].
  apply Forall_app. split.
  - eapply Forall_impl; [exact Hl1|]. intros j <-. lia.
  - eapply Forall_impl; [exact H2|]. intros j Hj. simpl in Hj. lia.
Qed.

Lemma failed_fields_other (error : value) (step_name now key : string) :
  key ∉ loop_keys ->
  stamp (<["status" := VStr "FAILED"]>
        (<["error" := error]>
        (<["failed_step" := VStr step_name]>
        (<["completed_at" := VStr now]> ∅)))) !! key = None.
Proof.
  unfold loop_keys, attempt_keys, stamp. cbn [app]. intros Hkey.
  rewrite !lookup_insert_ne
    by (intros <-; apply Hkey; rewrite !elem_of_cons; tauto).
  apply lookup_empty.
Qed.

Lemma loop_keys_attempt_keys key : key ∉ loop_keys -> key ∉ attempt_keys.
Proof. unfold loop_keys. rewrite elem_of_app. tauto. Qed.

Lemma for_each_step_trace self lss : forall rest index er srs0 w,
  steps_executed er = Some srs0 ->
  (index + length rest = length (steps self))%nat ->
  exists out w' evs,
    for_each_step self lss index rest er w = (out, w')
    /\ log w' = log w ++ evs
    /\ StronglySorted le (runs_in evs)
    /\ Forall (fun j => (index <= j < index + length rest)%nat) (runs_in evs)
    /\ (length (runs_in evs) <= length rest * Z.to_nat (max_retries self))%nat
    /\ (forall key, key ∉ loop_keys -> persisted key w' = persisted key w)
    /\ match out with
       | Raise _ | Raise_base _ =>
           history w' = history w
           /\ (forall key, key ∉ attempt_keys ->
                 persisted key w' = persisted key w)
       | Return (Fell_through er') =>
           history w' = history w
           /\ (forall key, key ∉ attempt_keys ->
                 persisted key w' = persisted key w)
           /\ created_at er' = created_at er
           /\ failed_step_index er' = failed_step_index er
           /\ exists srs,
                steps_executed er' = Some (srs0 ++ srs)
                /\ map sr_index srs = seq index (length rest)
                /\ map sr_step srs = map name rest
       | Return (Returned er') =>
           (history w' = history w \/ history w' = history w ++ [er'])
           /\ created_at er' = Some SERVER_TIMESTAMP
           /\ exists srs k,
                steps_executed er' = Some (srs0 ++ srs)
                /\ failed_step_index er' = Some k
                /\ S k = (index + length srs)%nat
                /\ map sr_index srs = seq index (length srs)
                /\ map sr_step srs = map name (take (length srs) rest)
                /\ Forall (fun j => (j <= k)%nat) (runs_in evs)
       end.
Proof.
  induction rest as [|step rest IH]; intros index er srs0 w Hsrs0 Hlen.
  - exists (Return (Fell_through er)), w, []. rewrite app_nil_r.
    split_and!; try reflexivity; [apply SSorted_nil|apply Forall_nil_2|].
    exists []. rewrite app_nil_r. split_and!; auto.
  - cbn [for_each_step]. unfold bind at 1.
    destruct lss as [|z|?|];
      try (exists (Raise (Exception "'<=' not supported between instances of 'int' and a non-number")), w, [];
           rewrite app_nil_r;
           split_and!;
             [reflexivity|reflexivity|apply SSorted_nil
             |apply Forall_nil_2|simpl; lia|intros; reflexivity
             |reflexivity|intros; reflexivity]).
    cbn [int_le ret].
    destruct (Z.leb_spec (Z.of_nat index) z) as [Hskip|Hrun].
    + (* skipped *)
      destruct (IH (S index) (append_step er (skipped step index))
                  (srs0 ++ [skipped step index]) w)
        as (out & w' & evs & Hrun & Hlog & Hsorted & Hbounds & Hcount & Hkeys & Hout).
      { apply steps_executed_append_step, Hsrs0. }
      { simpl in Hlen. lia. }
      exists out, w', evs. split_and!; try assumption.
      * eapply Forall_impl; [exact Hbounds|]. intros j Hj. simpl in *. lia.
      * simpl. lia.
      * destruct out as [[er'|er']|e|b]; [| |exact Hout|exact Hout].
        -- destruct Hout as (Hh & Hka & Hc & Hfi & srs & H1 & H2 & H3).
           split_and!; try assumption.
           exists (skipped step index :: srs). split_and!.
           ++ rewrite H1, <- app_assoc. reflexivity.
           ++ simpl. rewrite H2. reflexivity.
           ++ simpl. rewrite H3. reflexivity.
        -- destruct Hout as (Hh & Hc & srs & k & H1 & H2 & H3 & H4 & H5 & H6).
           split_and!; try assumption.
           exists (skipped step index :: srs), k. split_and!; try assumption.
           ++ rewrite H1, <- app_assoc. reflexivity.
           ++ simpl. lia.
           ++ simpl. rewrite H4. reflexivity.
           ++ simpl. rewrite H5. reflexivity.
    + (* attempted *)
      unfold bind at 1. unfold _execute_step_with_retry.
      destruct (attempts_from_trace self step index (Z.to_nat (max_retries self)) 0 w)
        as (out1 & w1 & evs1 & -> & Hres).
      assert (Hfacts : log w1 = log w ++ evs1 /\ history w1 = history w
                /\ Forall (eq index) (runs_in evs1)
                /\ (length (runs_in evs1) <= Z.to_nat (max_retries self))%nat
                /\ forall key, key ∉ attempt_keys ->
                     persisted key w1 = persisted key w).
      { destruct out1 as [sr|e|b]; [|contradiction|].
        - destruct Hres as (Hl1 & Hh1 & _ & _ & Hf1 & _ & Hr1 & Hk1 & _).
          split_and!; assumption.
        - destruct Hres as (Hl1 & Hh1 & Hf1 & _ & Hr1 & Hk1 & _).
          split_and!; assumption. }
      destruct Hfacts as (Hl1 & Hh1 & Hf1 & Hr1 & Hk1).
      assert (Hb1 : Forall (fun j => (index <= j < index + length (step :: rest))%nat)
                      (runs_in evs1)).
      { eapply Forall_impl; [exact Hf1|]. intros j <-. simpl. lia. }
      assert (Hs1 : StronglySorted le (runs_in evs1)).
      { rewrite <- (app_nil_r (runs_in evs1)).
        apply (sorted_runs_app index); [assumption|constructor|constructor]. }
      assert (Hcount1 : (length (runs_in evs1)
                        <= length (step :: rest) * Z.to_nat (max_retries self))%nat).
      { simpl. lia. }
      destruct out1 as [sr|e|b]; [|contradiction|].
      2:{ exists (Raise_base b), w1, evs1.
          split_and!; try reflexivity; try assumption.
          intros key Hkey. apply Hk1, loop_keys_attempt_keys, Hkey. }
      destruct Hres as (_ & _ & Hn1 & Hi1 & _ & Hc1 & _).
      destruct (decide (sr_status sr = "FAILED")) as [Hfailed|Hok].
      * unfold bind at 1, logger_error_step_failed at 1.
        set (ev := step_failed_initiating_compensation (name step) index
                     (sr_error sr)).
        set (w1' := record ev w1).
        assert (Hruns : forall j evs3, runs_in evs3 = [] ->
                  runs_in (evs1 ++ ev :: map compensate_called
                                           (rev (seq j (index - j))) ++ evs3)
                  = runs_in evs1).
        { intros j evs3 H3. subst ev. rewrite runs_in_sweep, H3.
          apply app_nil_r. }
        assert (Hleq : Forall (fun j => (j <= index)%nat) (runs_in evs1)).
        { eapply Forall_impl; [exact Hf1|]. intros j <-. lia. }
        unfold bind at 1.
        destruct (_run_compensations_sweep self index w1')
          as [(w2 & -> & Hl2' & Hd2 & Hh2 & Hf2 & _)
             |(b & w2 & j & stepj & -> & _ & Hl2' & Hd2 & Hh2 & _)];
          [simpl in Hlen; lia| |].
        2:{ exists (Raise_base b), w2,
              (evs1 ++ ev :: map compensate_called (rev (seq j (index - j)))
                    ++ []).
            split_and!; try reflexivity.
            - rewrite Hl2'. subst w1'. simpl.
              rewrite Hl1, app_nil_r, <- !app_assoc. reflexivity.
            - rewrite Hruns by reflexivity. exact Hs1.
            - rewrite Hruns by reflexivity. exact Hb1.
            - rewrite Hruns by reflexivity. exact Hcount1.
            - intros key Hkey. unfold persisted. rewrite Hd2.
              apply Hk1, loop_keys_attempt_keys, Hkey.
            - rewrite Hh2. exact Hh1.
            - intros key Hkey. unfold persisted. rewrite Hd2.
              apply Hk1, Hkey. }
        assert (Hl2 : log w2 = log w1 ++ ev :: map compensate_called
                                                 (rev (seq 0 (index - 0)))).
        { rewrite Hl2', Nat.sub_0_r. subst w1'. simpl. rewrite <- app_assoc.
          reflexivity. }
        assert (Hh2' : history w2 = history w1) by exact Hh2.
        clear Hh2. rename Hh2' into Hh2.
        unfold bind at 1, utcnow at 1. unfold bind at 1.
        set (d := <["status" := VStr "FAILED"]> _).
        assert (Hkeys2 : forall key, key ∉ loop_keys ->
                  persisted key w2 = persisted key w).
        { intros key Hkey. unfold persisted. rewrite Hd2.
          apply Hk1, loop_keys_attempt_keys, Hkey. }
        destruct (update_state_cases d w2) as [->|[e3 ->]].
        -- unfold bind at 1.
           set (w3 := set_faults _ (written (stamp d) w2)).
           set (r := mark_failed (append_step er sr) step index).
           assert (Hsave : exists w4,
                     save_execution_to_history r w3 = (Return (stamped r), w4)
                     /\ log w4 = log w3 ++ [add_called (stamped r)]
                     /\ doc w4 = doc w3
                     /\ (history w4 = history w3
                         \/ history w4 = history w3 ++ [stamped r])).
           { unfold_repo. destruct w3 as [en3 d3 h3 f3 l3]; simpl.
             destruct f3 as [|[x|] f3]; simpl; eauto 10. }
           destruct Hsave as (w4 & -> & Hl4 & Hd4 & Hh4).
           exists (Return (Returned (stamped r))), w4,
             (evs1 ++ ev :: map compensate_called (rev (seq 0 (index - 0)))
                   ++ [set_called (stamp d) true; add_called (stamped r)]).
           split_and!; try reflexivity.
           ++ rewrite Hl4. subst w3. simpl. rewrite Hl2, Hl1, <- !app_assoc.
              reflexivity.
           ++ rewrite Hruns by reflexivity. exact Hs1.
           ++ rewrite Hruns by reflexivity. exact Hb1.
           ++ rewrite Hruns by reflexivity. exact Hcount1.
           ++ intros key Hkey. unfold persisted at 1. rewrite Hd4.
              fold (persisted key w3). subst w3.
              rewrite persisted_set_faults, persisted_written_other
                by (apply failed_fields_other, Hkey).
              apply Hkeys2, Hkey.
           ++ assert (Hh3 : history w3 = history w)
                by (subst w3; simpl; rewrite Hh2; exact Hh1).
              rewrite <- Hh3. exact Hh4.
           ++ exists [sr], index. subst r. simpl. rewrite Hsrs0.
              split_and!; try reflexivity.
              ** lia.
              ** rewrite Hi1. reflexivity.
              ** rewrite Hn1. reflexivity.
              ** rewrite Hruns by reflexivity. exact Hleq.
        -- exists (Raise e3), (set_faults (tail (faults w2))
                                (record (set_called (stamp d) true) w2)),
             (evs1 ++ ev :: map compensate_called (rev (seq 0 (index - 0)))
                   ++ [set_called (stamp d) true]).
           split_and!; try reflexivity.
           ++ simpl. rewrite Hl2, Hl1, <- !app_assoc. reflexivity.
           ++ rewrite Hruns by reflexivity. exact Hs1.
           ++ rewrite Hruns by reflexivity. exact Hb1.
           ++ rewrite Hruns by reflexivity. exact Hcount1.
           ++ intros key Hkey. apply Hkeys2, Hkey.
           ++ simpl. rewrite Hh2. exact Hh1.
           ++ intros key Hkey. unfold persisted. simpl. rewrite Hd2.
              apply Hk1, Hkey.
      * destruct (IH (S index) (append_step er sr) (srs0 ++ [sr]) w1)
          as (out & w' & evs & Hrun' & Hlog & Hsorted & Hbounds & Hcount & Hkeys & Hout).
        { apply steps_executed_append_step, Hsrs0. }
        { simpl in Hlen. lia. }
        exists out, w', (evs1 ++ evs). split_and!.
        -- exact Hrun'.
        -- rewrite Hlog, Hl1, <- app_assoc. reflexivity.
        -- rewrite runs_in_app. apply (sorted_runs_app index); try assumption.
           eapply Forall_impl; [exact Hbounds|]. intros j Hj. simpl in Hj. lia.
        -- rewrite runs_in_app. apply Forall_app. split; [exact Hb1|].
           eapply Forall_impl; [exact Hbounds|]. intros j Hj. simpl in *. lia.
        -- rewrite runs_in_app, length_app. simpl. lia.
        -- intros key Hkey. rewrite (Hkeys key Hkey).
           apply Hk1, loop_keys_attempt_keys, Hkey.
        -- destruct out as [[er'|er']|e|b].
           ++ destruct Hout as (Hh & Hka & Hc & Hfi & srs & H1 & H2 & H3).
              split_and!; [congruence| |assumption|assumption|].
              { intros key Hkey. rewrite (Hka key Hkey). apply Hk1, Hkey. }
              exists (sr :: srs). split_and!.
              ** rewrite H1, <- app_assoc. reflexivity.
              ** simpl. rewrite H2, Hi1. reflexivity.
              ** simpl. rewrite H3, Hn1. reflexivity.
           ++ destruct Hout as (Hh & Hc & srs & k & H1 & H2 & H3 & H4 & H5 & H6).
              split_and!; [rewrite <- Hh1; exact Hh|assumption|].
              exists (sr :: srs), k. split_and!; try assumption.
              ** rewrite H1, <- app_assoc. reflexivity.
              ** simpl. lia.
              ** simpl. rewrite H4, Hi1. reflexivity.
              ** simpl. rewrite H5, Hn1. reflexivity.
              ** rewrite runs_in_app. apply Forall_app. split; [|exact H6].
                 eapply Forall_impl; [exact Hf1|]. intros j <-. lia.
           ++ destruct Hout as [Hh Hka]. split; [congruence|].
              intros key Hkey. rewrite (Hka key Hkey). apply Hk1, Hkey.
           ++ destruct Hout as [Hh Hka]. split; [congruence|].
              intros key Hkey. rewrite (Hka key Hkey). apply Hk1, Hkey.
Qed.

Lemma retry_count_untouched : "retry_count" ∉ loop_keys.
Proof.
  unfold loop_keys, attempt_keys. cbn [app].
  rewrite !elem_of_cons, elem_of_nil. intros H.
  repeat (destruct H as [H|H]; [discriminate|]). exact H.
Qed.

Lemma started_at_untouched : "started_at" ∉ loop_keys.
Proof.
  unfold loop_keys, attempt_keys. cbn [app].
  rewrite !elem_of_cons, elem_of_nil. intros H.
  repeat (destruct H as [H|H]; [discriminate|]). exact H.
Qed.

(** A run of [execute] under any behaviour of the store and of the steps,
    given the state read at its start. *)
Lemma execute_trace self retry w state w0 :
  get_state w = (Return state, w0) ->
  exists out w' evs,
    execute self retry w = (out, w')
    /\ log w' = log w ++ evs
    /\ StronglySorted le (runs_in evs)
    /\ Forall (fun j => (j < length (steps self))%nat) (runs_in evs)
    /\ (length (runs_in evs)
        <= length (steps self) * Z.to_nat (max_retries self))%nat
    /\ match out with
       | Raise _ | Raise_base _ => history w' = history w
       | Return r =>
           (r = already_in_progress /\ evs = []
            /\ history w' = history w /\ doc w' = doc w)
           \/ (created_at r = Some SERVER_TIMESTAMP
               /\ (history w' = history w \/ history w' = history w ++ [r])
               /\ persisted "retry_count" w'
                  = Some (if retry
                          then default (VInt 0) (state !! "retry_count")
                          else VInt 0)
               /\ persisted "started_at" w'
                  = Some (VStr (utcnow_isoformat (env w)))
               /\ exists srs,
                    steps_executed r = Some srs
                    /\ map sr_index srs = seq 0 (length srs)
                    /\ map sr_step srs
                       = map name (take (length srs) (steps self))
                    /\ (forall k, failed_step_index r = Some k ->
                          S k = length srs
                          /\ Forall (fun j => (j <= k)%nat) (runs_in evs))
                    /\ (failed_step_index r = None ->
                          length srs = length (steps self)))
       end.
Proof.
  intros Hget.
  assert (Hw0 : log w0 = log w /\ history w0 = history w /\ doc w0 = doc w
                /\ env w0 = env w).
  { destruct (get_state_cases w) as (s0 & Hs0 & _). rewrite Hget in Hs0.
    injection Hs0 as _ ->. split_and!; reflexivity. }
  destruct Hw0 as (Hl0 & Hh0 & Hd0 & He0).
  unfold execute. unfold bind at 1. rewrite Hget.
  destruct (bool_decide _ && negb retry) eqn:Hguard.
  { exists (Return already_in_progress), w0, []. rewrite app_nil_r.
    split_and!; try reflexivity; try assumption;
      [apply SSorted_nil|apply Forall_nil_2|simpl; lia|].
    left. split_and!; try reflexivity; assumption. }
  set (lss := default (VInt (-1)) (state !! "last_success_step")).
  set (rc := if retry then default (VInt 0) (state !! "retry_count") else VInt 0).
  unfold bind at 1, utcnow at 1. unfold bind at 1.
  set (d1 := <["status" := VStr "IN_PROGRESS"]> _).
  destruct (update_state_cases d1 w0) as [->|[e1 ->]].
  2:{ eexists (Raise e1), _, [_]. split_and!; try reflexivity.
      - simpl. rewrite Hl0. reflexivity.
      - apply SSorted_nil.
      - apply Forall_nil_2.
      - simpl. lia.
      - exact Hh0. }
  set (w1 := set_faults _ (written (stamp d1) w0)).
  assert (Hrc1 : persisted "retry_count" w1 = Some rc).
  { subst w1 d1. rewrite persisted_set_faults, persisted_written. reflexivity. }
  assert (Hst1 : persisted "started_at" w1
                 = Some (VStr (utcnow_isoformat (env w)))).
  { subst w1 d1. rewrite persisted_set_faults, persisted_written.
    rewrite He0. reflexivity. }
  assert (Hl1 : log w1 = log w ++ [set_called (stamp d1) true]).
  { subst w1. simpl. rewrite Hl0. reflexivity. }
  assert (Hh1 : history w1 = history w) by exact Hh0.
  clearbody w1.
  unfold bind at 1.
  destruct (for_each_step_trace self lss (steps self) 0 new_execution_result []
              w1 eq_refl eq_refl)
    as (out2 & w2 & evs2 & -> & Hl2 & Hsorted & Hbounds & Hcount & Hkeys & Hout2).
  assert (Hb : Forall (fun j => (j < length (steps self))%nat) (runs_in evs2)).
  { eapply Forall_impl; [exact Hbounds|]. intros j Hj. simpl in Hj. lia. }
  assert (Hrc2 : persisted "retry_count" w2 = Some rc)
    by (rewrite (Hkeys _ retry_count_untouched); exact Hrc1).
  assert (Hst2 : persisted "started_at" w2
                 = Some (VStr (utcnow_isoformat (env w))))
    by (rewrite (Hkeys _ started_at_untouched); exact Hst1).
  assert (Hruns : forall evs3, runs_in evs3 = [] ->
            runs_in ([set_called (stamp d1) true] ++ evs2 ++ evs3)
            = runs_in evs2).
  { intros evs3 H3. rewrite !runs_in_app, H3. simpl. apply app_nil_r. }
  destruct out2 as [[er|er]|e2|b2].
  - (* the loop ran off its end *)
    destruct Hout2 as (Hh2 & Hka2 & Hc2 & Hfi & srs & H1 & H2 & H3).
    unfold bind at 1, utcnow at 1. unfold bind at 1.
    set (d3 := <["status" := VStr "SUCCESS"]> _).
    destruct (update_state_cases d3 w2) as [->|[e3 ->]].
    + set (w3 := set_faults _ (written (stamp d3) w2)).
      destruct (save_execution_to_history_cases er w3)
        as (w4 & -> & Hl4 & Hd4 & Hh4).
      exists (Return (stamped er)), w4,
        ([set_called (stamp d1) true] ++ evs2
           ++ [set_called (stamp d3) true; add_called (stamped er)]).
      split_and!; try reflexivity.
      * rewrite Hl4. subst w3. simpl. rewrite Hl2, Hl1, <- !app_assoc.
        reflexivity.
      * rewrite Hruns by reflexivity. exact Hsorted.
      * rewrite Hruns by reflexivity. exact Hb.
      * rewrite Hruns by reflexivity. exact Hcount.
      * right. split_and!; try reflexivity.
        -- assert (Hh3 : history w3 = history w)
             by (subst w3; simpl; rewrite Hh2; exact Hh1).
           rewrite <- Hh3. exact Hh4.
        -- unfold persisted. rewrite Hd4. fold (persisted "retry_count" w3).
           subst w3. rewrite persisted_set_faults, persisted_written.
           exact Hrc2.
        -- unfold persisted. rewrite Hd4. fold (persisted "started_at" w3).
           subst w3. rewrite persisted_set_faults, persisted_written.
           exact Hst2.
        -- exists srs. simpl in H1. simpl.
           assert (Hlen : length srs = length (steps self)).
           { rewrite <- (length_map sr_index), H2, length_seq. reflexivity. }
           split_and!.
           ++ exact H1.
           ++ rewrite H2, Hlen. reflexivity.
           ++ rewrite H3, Hlen, firstn_all. reflexivity.
           ++ intros k Hk. rewrite Hfi in Hk. discriminate.
           ++ intros _. exact Hlen.
    + eexists (Raise e3), _,
        ([set_called (stamp d1) true] ++ evs2 ++ [set_called (stamp d3) true]).
      split_and!; try reflexivity.
      * simpl. rewrite Hl2, Hl1, <- !app_assoc. reflexivity.
      * rewrite Hruns by reflexivity. exact Hsorted.
      * rewrite Hruns by reflexivity. exact Hb.
      * rewrite Hruns by reflexivity. exact Hcount.
      * simpl. rewrite Hh2. exact Hh1.
  - (* a step failed *)
    destruct Hout2 as (Hh2 & Hc2 & srs & k & H1 & H2 & H3 & H4 & H5 & H6).
    exists (Return er), w2, ([set_called (stamp d1) true] ++ evs2 ++ []).
    split_and!; try reflexivity.
    + rewrite Hl2, Hl1, app_nil_r, <- !app_assoc. reflexivity.
    + rewrite Hruns by reflexivity. exact Hsorted.
    + rewrite Hruns by reflexivity. exact Hb.
    + rewrite Hruns by reflexivity. exact Hcount.
    + right. split_and!; try assumption.
      * rewrite <- Hh1. exact Hh2.
      * exists srs. simpl in H1. split_and!; try assumption.
        -- intros k' Hk'. rewrite H2 in Hk'. injection Hk' as <-.
           split; [simpl in H3; lia|].
           rewrite Hruns by reflexivity. exact H6.
        -- intros Hnone. congruence.
  - exists (Raise e2), w2, ([set_called (stamp d1) true] ++ evs2 ++ []).
    split_and!; try reflexivity.
    + rewrite Hl2, Hl1, app_nil_r, <- !app_assoc. reflexivity.
    + rewrite Hruns by reflexivity. exact Hsorted.
    + rewrite Hruns by reflexivity. exact Hb.
    + rewrite Hruns by reflexivity. exact Hcount.
    + rewrite <- Hh1. exact (proj1 Hout2).
  - exists (Raise_base b2), w2, ([set_called (stamp d1) true] ++ evs2 ++ []).
    split_and!; try reflexivity.
    + rewrite Hl2, Hl1, app_nil_r, <- !app_assoc. reflexivity.
    + rewrite Hruns by reflexivity. exact Hsorted.
    + rewrite Hruns by reflexivity. exact Hb.
    + rewrite Hruns by reflexivity. exact Hcount.
    + rewrite <- Hh1. exact (proj1 Hout2).
Qed.

(** ** A run in which no step fails *)


Lemma success_fields_other (now : string) (last : Z) :
  stamp (<["status" := VStr "SUCCESS"]>
        (<["completed_at" := VStr now]>
        (<["last_success_step" := VInt last]> ∅))) !! "status"
  = Some (VStr "SUCCESS").
Proof. reflexivity. Qed.


(** X6: [execute] only ever appends to the history, and only its own
    result: when it raises, the history is as before; when it returns, the
    history is as before (the guard, or an append the store refused) or has
    grown by exactly the returned dictionary, which carries [created_at]. *)
Theorem X6_history_grows_by_the_result_only self retry w out w' :
  execute self retry w = (out, w') ->
  match out with
  | Raise _ | Raise_base _ => history w' = history w
  | Return r =>
      history w' = history w
      \/ (history w' = history w ++ [r]
          /\ created_at r = Some SERVER_TIMESTAMP)
  end.
Proof.
  intros Hexec.
  destruct (get_state_cases w) as (state & Hget & _).
  destruct (execute_trace self retry w state _ Hget)
    as (out0 & w0 & evs & Hexec0 & _ & _ & _ & _ & Hout).
  rewrite Hexec in Hexec0. injection Hexec0 as <- <-.
  destruct out as [r|e|b]; [|exact Hout|exact Hout].
  destruct Hout as [(_ & _ & Hh & _)|(Hc & [Hh|Hh] & _)]; auto.
Qed.

(** X7: whatever the store and the steps do, [execute] awaits [run()] on
    the steps in their declared order (a step is finished with before a
    later one is started), only on steps of the list, at most
    [len(steps) * max_retries] times in all, and once a step has failed it
    awaits [run()] on no later step. *)
Theorem X7_runs_in_order_and_within_budget self retry w out w' :
  execute self retry w = (out, w') ->
  exists evs,
    log w' = log w ++ evs
    /\ StronglySorted le (runs_in evs)
    /\ Forall (fun j => (j < length (steps self))%nat) (runs_in evs)
    /\ (length (runs_in evs)
        <= length (steps self) * Z.to_nat (max_retries self))%nat
    /\ forall r k,
         out = Return r -> failed_step_index r = Some k ->
         Forall (fun j => (j <= k)%nat) (runs_in evs).
Proof.
  intros Hexec.
  destruct (get_state_cases w) as (state & Hget & _).
  destruct (execute_trace self retry w state _ Hget)
    as (out0 & w0 & evs & Hexec0 & Hlog & Hsorted & Hb & Hcount & Hout).
  rewrite Hexec in Hexec0. injection Hexec0 as <- <-.
  exists evs. split_and!; try assumption.
  intros r k -> Hk.
  destruct Hout as [(-> & _)|(_ & _ & _ & _ & srs & _ & _ & _ & Hfail & _)].
  - discriminate.
  - apply (Hfail k Hk).
Qed.

(** X8: the step results of a run are numbered 0, 1, 2, ... and named
    after the steps in their order; a run that failed at step [k] has
    results for the steps 0..k only, any other run one for each step. *)
Theorem X8_step_results_follow_the_steps self retry w r w' srs :
  execute self retry w = (Return r, w') ->
  steps_executed r = Some srs ->
  map sr_index srs = seq 0 (length srs)
  /\ map sr_step srs = map name (take (length srs) (steps self))
  /\ (length srs <= length (steps self))%nat
  /\ (forall k, failed_step_index r = Some k -> S k = length srs)
  /\ (failed_step_index r = None -> length srs = length (steps self))
  /\ created_at r = Some SERVER_TIMESTAMP.
Proof.
  intros Hexec Hsrs.
  destruct (get_state_cases w) as (state & Hget & _).
  destruct (execute_trace self retry w state _ Hget)
    as (out0 & w0 & evs & Hexec0 & _ & _ & _ & _ & Hout).
  rewrite Hexec in Hexec0. injection Hexec0 as <- <-.
  destruct Hout as [(-> & _)|(Hc & _ & _ & _ & srs' & H1 & H2 & H3 & Hfail & Hnone)].
  - discriminate.
  - rewrite Hsrs in H1. injection H1 as <-.
    split_and!; try assumption.
    + apply (f_equal (@length string)) in H3.
      rewrite !length_map, length_take in H3. lia.
    + intros k Hk. apply (Hfail k Hk).
Qed.

(** X9: [retry_count] is carried, never counted: a run that gets past the
    guard stores 0 when [retry] is false and, when [retry] is true, the value
    it read (0 if there was none), and nothing in the run changes it
    afterwards; [started_at] is the time at which the run began. *)
Theorem X9_retry_count_is_carried self retry w state w0 r w' :
  get_state w = (Return state, w0) ->
  execute self retry w = (Return r, w') ->
  er_status r <> "ALREADY_IN_PROGRESS" ->
  persisted "retry_count" w'
  = Some (if retry then default (VInt 0) (state !! "retry_count") else VInt 0)
  /\ persisted "started_at" w' = Some (VStr (utcnow_isoformat (env w))).
Proof.
  intros Hget Hexec Hguard.
  destruct (execute_trace self retry w state _ Hget)
    as (out0 & w1 & evs & Hexec0 & _ & _ & _ & _ & Hout).
  rewrite Hexec in Hexec0. injection Hexec0 as <- <-.
  destruct Hout as [(-> & _)|(_ & _ & Hrc & Hst & _)].
  - exfalso. apply Hguard. reflexivity.
  - split; assumption.
Qed.

(** X10: the return value of [execute] tells how the run went.  It is the
    guard's ALREADY_IN_PROGRESS only for [retry = False]; otherwise it is
    SUCCESS with no failed step and no FAILED step result, or FAILED, and
    then [failed_step_index] is the position of the last step result, which
    is the only FAILED one, and [failed_step] is the name of the step at that
    position of the list. *)
Theorem X10_status_of_the_result self retry w r w' :
  execute self retry w = (Return r, w') ->
  (er_status r = "ALREADY_IN_PROGRESS" /\ retry = false
   /\ steps_executed r = None)
  \/ (er_status r = "SUCCESS"
      /\ failed_step r = None /\ failed_step_index r = None
      /\ exists srs,
           steps_executed r = Some srs
           /\ Forall (fun sr => sr_status sr <> "FAILED") srs)
  \/ (er_status r = "FAILED"
      /\ exists srs sr k step,
           steps_executed r = Some (srs ++ [sr])
           /\ Forall (fun sr => sr_status sr <> "FAILED") srs
           /\ sr_status sr = "FAILED"
           /\ failed_step_index r = Some k
           /\ k = length srs
           /\ steps self !! k = Some step
           /\ failed_step r = Some (name step)).
Proof.
  intros Hexec.
  destruct (get_state_cases w) as (state & Hget & _).
  destruct (execute_any self retry w state _ Hget)
    as (out0 & w0 & evs & Hexec0 & _ & _ & _ & _ & Hout).
  destruct (execute_trace self retry w state _ Hget)
    as (out1 & w1 & evs1 & Hexec1 & _ & _ & _ & _ & Hout1).
  rewrite Hexec in Hexec0, Hexec1.
  injection Hexec0 as <- <-. injection Hexec1 as <- <-.
  destruct Hout as [(-> & _ & ->)
                   |[(srs & H1 & H2 & H3 & H4 & H5 & H6 & H7 & _)
                    |(srs & sr & H1 & H2 & H3 & H4 & H5 & H6 & H7 & _)]].
  - left. split_and!; reflexivity.
  - right. left. split_and!; try assumption. eauto.
  - right. right. split; [assumption|].
    destruct Hout1 as [(-> & _)|(_ & _ & _ & _ & srs' & T1 & T2 & T3 & Tfail & _)];
      [discriminate|].
    rewrite H1 in T1. injection T1 as <-.
    destruct (Tfail _ H4) as [Hk _].
    rewrite length_app in Hk. simpl in Hk.
    assert (Hidx : sr_index sr = length srs) by lia.
    assert (Hname : exists step, steps self !! length srs = Some step
                                 /\ sr_step sr = name step).
    { apply (f_equal (fun l => l !! length srs)) in T3.
      rewrite list_lookup_fmap, lookup_app_r, Nat.sub_diag in T3 by lia.
      simpl in T3. symmetry in T3.
      rewrite list_lookup_fmap in T3.
      destruct (take (length (srs ++ [sr])) (steps self) !! length srs)
        as [step|] eqn:Hstep; [|discriminate].
      simpl in T3. injection T3 as T3.
      apply lookup_take_Some in Hstep. destruct Hstep as [Hstep _].
      exists step. split; [exact Hstep|symmetry; exact T3]. }
    destruct Hname as (step & Hstep & Hname).
    exists srs, sr, (length srs), step.
    split_and!; try assumption; try reflexivity.
    + rewrite H4, Hidx. reflexivity.
    + rewrite H3, Hname. reflexivity.
Qed.

(** ** Where a failed run leaves the workflow *)

Lemma for_each_step_resume_point self z : forall rest index er srs0 w er' w',
  healthy w ->
  (index + length rest = length (steps self))%nat ->
  steps_executed er = Some srs0 ->
  checkpoint w = (if Z.of_nat index <=? z + 1 then z else Z.of_nat index - 1) ->
  for_each_step self (VInt z) index rest er w = (Return (Returned er'), w') ->
  exists srs sr k,
    steps_executed er' = Some (srs0 ++ srs ++ [sr])
    /\ failed_step_index er' = Some k
    /\ z < Z.of_nat k
    /\ checkpoint w' = Z.of_nat k - 1
    /\ persisted "status" w' = Some (VStr "FAILED")
    /\ persisted "error" w' = Some (opt_str (sr_error sr))
    /\ persisted "failed_step" w' = Some (VStr (sr_step sr))
    /\ (exists t, persisted "completed_at" w' = Some (VStr t))
    /\ history w' = history w ++ [er'].
Proof.
  induction rest as [|step rest IH]; intros index er srs0 w er' w' Hw Hlen Hsrs0 Hcp.
  - intros [=].
  - cbn [for_each_step]. unfold bind at 1. cbn [int_le ret].
    destruct (Z.leb_spec (Z.of_nat index) z) as [Hskip|Hrun].
    + intros Hrest.
      destruct (IH (S index) (append_step er (skipped step index))
                  (srs0 ++ [skipped step index]) w er' w' Hw)
        as (srs & sr & k & H1 & H2 & H3 & H4 & H5 & H6 & H7 & H8 & H9);
        [simpl in Hlen; lia|apply steps_executed_append_step, Hsrs0| |exact Hrest|].
      { rewrite Hcp.
        destruct (Z.leb_spec (Z.of_nat index) (z + 1)),
                 (Z.leb_spec (Z.of_nat (S index)) (z + 1)); lia. }
      exists (skipped step index :: srs), sr, k. split_and!; try assumption.
      rewrite H1, <- app_assoc. reflexivity.
    + unfold bind at 1. unfold _execute_step_with_retry.
      destruct (attempts_from_healthy self step index (Z.to_nat (max_retries self)) 0 w Hw)
        as [(sr & w1 & evs1 & -> & Hh1 & Hhist1 & Hl1 & Hi1 & Hn1 & Hc1 & Hr1 & Hcase)
           |(b & w1 & e & -> & _)]; [|intros [=]].
      destruct (decide (sr_status sr = "FAILED")) as [Hfailed|Hnot].
      * destruct Hcase as [(Hs & _)|(_ & Hp1 & _)]; [congruence|].
        unfold bind at 1, logger_error_step_failed at 1.
        set (w1' := record _ w1).
        unfold bind at 1.
        destruct (_run_compensations_sweep self index w1')
          as [(w2 & -> & Hl2 & Hd2 & Hhist2 & Hf2 & _)
             |(b & w2 & j & stepj & -> & _)];
          [simpl in Hlen; lia| |intros [=]].
        assert (Hh2 : healthy w2) by (unfold healthy; rewrite Hf2; exact Hh1).
        unfold bind at 1, utcnow at 1. unfold bind at 1.
        rewrite update_state_healthy by assumption.
        unfold bind at 1.
        rewrite save_execution_to_history_healthy by assumption.
        intros [= <- <-].
        exists [], sr, index. simpl app.
        assert (Hp : persisted "last_success_step"
                       (written
                          (stamp
                             (<["status" := VStr "FAILED"]>
                             (<["error" := opt_str (sr_error sr)]>
                             (<["failed_step" := VStr (name step)]>
                             (<["completed_at" := VStr (utcnow_isoformat (env w2))]>
                                ∅)))))
                          w2)
                     = persisted "last_success_step" w).
        { rewrite persisted_written. simpl. unfold persisted. rewrite Hd2.
          exact Hp1. }
        split_and!.
        -- simpl. rewrite Hsrs0. reflexivity.
        -- reflexivity.
        -- exact Hrun.
        -- unfold checkpoint.
           rewrite persisted_set_history, persisted_record, Hp.
           fold (checkpoint w). rewrite Hcp.
           destruct (Z.leb_spec (Z.of_nat index) (z + 1)); lia.
        -- rewrite persisted_set_history, persisted_record, persisted_written.
           reflexivity.
        -- rewrite persisted_set_history, persisted_record, persisted_written.
           reflexivity.
        -- rewrite persisted_set_history, persisted_record, persisted_written.
           rewrite Hn1. reflexivity.
        -- eexists.
           rewrite persisted_set_history, persisted_record, persisted_written.
           reflexivity.
        -- simpl. rewrite Hhist2. subst w1'. simpl. rewrite Hhist1.
           reflexivity.
      * destruct Hcase as [(Hs & Hp1 & _)|(Hs & _)]; [|congruence].
        intros Hrest.
        destruct (IH (S index) (append_step er sr) (srs0 ++ [sr]) w1 er' w' Hh1)
          as (srs & sr' & k & H1 & H2 & H3 & H4 & H5 & H6 & H7 & H8 & H9);
          [simpl in Hlen; lia|apply steps_executed_append_step, Hsrs0| |exact Hrest|].
        { unfold checkpoint. rewrite Hp1.
          destruct (Z.leb_spec (Z.of_nat (S index)) (z + 1)); lia. }
        exists (sr :: srs), sr', k. split_and!; try assumption.
        -- rewrite H1, <- app_assoc. reflexivity.
        -- rewrite <- Hhist1. exact H9.
Qed.

(** X11: on a store that answers, a run that fails at step [k] leaves the
    checkpoint at [k - 1], so that the next run resumes at the failed step;
    [k] lies above the checkpoint the run started from.  The stored state has
    [status = FAILED], the error message of the failed step result, the name
    of the failed step and a completion time, and the history has grown by
    the returned result. *)
Theorem X11_failed_run_leaves_the_resume_point self retry w r w' k :
  healthy w ->
  checkpoint_ok self w ->
  -1 <= checkpoint w ->
  execute self retry w = (Return r, w') ->
  failed_step_index r = Some k ->
  checkpoint w < Z.of_nat k
  /\ checkpoint w' = Z.of_nat k - 1
  /\ persisted "status" w' = Some (VStr "FAILED")
  /\ (exists srs sr,
        steps_executed r = Some (srs ++ [sr])
        /\ persisted "error" w' = Some (opt_str (sr_error sr))
        /\ persisted "failed_step" w' = Some (VStr (sr_step sr)))
  /\ (exists t, persisted "completed_at" w' = Some (VStr t))
  /\ history w' = history w ++ [r].
Proof.
  intros Hw Hok Hmin Hexec Hk.
  unfold execute in Hexec. unfold bind at 1 in Hexec.
  rewrite (get_state_healthy _ Hw) in Hexec.
  destruct (bool_decide _ && negb retry).
  { injection Hexec as <- <-. discriminate. }
  rewrite (last_success_step_read self w Hok) in Hexec.
  unfold bind at 1, utcnow at 1 in Hexec. unfold bind at 1 in Hexec.
  rewrite update_state_healthy in Hexec by assumption.
  match type of Hexec with
  | context [written ?d w] => set (d1 := d) in Hexec; set (w1 := written d1 w) in Hexec
  end.
  assert (Hp1 : persisted "last_success_step" w1 = persisted "last_success_step" w).
  { subst w1 d1. rewrite persisted_written. destruct retry; reflexivity. }
  unfold bind at 1 in Hexec.
  destruct (for_each_step self (VInt (checkpoint w)) 0 (steps self)
              new_execution_result w1) as [out w2] eqn:Hloop.
  destruct out as [[er|er]|e|b]; [| |discriminate|discriminate].
  - exfalso.
    destruct (for_each_step_any self (VInt (checkpoint w)) (steps self) 0
                new_execution_result [] w1 eq_refl eq_refl)
      as (out & w2' & evs & Hloop' & _ & _ & _ & _ & Hout).
    rewrite Hloop in Hloop'. injection Hloop' as <- <-.
    destruct Hout as (srs & _ & _ & _ & Hfi & _).
    unfold bind at 1, utcnow at 1 in Hexec. unfold bind at 1 in Hexec.
    destruct (update_state_cases
                (<["status" := VStr "SUCCESS"]>
                (<["completed_at" := VStr (utcnow_isoformat (env w2))]>
                (<["last_success_step" :=
                     VInt (Z.of_nat (length (steps self)) - 1)]> ∅))) w2)
      as [Hu|[e3 Hu]]; rewrite Hu in Hexec; [|discriminate].
    match type of Hexec with
    | context [save_execution_to_history er ?w3] =>
        destruct (save_execution_to_history_cases er w3) as (w4 & Hs & _)
    end.
    rewrite Hs in Hexec. injection Hexec as <- <-.
    simpl in Hk. rewrite Hfi in Hk. discriminate.
  - injection Hexec as <- <-.
    destruct (for_each_step_resume_point self (checkpoint w) (steps self) 0
                new_execution_result [] w1 er w2 Hw eq_refl eq_refl)
      as (srs & sr & k' & H1 & H2 & H3 & H4 & H5 & H6 & H7 & H8 & H9).
    { rewrite (checkpoint_same _ _ Hp1).
      destruct (Z.leb_spec (Z.of_nat 0) (checkpoint w + 1)); [reflexivity|lia]. }
    { exact Hloop. }
    rewrite Hk in H2. injection H2 as <-.
    split_and!; try assumption. exists srs, sr. split_and!; assumption.
Qed.

(** ** A finished workflow, and runs that raise *)

Lemma for_each_step_all_skipped self z : forall rest index er srs0 w,
  steps_executed er = Some srs0 ->
  Z.of_nat (index + length rest) - 1 <= z ->
  exists er' srs,
    for_each_step self (VInt z) index rest er w = (Return (Fell_through er'), w)
    /\ steps_executed er' = Some (srs0 ++ srs)
    /\ er_status er' = er_status er
    /\ length srs = length rest
    /\ Forall (fun sr => sr_status sr = "SKIPPED") srs.
Proof.
  induction rest as [|step rest IH]; intros index er srs0 w Hsrs0 Hz.
  - exists er, []. rewrite app_nil_r. split_and!; try reflexivity; auto.
  - cbn [for_each_step]. unfold bind at 1. cbn [int_le ret].
    destruct (Z.leb_spec (Z.of_nat index) z) as [_|Hrun]; [|simpl in Hz; lia].
    destruct (IH (S index) (append_step er (skipped step index))
                (srs0 ++ [skipped step index]) w)
      as (er' & srs & Hrun & H1 & H2 & H3 & H4).
    { apply steps_executed_append_step, Hsrs0. }
    { simpl in Hz. lia. }
    exists er', (skipped step index :: srs). split_and!; try assumption.
    + rewrite H1, <- app_assoc. reflexivity.
    + simpl. lia.
    + constructor; [reflexivity|assumption].
Qed.

(** X12: a workflow that has run to its end is not run again until it is
    reset.  On a store that answers, when the stored [last_success_step] is
    the index of the last step (or beyond), [execute], with [retry] true or
    false, awaits no [run()] and no [compensate()], records every step as
    SKIPPED and returns SUCCESS; it stores [status = SUCCESS] and
    [last_success_step = len(steps) - 1]. *)
Theorem X12_finished_workflow_is_not_rerun self retry w z :
  healthy w ->
  persisted "last_success_step" w = Some (VInt z) ->
  Z.of_nat (length (steps self)) - 1 <= z ->
  persisted "status" w <> Some (VStr "IN_PROGRESS") \/ retry = true ->
  exists r w' evs srs,
    execute self retry w = (Return r, w')
    /\ er_status r = "SUCCESS"
    /\ steps_executed r = Some srs
    /\ length srs = length (steps self)
    /\ Forall (fun sr => sr_status sr = "SKIPPED") srs
    /\ log w' = log w ++ evs
    /\ runs_in evs = []
    /\ compensations_in evs = []
    /\ persisted "status" w' = Some (VStr "SUCCESS")
    /\ persisted "last_success_step" w'
       = Some (VInt (Z.of_nat (length (steps self)) - 1)).
Proof.
  intros Hw Hp Hz Hguard.
  assert (Hdoc : exists d, doc w = Some d
                           /\ d !! "last_success_step" = Some (VInt z)).
  { unfold persisted in Hp. destruct (doc w) as [d|]; [|discriminate]. eauto. }
  destruct Hdoc as (d & Hd & Hlss).
  unfold execute. unfold bind at 1. rewrite (get_state_healthy _ Hw).
  rewrite Hd. change (default _get_default_state (Some d)) with d.
  assert (Hg : bool_decide (d !! "status" = Some (VStr "IN_PROGRESS"))
               && negb retry = false).
  { destruct Hguard as [Hs| ->]; [|apply andb_false_r].
    rewrite bool_decide_eq_false_2; [reflexivity|].
    intros Hst. apply Hs. unfold persisted. rewrite Hd. exact Hst. }
  rewrite Hg, Hlss. change (default (VInt (-1)) (Some (VInt z))) with (VInt z).
  unfold bind at 1, utcnow at 1. unfold bind at 1.
  rewrite update_state_healthy by assumption.
  unfold bind at 1.
  match goal with
  | |- context [for_each_step self _ 0 _ _ ?w1] =>
      destruct (for_each_step_all_skipped self z (steps self) 0
                  new_execution_result [] w1 eq_refl)
        as (er & srs & -> & H1 & H2 & H3 & H4); [simpl; lia|]
  end.
  unfold bind at 1, utcnow at 1. unfold bind at 1.
  rewrite update_state_healthy by assumption.
  rewrite save_execution_to_history_healthy by assumption.
  eexists _, _, [_; _; _], srs. split_and!.
  1: reflexivity.
  5:{ simpl. rewrite <- !app_assoc. reflexivity. }
  all: try reflexivity; try assumption.
  - rewrite persisted_set_history, persisted_record, persisted_written.
    reflexivity.
  - rewrite persisted_set_history, persisted_record, persisted_written.
    reflexivity.
Qed.

(** X13: when the write that opens a run (status IN_PROGRESS) raises,
    [execute] raises that exception to its caller: no step has been run or
    compensated, the document and the history are as they were, and that
    write is the only call made. *)
Theorem X13_opening_write_failure_propagates self retry w state w0 e :
  get_state w = (Return state, w0) ->
  next_fault w0 = Some e ->
  state !! "status" <> Some (VStr "IN_PROGRESS") \/ retry = true ->
  exists w' data,
    execute self retry w = (Raise e, w')
    /\ log w' = log w ++ [set_called data true]
    /\ data !! "status" = Some (VStr "IN_PROGRESS")
    /\ doc w' = doc w
    /\ history w' = history w.
Proof.
  intros Hget Hfault Hguard.
  assert (Hw0 : log w0 = log w /\ history w0 = history w /\ doc w0 = doc w).
  { destruct (get_state_cases w) as (s0 & Hs0 & _). rewrite Hget in Hs0.
    injection Hs0 as _ ->. split_and!; reflexivity. }
  destruct Hw0 as (Hl0 & Hh0 & Hd0).
  unfold execute. unfold bind at 1. rewrite Hget.
  assert (Hg : bool_decide (state !! "status" = Some (VStr "IN_PROGRESS"))
               && negb retry = false).
  { destruct Hguard as [Hs| ->]; [|apply andb_false_r].
    rewrite bool_decide_eq_false_2 by exact Hs. reflexivity. }
  rewrite Hg.
  unfold bind at 1, utcnow at 1. unfold bind at 1.
  rewrite (update_state_raises _ w0 e Hfault).
  eexists _, _. split_and!; [reflexivity| | | |].
  - simpl. rewrite Hl0. reflexivity.
  - reflexivity.
  - exact Hd0.
  - exact Hh0.
Qed.

(** X14: a run that does not return, whether it raises an error of the
    store or what a step raised that is not an [Exception], never leaves a
    verdict behind: the stored status is the one it found (the opening write
    failed) or IN_PROGRESS, and [failed_step], [completed_at] and the history
    are as they were. *)
Theorem X14_raising_run_leaves_no_verdict self retry w out w' :
  execute self retry w = (out, w') ->
  (forall r, out <> Return r) ->
  (persisted "status" w' = persisted "status" w
   \/ persisted "status" w' = Some (VStr "IN_PROGRESS"))
  /\ persisted "failed_step" w' = persisted "failed_step" w
  /\ persisted "completed_at" w' = persisted "completed_at" w
  /\ history w' = history w.
Proof.
  intros Hexec Hnr.
  assert (Hstatus : "status" ∉ attempt_keys).
  { unfold attempt_keys. rewrite !elem_of_cons, elem_of_nil. intros H.
    repeat (destruct H as [H|H]; [discriminate|]). exact H. }
  assert (Hfs : "failed_step" ∉ attempt_keys).
  { unfold attempt_keys. rewrite !elem_of_cons, elem_of_nil. intros H.
    repeat (destruct H as [H|H]; [discriminate|]). exact H. }
  assert (Hca : "completed_at" ∉ attempt_keys).
  { unfold attempt_keys. rewrite !elem_of_cons, elem_of_nil. intros H.
    repeat (destruct H as [H|H]; [discriminate|]). exact H. }
  destruct (get_state_cases w) as (state & Hget & _).
  set (w0 := set_faults (tail (faults w)) w) in Hget.
  unfold execute in Hexec. unfold bind at 1 in Hexec. rewrite Hget in Hexec.
  destruct (bool_decide _ && negb retry).
  { injection Hexec as <- <-. exfalso. eapply Hnr. reflexivity. }
  unfold bind at 1, utcnow at 1 in Hexec. unfold bind at 1 in Hexec.
  match type of Hexec with
  | context [update_state ?d w0] =>
      set (d1 := d) in Hexec; destruct (update_state_cases d1 w0) as [Hu|[e1 Hu]]
  end; rewrite Hu in Hexec.
  2:{ injection Hexec as <- <-. split_and!; try reflexivity. left. reflexivity. }
  set (w1 := set_faults _ (written (stamp d1) w0)) in Hexec.
  assert (Hs1 : persisted "status" w1 = Some (VStr "IN_PROGRESS")).
  { subst w1 d1. rewrite persisted_set_faults, persisted_written. reflexivity. }
  assert (Hf1 : persisted "failed_step" w1 = persisted "failed_step" w).
  { subst w1 d1. rewrite persisted_set_faults, persisted_written.
    destruct retry; reflexivity. }
  assert (Hc1 : persisted "completed_at" w1 = persisted "completed_at" w).
  { subst w1 d1. rewrite persisted_set_faults, persisted_written.
    destruct retry; reflexivity. }
  assert (Hh1 : history w1 = history w) by reflexivity.
  clearbody w1.
  unfold bind at 1 in Hexec.
  match type of Hexec with
  | context [for_each_step self ?l 0 _ _ w1] =>
      destruct (for_each_step_trace self l (steps self) 0 new_execution_result []
                  w1 eq_refl eq_refl)
        as (out2 & w2 & evs2 & Hloop & _ & _ & _ & _ & _ & Hout2)
  end.
  rewrite Hloop in Hexec.
  destruct out2 as [[er|er]|e2|b2].
  - destruct Hout2 as (Hh2 & Hka2 & _).
    unfold bind at 1, utcnow at 1 in Hexec. unfold bind at 1 in Hexec.
    match type of Hexec with
    | context [update_state ?d w2] =>
        destruct (update_state_cases d w2) as [Hu3|[e3 Hu3]]
    end; rewrite Hu3 in Hexec.
    + match type of Hexec with
      | context [save_execution_to_history er ?w3] =>
          destruct (save_execution_to_history_cases er w3) as (w4 & Hs & _)
      end.
      rewrite Hs in Hexec. injection Hexec as <- <-.
      exfalso. eapply Hnr. reflexivity.
    + injection Hexec as <- <-.
      split_and!.
      * right. rewrite persisted_set_faults, persisted_record.
        rewrite (Hka2 _ Hstatus). exact Hs1.
      * rewrite persisted_set_faults, persisted_record, (Hka2 _ Hfs). exact Hf1.
      * rewrite persisted_set_faults, persisted_record, (Hka2 _ Hca). exact Hc1.
      * simpl. rewrite Hh2. exact Hh1.
  - injection Hexec as <- <-. exfalso. eapply Hnr. reflexivity.
  - destruct Hout2 as (Hh2 & Hka2). injection Hexec as <- <-.
    split_and!.
    + right. rewrite (Hka2 _ Hstatus). exact Hs1.
    + rewrite (Hka2 _ Hfs). exact Hf1.
    + rewrite (Hka2 _ Hca). exact Hc1.
    + rewrite Hh2. exact Hh1.
  - destruct Hout2 as (Hh2 & Hka2). injection Hexec as <- <-.
    split_and!.
    + right. rewrite (Hka2 _ Hstatus). exact Hs1.
    + rewrite (Hka2 _ Hfs). exact Hf1.
    + rewrite (Hka2 _ Hca). exact Hc1.
    + rewrite Hh2. exact Hh1.
Qed.

(** ** More about the repository *)

(** X15: a write that goes through is a merge.  After [update_state(data)]
    every field of [data] has its new value, [updated_at] is the server's
    stamp (also when [data] had its own), every other field has the value it
    had, and [get_state], when its read succeeds, returns exactly that
    document. *)
Theorem X15_update_state_merges data w :
  next_fault w = None ->
  exists w',
    update_state data w = (Return tt, w')
    /\ (forall key, key <> "updated_at" ->
          persisted key w'
          = match data !! key with
            | Some v => Some v
            | None => persisted key w
            end)
    /\ persisted "updated_at" w' = Some SERVER_TIMESTAMP
    /\ history w' = history w
    /\ (next_fault w' = None ->
        exists state,
          fst (get_state w') = Return state
          /\ forall key, state !! key = persisted key w').
Proof.
  intros Hfault. rewrite (update_state_returns _ _ Hfault).
  eexists. split; [reflexivity|].
  set (w' := set_doc _ _).
  assert (Hp : forall key, persisted key w'
                 = match stamp data !! key with
                   | Some v => Some v
                   | None => persisted key w
                   end).
  { intros key. subst w'.
    change (persisted key (written (stamp data) w) = 
            match stamp data !! key with
            | Some v => Some v
            | None => persisted key w
            end).
    apply persisted_written. }
  split_and!.
  - intros key Hkey. rewrite Hp. unfold stamp.
    rewrite lookup_insert_ne by congruence. reflexivity.
  - rewrite Hp. unfold stamp. rewrite lookup_insert_eq. reflexivity.
  - reflexivity.
  - intros Hf'. destruct (get_state_cases w') as (state & -> & ->).
    rewrite Hf'. subst w'. simpl. eexists. split; [reflexivity|].
    intros key. reflexivity.
Qed.

(** X16: [reset_state] leaves the history alone, whether it succeeds or
    not, and makes one call, a [set] of the default state without merge.
    When that write raises, the exception reaches the caller and the
    document is as it was; when it returns, the document is the default
    state. *)
Theorem X16_reset_keeps_the_history self w out w' :
  reset self w = (out, w') ->
  history w' = history w
  /\ log w' = log w ++ [set_called _get_default_state false]
  /\ (forall e, next_fault w = Some e -> out = Raise e /\ doc w' = doc w)
  /\ (next_fault w = None ->
      out = Return tt /\ doc w' = Some _get_default_state).
Proof.
  unfold reset, next_fault. unfold_repo. destruct w as [en d h f l]; simpl.
  destruct f as [|[x|] rest]; simpl; intros [= <- <-]; simpl;
    split_and!; try reflexivity; try (intros ? [=]); try discriminate;
    try (intros; subst; split; reflexivity); auto.
Qed.

(** X17: [get_execution_history] never raises and changes neither the
    document nor the history.  It returns the empty list when its query
    fails, and otherwise the [limit] most recent entries (all of them if
    there are fewer), the most recent first. *)
Theorem X17_history_query limit w :
  exists entries w',
    get_execution_history limit w = (Return entries, w')
    /\ doc w' = doc w /\ history w' = history w /\ log w' = log w
    /\ (length entries <= limit)%nat
    /\ (forall e, next_fault w = Some e -> entries = [])
    /\ (next_fault w = None ->
        length entries = Nat.min limit (length (history w))
        /\ forall i, (i < length entries)%nat ->
             entries !! i = history w !! (length (history w) - 1 - i)%nat).
Proof.
  unfold get_execution_history, history_ref_query, next_fault.
  unfold_repo. destruct w as [en d h f l]; simpl.
  assert (Hlen : (length (take limit (rev h)) <= limit)%nat)
    by (rewrite length_take; lia).
  assert (Hok : length (take limit (rev h)) = Nat.min limit (length h)
                /\ forall i, (i < length (take limit (rev h)))%nat ->
                     take limit (rev h) !! i = h !! (length h - 1 - i)%nat).
  { split; [rewrite length_take, length_rev; reflexivity|].
    intros i Hi. rewrite length_take, length_rev in Hi.
    rewrite lookup_take_lt by lia.
    rewrite rev_alt. fold (reverse h).
    rewrite reverse_lookup by lia. f_equal. lia. }
  destruct f as [|[x|] rest]; simpl; eexists _, _;
    (split; [reflexivity|]); simpl;
    split_and!; try reflexivity; try assumption; try lia;
    try (intros ? [=]); try discriminate; try (intros _; exact Hok);
    try (intros; reflexivity).
Qed.

(** X18: on a store that answers, the run that has just returned heads the
    history: after [execute] returns a result other than the guard's,
    [get_execution_history(limit)] with [limit >= 1] returns that result
    first, followed by the most recent earlier entries. *)
Theorem X18_latest_run_heads_the_history self retry w r w' n :
  healthy w ->
  execute self retry w = (Return r, w') ->
  er_status r <> "ALREADY_IN_PROGRESS" ->
  exists w'',
    get_execution_history (S n) w'
    = (Return (r :: take n (rev (history w))), w'').
Proof.
  intros Hw Hexec Hguard.
  assert (H : healthy w' /\ history w' = history w ++ [r]).
  { unfold execute in Hexec. unfold bind at 1 in Hexec.
    rewrite (get_state_healthy _ Hw) in Hexec.
    destruct (bool_decide _ && negb retry).
    { injection Hexec as <- <-. exfalso. apply Hguard. reflexivity. }
    unfold bind at 1, utcnow at 1 in Hexec. unfold bind at 1 in Hexec.
    rewrite update_state_healthy in Hexec by assumption.
    match type of Hexec with
    | context [written ?d w] => set (w1 := written d w) in Hexec
    end.
    unfold bind at 1 in Hexec.
    match type of Hexec with
    | context [for_each_step self ?l 0 _ _ w1] => set (lss := l) in Hexec
    end.
    destruct (for_each_step self lss 0 (steps self) new_execution_result w1)
      as [out w2] eqn:Hloop.
    destruct (for_each_step_healthy self lss (steps self) 0
                new_execution_result w1 out w2 Hw eq_refl Hloop) as [Hh2 Hhist2].
    destruct out as [[er|er]|e|b]; [| |discriminate|discriminate].
    - unfold bind at 1, utcnow at 1 in Hexec. unfold bind at 1 in Hexec.
      rewrite update_state_healthy in Hexec by assumption.
      rewrite save_execution_to_history_healthy in Hexec by assumption.
      injection Hexec as <- <-. split; [exact Hh2|].
      simpl. rewrite Hhist2. reflexivity.
    - injection Hexec as <- <-. split; [exact Hh2|]. exact Hhist2. }
  destruct H as [Hw' Hhist].
  unfold get_execution_history, history_ref_query. unfold_repo.
  unfold healthy in Hw'. rewrite Hw', Hhist, rev_unit. simpl.
  eexists. reflexivity.
Qed.

(** ** The base class *)

Lemma env_after_runs_base_step n (e : Env) :
  env_after_runs (@base_step Env Payload) n e = e.
Proof. induction n as [|n IH]; [reflexivity|exact IH]. Qed.

(** X19: a step that does not override [run()] fails like any other step:
    on a store that answers and with [max_retries >= 1], the base class's
    [run()] is awaited [max_retries] times, the result is FAILED with the
    message "Step must implement run() method", and neither [run()] nor the
    base class's [compensate()] changes anything outside the
    orchestrator. *)
Theorem X19_unimplemented_step_fails self index w :
  healthy w ->
  1 <= max_retries self ->
  (exists sr w' evs,
     _execute_step_with_retry self base_step index w = (Return sr, w')
     /\ sr_status sr = "FAILED"
     /\ sr_step sr = "base_step"
     /\ sr_attempts sr = Some (Z.to_nat (max_retries self))
     /\ sr_error sr = Some "Step must implement run() method"
     /\ log w' = log w ++ evs
     /\ length (runs_in evs) = Z.to_nat (max_retries self)
     /\ env w' = env w)
  /\ (forall e : Env, compensate (@base_step Env Payload) e = (Return tt, e)).
Proof.
  intros Hw Hm. split; [|reflexivity].
  unfold _execute_step_with_retry.
  destruct (retry_fails self base_step index (Z.to_nat (max_retries self)) 0 w)
    as (x & w' & Hx & Hrun & _ & _ & He & Hl & _); try assumption; try lia.
  { intros i _. eexists. unfold nth_run.
    rewrite env_after_runs_base_step. reflexivity. }
  unfold nth_run in Hx. rewrite env_after_runs_base_step in Hx.
  simpl in Hx. injection Hx as <-.
  eexists _, w', _. split_and!; try eassumption; try reflexivity.
  - simpl. f_equal. lia.
  - unfold attempt_events.
    generalize (Z.to_nat (max_retries self)) 0%nat.
    intros n. induction n as [|n IH]; intros a; [reflexivity|].
    simpl. f_equal. apply IH.
  - rewrite He. apply env_after_runs_base_step.
Qed.

End Properties.

(** * The properties at work on the small workflow *)

Import Demo.

(** A call that returned, split into what it returned and the world it
    left. *)
Lemma returned_run {A : Type} (m : @M nat string A) (w : @world nat string)
    (d : A) :
  fst (m w) = Return (returned d (fst (m w))) ->
  m w = (Return (returned d (fst (m w))), snd (m w)).
Proof. destruct (m w) as [o w']. simpl. intros H. rewrite <- H. reflexivity. Qed.

Lemma C8_witness :
  fst (get_state readable) = Return stored
  /\ fst (get_state fresh) = Return _get_default_state
  /\ fst (get_state down) = Return _get_default_state
  /\ fst (update_state (<["status" := VStr "SUCCESS"]> ∅) down)
     = Raise (Exception "unavailable")
  /\ doc (snd (update_state (<["status" := VStr "SUCCESS"]> ∅) down)) = doc down.
Proof.
  pose proof (@C8_get_state_defaults_update_state_raises nat string)
    as (H1 & H2 & H3 & _ & _ & H4).
  split_and!.
  - apply (H1 readable stored); reflexivity.
  - apply (H2 fresh); reflexivity.
  - apply (H3 down (Exception "unavailable")); reflexivity.
  - apply (H4 _ down (Exception "unavailable")); reflexivity.
  - apply (H4 _ down (Exception "unavailable")); reflexivity.
Defined.

Lemma C9_witness :
  reset abcd readable
  = (Return tt,
     World 0%nat (Some _get_default_state) [] []
       [set_called _get_default_state false])
  /\ fst (get_status abcd
            (World 0%nat (Some _get_default_state) [] []
               [set_called _get_default_state false]))
     = Return (<["status" := VStr "NOT_STARTED"]>
              (<["last_success_step" := VInt (-1)]>
              (<["current_step" := VNone]>
              (<["error" := VNone]>
              (<["retry_count" := VInt 0]>
              (<["started_at" := VNone]>
              (<["completed_at" := VNone]> ∅))))))).
Proof.
  split; [reflexivity|].
  apply (C9_reset_then_get_status abcd readable). reflexivity.
Defined.

Lemma C5_witness :
  get_state running = (Return (<["status" := VStr "IN_PROGRESS"]> ∅), running)
  /\ exists r w',
       execute abcd false running = (Return r, w')
       /\ er_status r = "ALREADY_IN_PROGRESS"
       /\ steps_executed r = None
       /\ log w' = log running
       /\ doc w' = doc running
       /\ history w' = history running
       /\ env w' = env running.
Proof.
  split; [reflexivity|].
  apply (C5_already_in_progress abcd running
           (<["status" := VStr "IN_PROGRESS"]> ∅) running); reflexivity.
Defined.





(** What that run does: it awaits [compensate()] on step 1 only, raises what
    that call raised, and leaves the document IN_PROGRESS and the history
    empty. *)
Example undo_cancelled_run :
  fst (execute undo_cancelled false fresh)
  = Raise_base (BaseException "CancelledError")
  /\ runs_in (log (snd (execute undo_cancelled false fresh))) = [0; 1; 2]%nat
  /\ failures_in (log (snd (execute undo_cancelled false fresh))) = [2%nat]
  /\ compensations_in (log (snd (execute undo_cancelled false fresh)))
     = [1%nat]
  /\ persisted "status" (snd (execute undo_cancelled false fresh))
     = Some (VStr "IN_PROGRESS")
  /\ history (snd (execute undo_cancelled false fresh)) = [].
Proof. vm_compute. repeat split. Qed.



(** A first run of [a_then_fail] does leave that checkpoint, having
    compensated step 0 once already. *)
Example after_failure_checkpoint :
  persisted "status" after_failure = Some (VStr "FAILED")
  /\ persisted "last_success_step" after_failure = Some (VInt 0)
  /\ runs_in (log after_failure) = [0; 1]%nat
  /\ compensations_in (log after_failure) = [0]%nat.
Proof. vm_compute. repeat split. Qed.

Lemma C4_witness :
  checkpoint_ok abcd hiccup
  /\ reads_answered abcd [false; false; true] hiccup
  /\ StronglySorted Z.le
       (map checkpoint (hiccup :: worlds_after abcd [false; false; true] hiccup))
  /\ Forall (checkpoint_ok abcd) (worlds_after abcd [false; false; true] hiccup).
Proof.
  assert (H1 : checkpoint_ok abcd hiccup) by exact I.
  assert (H2 : reads_answered abcd [false; false; true] hiccup)
    by (vm_compute; repeat split).
  destruct (C4_checkpoint_never_decreases abcd [false; false; true] hiccup H1 H2)
    as (Ha & Hb & _).
  split_and!; assumption.
Defined.

(** C4 as the specification has it fails: the stored checkpoint is 1, the
    read that opens the next call fails, [get_state] hands out the default
    state, step 0 runs again and its checkpoint, 0, is written over the 1. *)
Lemma C4_counterexample :
  ~ (forall (self : @SagaOrchestrator nat string) retries
            (w : @world nat string),
       checkpoint_ok self w ->
       StronglySorted Z.le (map checkpoint (w :: worlds_after self retries w))).
Proof.
  intros Hclaim.
  assert (H := Hclaim a_then_fail [true] down).
  assert (Hc : map checkpoint (down :: worlds_after a_then_fail [true] down)
               = [1; 0]) by (vm_compute; exact eq_refl).
  rewrite Hc in H.
  assert (Hok : checkpoint_ok a_then_fail down)
    by (vm_compute; intros Hgt; discriminate Hgt).
  specialize (H Hok).
  apply StronglySorted_inv in H. destruct H as [_ H].
  apply Forall_inv in H. lia.
Qed.

(** The checkpoints of those calls: the first is the stored one, the second
    the one the call leaves. *)
Example down_checkpoints :
  map checkpoint (down :: worlds_after a_then_fail [true] down) = [1; 0]
  /\ map checkpoint (hiccup :: worlds_after abcd [false; false; true] hiccup)
     = [-1; -1; 1; 1].
Proof. vm_compute. split; exact eq_refl. Qed.

(** The checkpoints of that sequence of calls, and those of a workflow that
    goes through. *)
Example abcd_checkpoints :
  map checkpoint (fresh :: worlds_after abcd [false; true; false] fresh)
  = [-1; 1; 1; 1].
Proof. vm_compute. exact eq_refl. Qed.

Example all_good_checkpoints :
  map checkpoint (fresh :: worlds_after all_good [false; false; true] fresh)
  = [-1; 2; 2; 2].
Proof. vm_compute. exact eq_refl. Qed.



(** What that run returns and leaves. *)
Example add_refused_run :
  er_status (returned already_in_progress
               (fst (execute one_step false add_refused))) = "SUCCESS"
  /\ persisted "status" (snd (execute one_step false add_refused))
     = Some (VStr "SUCCESS")
  /\ persisted "last_success_step" (snd (execute one_step false add_refused))
     = Some (VInt 0)
  /\ history (snd (execute one_step false add_refused)) = []
  /\ faults (snd (execute one_step false add_refused)) = [].
Proof. vm_compute. repeat split. Qed.

Lemma C10_witness :
  steps no_steps = []
  /\ healthy fresh
  /\ (doc fresh = None \/ doc fresh = Some _get_default_state)
  /\ exists r w' evs,
       execute no_steps false fresh = (Return r, w')
       /\ er_status r = "SUCCESS"
       /\ steps_executed r = Some []
       /\ persisted "status" w' = Some (VStr "SUCCESS")
       /\ persisted "last_success_step" w' = Some (VInt (-1))
       /\ _get_default_state !! "last_success_step" = Some (VInt (-1))
       /\ log w' = log fresh ++ evs
       /\ runs_in evs = []
       /\ compensations_in evs = [].
Proof.
  assert (H1 : steps no_steps = []) by reflexivity.
  assert (H2 : healthy fresh) by reflexivity.
  assert (H3 : doc fresh = None \/ doc fresh = Some _get_default_state)
    by (left; reflexivity).
  split_and!; [exact H1|exact H2|exact H3|].
  exact (C10_empty_workflow no_steps fresh H1 H2 H3).
Defined.

Lemma C2_witness :
  steps abcd = [returning "A"; returning "B"; raising "C"; returning "D"]
  /\ max_retries abcd = 2
  /\ healthy fresh
  /\ (doc fresh = None \/ doc fresh = Some _get_default_state)
  /\ (exists p, nth_run (returning "A") 0 (env fresh) = Return p)
  /\ (exists p, nth_run (returning "B") 0
                  (env_after_runs (returning "A") 1 (env fresh)) = Return p)
  /\ (forall e, exists x, fst (run (raising "C") e) = Raise x)
  /\ compensate_is_catchable (returning "B")
  /\ compensate_is_catchable (returning "A")
  /\ exists r w' evs srs,
       execute abcd false fresh = (Return r, w')
       /\ er_status r = "FAILED"
       /\ failed_step r = Some "C"
       /\ failed_step_index r = Some 2%nat
       /\ steps_executed r = Some srs
       /\ map (fun sr => (sr_step sr, sr_status sr, sr_attempts sr)) srs
          = [("A", "SUCCESS", Some 1%nat); ("B", "SUCCESS", Some 1%nat);
             ("C", "FAILED", Some 2%nat)]
       /\ log w' = log fresh ++ evs
       /\ runs_in evs = [0; 1; 2; 2]%nat
       /\ compensations_in evs = [1; 0]%nat
       /\ (exists evs1 evs2,
             evs = evs1 ++ evs2
             /\ runs_in evs1 = [0; 1; 2; 2]%nat /\ compensations_in evs1 = []
             /\ runs_in evs2 = [] /\ compensations_in evs2 = [1; 0]%nat)
       /\ env w'
          = snd (compensate (returning "A")
                   (snd (compensate (returning "B")
                           (env_after_runs (raising "C") 2
                              (env_after_runs (returning "B") 1
                                 (env_after_runs (returning "A") 1
                                    (env fresh)))))))
       /\ persisted "last_success_step" w' = Some (VInt 1)
       /\ persisted "status" w' = Some (VStr "FAILED").
Proof.
  assert (H1 : steps abcd
               = [returning "A"; returning "B"; raising "C"; returning "D"])
    by reflexivity.
  assert (H2 : max_retries abcd = 2) by reflexivity.
  assert (H3 : healthy fresh) by reflexivity.
  assert (H4 : doc fresh = None \/ doc fresh = Some _get_default_state)
    by (left; reflexivity).
  assert (H5 : exists p, nth_run (returning "A") 0 (env fresh) = Return p)
    by (eexists; reflexivity).
  assert (H6 : exists p, nth_run (returning "B") 0
                           (env_after_runs (returning "A") 1 (env fresh))
                         = Return p)
    by (eexists; reflexivity).
  assert (H7 : forall e, exists x, fst (run (raising "C") e) = Raise x)
    by (intros e; eexists; reflexivity).
  assert (H8 : compensate_is_catchable (returning "B"))
    by (intros e b; simpl; discriminate).
  assert (H9 : compensate_is_catchable (returning "A"))
    by (intros e b; simpl; discriminate).
  split_and!; try assumption.
  exact (C2_failure_scenario abcd (returning "A") (returning "B") (raising "C")
           (returning "D") fresh eq_refl eq_refl eq_refl eq_refl
           H1 H2 H3 H4 H5 H6 H7 H8 H9).
Defined.

(** ** The further properties on the small workflow *)

Lemma run_outcome {A : Type} (m : @M nat string A) (w : @world nat string)
    (o : outcome A) :
  fst (m w) = o -> m w = (o, snd (m w)).
Proof. destruct (m w) as [o' w']. simpl. intros ->. reflexivity. Qed.

Lemma X2_witness :
  exists sr w',
    _execute_step_with_retry all_good (flaky "B" 2) 1 fresh = (Return sr, w')
    /\ (sr_status sr = "SUCCESS" ->
          persisted "last_success_step" w' = Some (VInt (Z.of_nat 1))
          /\ exists a p,
               sr_attempts sr = Some a /\ sr_result sr = Some p
               /\ sr_error sr = None
               /\ (1 <= a <= Z.to_nat (max_retries all_good))%nat)
    /\ (sr_status sr = "FAILED" ->
          sr_result sr = None
          /\ persisted "last_success_step" w'
             = persisted "last_success_step" fresh
          /\ exists msg, sr_error sr = Some msg).
Proof.
  assert (H : _execute_step_with_retry all_good (flaky "B" 2) 1 fresh
              = (Return (returned (retries_exceeded (flaky "B" 2) 1)
                           (fst (_execute_step_with_retry all_good
                                   (flaky "B" 2) 1 fresh))),
                 snd (_execute_step_with_retry all_good (flaky "B" 2) 1 fresh))).
  { apply returned_run. vm_compute. exact eq_refl. }
  eexists _, _. split; [exact H|].
  exact (X2_step_result_and_checkpoint all_good (flaky "B" 2) 1 fresh _ _ H).
Defined.

Lemma X3_witness :
  max_retries no_attempts <= 0
  /\ _execute_step_with_retry no_attempts (returning "A") 0 fresh
     = (Return (mkStepResult (name (returning "A")) "FAILED" 0 None None
                  (Some "Max retries exceeded")), fresh).
Proof.
  assert (H : max_retries no_attempts <= 0) by (simpl; lia).
  split; [exact H|].
  exact (X3_no_retries_allowed no_attempts (returning "A") 0 fresh H).
Defined.

Lemma X4_witness :
  faults outage
  = map Some ([Exception "deadline exceeded"] ++ [Exception "unavailable"]) ++ []
  /\ Z.of_nat (S (length [Exception "deadline exceeded"])) = max_retries abcd
  /\ exists sr w' evs,
       _execute_step_with_retry abcd (returning "A") 0 outage = (Return sr, w')
       /\ sr_status sr = "FAILED"
       /\ sr_attempts sr = Some (S (length [Exception "deadline exceeded"]))
       /\ sr_error sr = Some (str (Exception "unavailable"))
       /\ log w' = log outage ++ evs
       /\ runs_in evs = []
       /\ faults w' = []
       /\ doc w' = doc outage.
Proof.
  assert (H1 : faults outage
               = map Some ([Exception "deadline exceeded"]
                           ++ [Exception "unavailable"]) ++ []) by reflexivity.
  assert (H2 : Z.of_nat (S (length [Exception "deadline exceeded"]))
               = max_retries abcd) by reflexivity.
  split_and!; [exact H1|exact H2|].
  exact (X4_store_failure_is_a_failed_attempt abcd (returning "A") 0 outage
           [Exception "deadline exceeded"] (Exception "unavailable") [] H1 H2).
Defined.

Lemma X5_witness :
  faults hiccup = [None; Some (Exception "unavailable")]
  /\ 2 <= max_retries all_good
  /\ nth_run (returning "A") 0 (env hiccup) = Return "done"
  /\ nth_run (returning "A") 1 (env hiccup) = Return "done"
  /\ exists sr w' evs,
       _execute_step_with_retry all_good (returning "A") 0 hiccup
       = (Return sr, w')
       /\ sr_status sr = "SUCCESS"
       /\ sr_attempts sr = Some 2%nat
       /\ sr_result sr = Some "done"
       /\ log w' = log hiccup ++ evs
       /\ runs_in evs = [0; 0]%nat
       /\ persisted "last_success_step" w' = Some (VInt (Z.of_nat 0)).
Proof.
  assert (H1 : faults hiccup = [None; Some (Exception "unavailable")])
    by reflexivity.
  assert (H2 : 2 <= max_retries all_good) by (simpl; lia).
  assert (H3 : nth_run (returning "A") 0 (env hiccup) = Return "done")
    by reflexivity.
  assert (H4 : nth_run (returning "A") 1 (env hiccup) = Return "done")
    by reflexivity.
  split_and!; [exact H1|exact H2|exact H3|exact H4|].
  exact (X5_rerun_after_lost_checkpoint all_good (returning "A") 0 hiccup
           (Exception "unavailable") "done" "done" H1 H2 H3 H4).
Defined.

Lemma X6_witness :
  exists out w',
    execute abcd false fresh = (out, w')
    /\ match out with
       | Raise _ | Raise_base _ => history w' = history fresh
       | Return r =>
           history w' = history fresh
           \/ (history w' = history fresh ++ [r]
               /\ created_at r = Some SERVER_TIMESTAMP)
       end.
Proof.
  eexists _, _. split; [apply surjective_pairing|].
  apply (X6_history_grows_by_the_result_only abcd false fresh).
  apply surjective_pairing.
Defined.

Lemma X7_witness :
  exists out w',
    execute abcd false fresh = (out, w')
    /\ exists evs,
         log w' = log fresh ++ evs
         /\ StronglySorted le (runs_in evs)
         /\ Forall (fun j => (j < length (steps abcd))%nat) (runs_in evs)
         /\ (length (runs_in evs)
             <= length (steps abcd) * Z.to_nat (max_retries abcd))%nat
         /\ forall r k,
              out = Return r -> failed_step_index r = Some k ->
              Forall (fun j => (j <= k)%nat) (runs_in evs).
Proof.
  eexists _, _. split; [apply surjective_pairing|].
  apply (X7_runs_in_order_and_within_budget abcd false fresh).
  apply surjective_pairing.
Defined.

(** The first run of [abcd] on a fresh workflow, and what it returns. *)
Lemma abcd_first_run :
  execute abcd false fresh
  = (Return (returned already_in_progress (fst (execute abcd false fresh))),
     snd (execute abcd false fresh)).
Proof. apply returned_run. vm_compute. exact eq_refl. Qed.

Lemma X8_witness :
  exists r w' srs,
    execute abcd false fresh = (Return r, w')
    /\ steps_executed r = Some srs
    /\ map sr_index srs = seq 0 (length srs)
    /\ map sr_step srs = map name (take (length srs) (steps abcd))
    /\ (length srs <= length (steps abcd))%nat
    /\ (forall k, failed_step_index r = Some k -> S k = length srs)
    /\ (failed_step_index r = None -> length srs = length (steps abcd))
    /\ created_at r = Some SERVER_TIMESTAMP.
Proof.
  assert (H : exists srs,
             steps_executed
               (returned already_in_progress (fst (execute abcd false fresh)))
             = Some srs) by (eexists; vm_compute; exact eq_refl).
  destruct H as [srs Hsrs].
  eexists _, _, srs. split; [exact abcd_first_run|]. split; [exact Hsrs|].
  exact (X8_step_results_follow_the_steps abcd false fresh _ _ srs
           abcd_first_run Hsrs).
Defined.

Lemma X9_witness :
  get_state readable = (Return stored, readable)
  /\ exists r w',
       execute abcd true readable = (Return r, w')
       /\ er_status r <> "ALREADY_IN_PROGRESS"
       /\ persisted "retry_count" w'
          = Some (default (VInt 0) (stored !! "retry_count"))
       /\ persisted "started_at" w'
          = Some (VStr (utcnow_isoformat (env readable))).
Proof.
  assert (H1 : get_state readable = (Return stored, readable)) by reflexivity.
  assert (H2 : execute abcd true readable
               = (Return (returned already_in_progress
                            (fst (execute abcd true readable))),
                  snd (execute abcd true readable)))
    by (apply returned_run; vm_compute; exact eq_refl).
  assert (H3 : er_status (returned already_in_progress
                            (fst (execute abcd true readable)))
               <> "ALREADY_IN_PROGRESS") by (vm_compute; discriminate).
  split; [exact H1|]. eexists _, _. split; [exact H2|]. split; [exact H3|].
  exact (X9_retry_count_is_carried abcd true readable stored readable _ _
           H1 H2 H3).
Defined.

Lemma X10_witness :
  exists r w',
    execute abcd false fresh = (Return r, w')
    /\ ((er_status r = "ALREADY_IN_PROGRESS" /\ false = false
         /\ steps_executed r = None)
        \/ (er_status r = "SUCCESS"
            /\ failed_step r = None /\ failed_step_index r = None
            /\ exists srs,
                 steps_executed r = Some srs
                 /\ Forall (fun sr => sr_status sr <> "FAILED") srs)
        \/ (er_status r = "FAILED"
            /\ exists srs sr k step,
                 steps_executed r = Some (srs ++ [sr])
                 /\ Forall (fun sr => sr_status sr <> "FAILED") srs
                 /\ sr_status sr = "FAILED"
                 /\ failed_step_index r = Some k
                 /\ k = length srs
                 /\ steps abcd !! k = Some step
                 /\ failed_step r = Some (name step))).
Proof.
  eexists _, _. split; [exact abcd_first_run|].
  exact (X10_status_of_the_result abcd false fresh _ _ abcd_first_run).
Defined.

Lemma X11_witness :
  healthy fresh
  /\ checkpoint_ok abcd fresh
  /\ -1 <= checkpoint fresh
  /\ exists r w',
       execute abcd false fresh = (Return r, w')
       /\ failed_step_index r = Some 2%nat
       /\ checkpoint fresh < Z.of_nat 2
       /\ checkpoint w' = Z.of_nat 2 - 1
       /\ persisted "status" w' = Some (VStr "FAILED")
       /\ (exists srs sr,
             steps_executed r = Some (srs ++ [sr])
             /\ persisted "error" w' = Some (opt_str (sr_error sr))
             /\ persisted "failed_step" w' = Some (VStr (sr_step sr)))
       /\ (exists t, persisted "completed_at" w' = Some (VStr t))
       /\ history w' = history fresh ++ [r].
Proof.
  assert (H1 : healthy fresh) by reflexivity.
  assert (H2 : checkpoint_ok abcd fresh) by exact I.
  assert (H3 : -1 <= checkpoint fresh) by (vm_compute; discriminate).
  assert (H4 : failed_step_index
                 (returned already_in_progress (fst (execute abcd false fresh)))
               = Some 2%nat) by (vm_compute; exact eq_refl).
  split_and!; [exact H1|exact H2|exact H3|].
  eexists _, _. split; [exact abcd_first_run|]. split; [exact H4|].
  exact (X11_failed_run_leaves_the_resume_point abcd false fresh _ _ 2
           H1 H2 H3 abcd_first_run H4).
Defined.

Lemma X12_witness :
  healthy finished
  /\ persisted "last_success_step" finished = Some (VInt 3)
  /\ Z.of_nat (length (steps abcd)) - 1 <= 3
  /\ persisted "status" finished <> Some (VStr "IN_PROGRESS")
  /\ exists r w' evs srs,
       execute abcd false finished = (Return r, w')
       /\ er_status r = "SUCCESS"
       /\ steps_executed r = Some srs
       /\ length srs = length (steps abcd)
       /\ Forall (fun sr => sr_status sr = "SKIPPED") srs
       /\ log w' = log finished ++ evs
       /\ runs_in evs = []
       /\ compensations_in evs = []
       /\ persisted "status" w' = Some (VStr "SUCCESS")
       /\ persisted "last_success_step" w'
          = Some (VInt (Z.of_nat (length (steps abcd)) - 1)).
Proof.
  assert (H1 : healthy finished) by reflexivity.
  assert (H2 : persisted "last_success_step" finished = Some (VInt 3))
    by reflexivity.
  assert (H3 : Z.of_nat (length (steps abcd)) - 1 <= 3) by (simpl; lia).
  assert (H4 : persisted "status" finished <> Some (VStr "IN_PROGRESS"))
    by (vm_compute; discriminate).
  split_and!; [exact H1|exact H2|exact H3|exact H4|].
  exact (X12_finished_workflow_is_not_rerun abcd false finished 3
           H1 H2 H3 (or_introl H4)).
Defined.

Lemma X13_witness :
  get_state hiccup
  = (Return _get_default_state,
     World 0%nat None [] [Some (Exception "unavailable")] [])
  /\ next_fault (@World nat string 0%nat None []
                   [Some (Exception "unavailable")] [])
     = Some (Exception "unavailable")
  /\ _get_default_state !! "status" <> Some (VStr "IN_PROGRESS")
  /\ exists w' data,
       execute abcd false hiccup = (Raise (Exception "unavailable"), w')
       /\ log w' = log hiccup ++ [set_called data true]
       /\ data !! "status" = Some (VStr "IN_PROGRESS")
       /\ doc w' = doc hiccup
       /\ history w' = history hiccup.
Proof.
  assert (H1 : get_state hiccup
               = (Return _get_default_state,
                  World 0%nat None [] [Some (Exception "unavailable")] []))
    by reflexivity.
  assert (H2 : next_fault (@World nat string 0%nat None []
                             [Some (Exception "unavailable")] [])
               = Some (Exception "unavailable")) by reflexivity.
  assert (H3 : _get_default_state !! "status" <> Some (VStr "IN_PROGRESS"))
    by (vm_compute; discriminate).
  split_and!; [exact H1|exact H2|exact H3|].
  exact (X13_opening_write_failure_propagates abcd false hiccup _ _ _
           H1 H2 (or_introl H3)).
Defined.

Lemma X14_witness :
  exists w',
    execute abcd false hiccup = (Raise (Exception "unavailable"), w')
    /\ (forall r : @ExecutionResult string,
          Raise (Exception "unavailable") <> Return r)
    /\ (persisted "status" w' = persisted "status" hiccup
        \/ persisted "status" w' = Some (VStr "IN_PROGRESS"))
    /\ persisted "failed_step" w' = persisted "failed_step" hiccup
    /\ persisted "completed_at" w' = persisted "completed_at" hiccup
    /\ history w' = history hiccup.
Proof.
  assert (H : execute abcd false hiccup
              = (Raise (Exception "unavailable"),
                 snd (execute abcd false hiccup)))
    by (apply run_outcome; vm_compute; exact eq_refl).
  assert (H0 : forall r : @ExecutionResult string,
               Raise (Exception "unavailable") <> Return r)
    by (intros r; discriminate).
  eexists. split_and!; [exact H|exact H0|..];
    apply (X14_raising_run_leaves_no_verdict abcd false hiccup _ _ H H0).
Defined.

Lemma X15_witness :
  next_fault readable = None
  /\ exists w',
       update_state (<["status" := VStr "SUCCESS"]> ∅) readable = (Return tt, w')
       /\ (forall key, key <> "updated_at" ->
             persisted key w'
             = match (<["status" := VStr "SUCCESS"]> ∅ : gmap string value) !! key with
               | Some v => Some v
               | None => persisted key readable
               end)
       /\ persisted "updated_at" w' = Some SERVER_TIMESTAMP
       /\ history w' = history readable
       /\ (next_fault w' = None ->
           exists state,
             fst (get_state w') = Return state
             /\ forall key, state !! key = persisted key w').
Proof.
  assert (H : next_fault readable = None) by reflexivity.
  split; [exact H|].
  exact (X15_update_state_merges (<["status" := VStr "SUCCESS"]> ∅) readable H).
Defined.

Lemma X16_witness :
  exists out w',
    reset abcd outage = (out, w')
    /\ history w' = history outage
    /\ log w' = log outage ++ [set_called _get_default_state false]
    /\ (forall e, next_fault outage = Some e ->
          out = Raise e /\ doc w' = doc outage)
    /\ (next_fault outage = None ->
        out = Return tt /\ doc w' = Some _get_default_state).
Proof.
  eexists _, _. split; [apply surjective_pairing|].
  apply (X16_reset_keeps_the_history abcd outage). apply surjective_pairing.
Defined.

Lemma X17_witness :
  exists entries w',
    get_execution_history 5 after_failure = (Return entries, w')
    /\ doc w' = doc after_failure /\ history w' = history after_failure
    /\ log w' = log after_failure
    /\ (length entries <= 5)%nat
    /\ (forall e, next_fault after_failure = Some e -> entries = [])
    /\ (next_fault after_failure = None ->
        length entries = Nat.min 5 (length (history after_failure))
        /\ forall i, (i < length entries)%nat ->
             entries !! i
             = history after_failure
                 !! (length (history after_failure) - 1 - i)%nat).
Proof. exact (X17_history_query 5 after_failure). Defined.

Lemma X18_witness :
  healthy fresh
  /\ exists r w',
       execute abcd false fresh = (Return r, w')
       /\ er_status r <> "ALREADY_IN_PROGRESS"
       /\ exists w'',
            get_execution_history 3 w'
            = (Return (r :: take 2 (rev (history fresh))), w'').
Proof.
  assert (H1 : healthy fresh) by reflexivity.
  assert (H3 : er_status (returned already_in_progress
                            (fst (execute abcd false fresh)))
               <> "ALREADY_IN_PROGRESS") by (vm_compute; discriminate).
  split; [exact H1|]. eexists _, _. split; [exact abcd_first_run|].
  split; [exact H3|].
  exact (X18_latest_run_heads_the_history abcd false fresh _ _ 2
           H1 abcd_first_run H3).
Defined.

Lemma X19_witness :
  healthy fresh
  /\ 1 <= max_retries abcd
  /\ (exists sr w' evs,
        _execute_step_with_retry abcd base_step 0 fresh = (Return sr, w')
        /\ sr_status sr = "FAILED"
        /\ sr_step sr = "base_step"
        /\ sr_attempts sr = Some (Z.to_nat (max_retries abcd))
        /\ sr_error sr = Some "Step must implement run() method"
        /\ log w' = log fresh ++ evs
        /\ length (runs_in evs) = Z.to_nat (max_retries abcd)
        /\ env w' = env fresh)
  /\ (forall e : nat, compensate (@base_step nat string) e = (Return tt, e)).
Proof.
  assert (H1 : healthy fresh) by reflexivity.
  assert (H2 : 1 <= max_retries abcd) by (simpl; lia).
  split_and!; [exact H1|exact H2| |];
    apply (X19_unimplemented_step_fails abcd 0 fresh H1 H2).
Defined.
